(** * miniDockReader: style resolver, paragraph/run reader and run coalescer

    A shallow embedding of [miniDockReader.h] and of the current
    implementation [src/miniDockReader.cpp], with the properties of the
    specification proved, or refuted, on it; of the older implementation,
    where it differs from the current one; and of the escaping function of
    the command-line HTML writer.

    - C++ [float] is IEEE binary32, modelled with the Standard Library's
      [spec_float] at precision 24 and maximal exponent 128.
    - [int] is a 32-bit two's complement integer and [uint32_t], [uint8_t]
      are integers modulo 2^32 and 2^8, all carried by [Z] with the
      wrap-around written out at the conversions.
    - [std::atoi], [std::stoi] and [std::stof] follow the C library on an
      LP64 platform; the last two throw as the C++ library says.
    - [std::unordered_map] is a [gmap]; [std::vector] is a [list].
    - The process-global [g_mergedStyleCache] is threaded explicitly through
      a state monad that also carries C++ exceptions and, because
      [mergeStyleCached] recurses along [basedOn] links without a visited
      set, a recursion budget.
    - miniz and the XML parser are outside the library: the archive reader
      is modelled over what the calls of miniz report, the parsing
      functions take the element trees that tinyxml2 builds, trees of named
      elements with attributes, text nodes, comments and other nodes
      (declarations, unknown nodes), and the entry points take the trees of
      the entries that the archive reader found. *)

From Stdlib Require Import ZArith List Bool Ascii String Lia.
From Stdlib Require Import Floats.SpecFloat DecimalString.
From stdpp Require Import base option list gmap strings.

Local Open Scope string_scope.
Local Open Scope list_scope.
Local Open Scope Z_scope.

(** ** C++ exceptions *)

Inductive exception : Type :=
| invalid_argument
| out_of_range.

Inductive exc (A : Type) : Type :=
| Ok (a : A)
| Throw (e : exception).
Arguments Ok {A} a.
Arguments Throw {A} e.

Definition exc_bind {A B : Type} (m : exc A) (k : A -> exc B) : exc B :=
  match m with
  | Ok a => k a
  | Throw e => Throw e
  end.

(** ** Characters and the C conversions (<cctype>, <cstdlib>, <string>) *)

Module CLib.

Definition code (c : ascii) : Z := Z.of_N (N_of_ascii c).

(** [isspace] in the "C" locale: space, \t, \n, \v, \f, \r. *)
Definition isspace (c : ascii) : bool :=
  (code c =? 32) || ((9 <=? code c) && (code c <=? 13)).

Definition tolower (c : ascii) : ascii :=
  if (65 <=? code c) && (code c <=? 90)
  then ascii_of_N (Z.to_N (code c + 32)) else c.

Fixpoint skip_space (s : string) : string :=
  match s with
  | String c s' => if isspace c then skip_space s' else s
  | EmptyString => s
  end.

(** Value of a digit in the given base (up to 16), if it is one. *)
Definition digit (base : Z) (c : ascii) : option Z :=
  let n := code c in
  let v := if (48 <=? n) && (n <=? 57) then n - 48
           else if (97 <=? n) && (n <=? 102) then n - 87
           else if (65 <=? n) && (n <=? 70) then n - 55
           else 16 in
  if v <? base then Some v else None.

(** Longest prefix of digits: accumulated value, number of digits read,
    rest of the string. *)
Fixpoint digits (base : Z) (acc : Z) (n : Z) (s : string) : Z * Z * string :=
  match s with
  | String c s' =>
      match digit base c with
      | Some v => digits base (acc * base + v) (n + 1) s'
      | None => (acc, n, s)
      end
  | EmptyString => (acc, n, s)
  end.

(** Optional sign: [true] for a minus. *)
Definition sign (s : string) : bool * string :=
  match s with
  | String "-" s' => (true, s')
  | String "+" s' => (false, s')
  | _ => (false, s)
  end.

Definition INT_MIN : Z := - 2 ^ 31.
Definition INT_MAX : Z := 2 ^ 31 - 1.
Definition LONG_MIN : Z := - 2 ^ 63.
Definition LONG_MAX : Z := 2 ^ 63 - 1.

(** Conversion to a 32-bit [int] (two's complement wrap-around). *)
Definition to_int (z : Z) : Z := (z + 2 ^ 31) mod 2 ^ 32 - 2 ^ 31.
(** [static_cast<uint32_t>] and [static_cast<uint8_t>]. *)
Definition to_uint32 (z : Z) : Z := z mod 2 ^ 32.
Definition to_uint8 (z : Z) : Z := z mod 2 ^ 8.

Definition clamp_long (z : Z) : Z := Z.max LONG_MIN (Z.min LONG_MAX z).

(** [strtol(s, &end, base)] for base 10 or 16 on an LP64 platform:
    [None] when no conversion could be performed, else the value, clamped
    to the range of [long], with a flag telling whether it was clamped
    (ERANGE). *)
Definition strtol (base : Z) (s : string) : option (Z * bool) :=
  let '(neg, s1) := sign (skip_space s) in
  let s2 :=
    if base =? 16 then
      match s1 with
      | String "0" (String x (String d s')) =>
          if ((x =? "x")%char || (x =? "X")%char) && bool_decide (is_Some (digit 16 d))
          then String d s' else s1
      | _ => s1
      end
    else s1 in
  let '(v, n, _) := digits base 0 0 s2 in
  if n =? 0 then None
  else let v := if neg then - v else v in
       Some (clamp_long v, negb (v =? clamp_long v)).

(** [std::atoi]: [(int) strtol(s, NULL, 10)], 0 when there is no number. *)
Definition atoi (s : string) : Z :=
  match strtol 10 s with
  | Some (v, _) => to_int v
  | None => 0
  end.

(** [std::stoi(s, nullptr, base)]: throws [std::invalid_argument] when no
    conversion could be performed and [std::out_of_range] when the value
    does not fit an [int]. *)
Definition stoi (base : Z) (s : string) : exc Z :=
  match strtol base s with
  | None => Throw invalid_argument
  | Some (v, erange) =>
      if erange || (v <? INT_MIN) || (INT_MAX <? v) then Throw out_of_range
      else Ok v
  end.

(** [s.substr(pos, len)] for [pos <= s.length()]. *)
Definition substr (pos len : nat) (s : string) : string :=
  String.substring pos len s.

End CLib.

(** ** IEEE binary32 ([float]) *)

Module F32.

Definition prec : Z := 24.
Definition emax : Z := 128.

Definition float : Type := spec_float.

Definition zero : float := S754_zero false.
Definition of_Z (n : Z) : float := binary_normalize prec emax n 0 false.
Definition one : float := of_Z 1.

Definition div (x y : float) : float := SFdiv prec emax x y.
(** [x == y] and [x > y] on floats (false on NaN). *)
Definition eqb (x y : float) : bool := SFeqb x y.
Definition gtb (x y : float) : bool := SFltb y x.

(** The exact quotient [num / den] of two positive integers, rounded to
    nearest even. *)
Definition of_ratio (neg : bool) (num den : positive) : float :=
  SFdiv prec emax (S754_finite neg num 0) (S754_finite false den 0).

(** Does [x] denote exactly [num / den] in absolute value? *)
Definition is_exact (x : float) (num den : positive) : bool :=
  match x with
  | S754_finite _ m e =>
      if 0 <=? e then Z.pos m * 2 ^ e * Z.pos den =? Z.pos num
      else Z.pos m * Z.pos den =? Z.pos num * 2 ^ (- e)
  | _ => false
  end.

Definition is_tiny (x : float) : bool :=
  match x with
  | S754_zero _ => true
  | S754_finite _ m _ => Z.pos (digits2_pos m) <? prec
  | _ => false
  end.

(** The result of [strtof] on a non-zero literal of exact absolute value
    [num / den]: ERANGE ([std::out_of_range] in [std::stof]) on overflow,
    and on a result that is tiny and inexact. *)
Definition of_literal (neg : bool) (num den : positive) : exc float :=
  let x := of_ratio neg num den in
  match x with
  | S754_infinity _ => Throw out_of_range
  | _ => if is_tiny x && negb (is_exact x num den)
         then Throw out_of_range else Ok x
  end.

(** [mant * base ^ ex] for [base] 2 or 10. *)
Definition scaled (neg : bool) (mant : Z) (base : Z) (ex : Z) : exc float :=
  match mant with
  | Z.pos m =>
      if 0 <=? ex then of_literal neg (m * Z.to_pos (base ^ ex)) 1
      else of_literal neg m (Z.to_pos (base ^ (- ex)))
  | _ => Ok (S754_zero neg)
  end.

(** Case-insensitive prefix test. *)
Fixpoint starts_with (p s : string) : bool :=
  match p, s with
  | EmptyString, _ => true
  | String a p', String b s' =>
      (CLib.tolower a =? CLib.tolower b)%char && starts_with p' s'
  | _, _ => false
  end.

(** Optional exponent part [e|E|p|P][sign]digits; 0 when it is absent or
    has no digit. *)
Definition exponent (mark : ascii) (s : string) : Z :=
  match s with
  | String c s' =>
      if (CLib.tolower c =? mark)%char then
        let '(neg, s1) := CLib.sign s' in
        let '(v, n, _) := CLib.digits 10 0 0 s1 in
        if n =? 0 then 0 else if neg then - v else v
      else 0
  | EmptyString => 0
  end.

(** Digits, an optional point, digits, in the given base: the mantissa as
    an integer, the number of digits read, the number of digits after the
    point, and the rest of the string. *)
Definition mantissa (base : Z) (s : string) : Z * Z * Z * string :=
  let '(m1, n1, r1) := CLib.digits base 0 0 s in
  match r1 with
  | String "." r =>
      let '(m2, n2, r2) := CLib.digits base m1 0 r in
      (m2, n1 + n2, n2, r2)
  | _ => (m1, n1, 0, r1)
  end.

Definition is_hex_prefix (s : string) : option string :=
  match s with
  | String "0" (String x s') =>
      if (CLib.tolower x =? "x")%char then
        let '(_, n, _, _) := mantissa 16 s' in
        if 0 <? n then Some s' else None
      else None
  | _ => None
  end.

(** [std::stof]: [strtof] on the string; [std::invalid_argument] when no
    conversion could be performed, [std::out_of_range] on ERANGE. Accepts
    leading white space, a sign, then [inf], [infinity], [nan], a
    hexadecimal or a decimal floating literal; trailing characters are
    ignored. *)
Definition stof (s : string) : exc float :=
  let '(neg, s1) := CLib.sign (CLib.skip_space s) in
  if starts_with "inf" s1 then Ok (S754_infinity neg)
  else if starts_with "nan" s1 then Ok S754_nan
  else
    match is_hex_prefix s1 with
    | Some s2 =>
        let '(m, _, nfrac, r) := mantissa 16 s2 in
        scaled neg m 2 (exponent "p" r - 4 * nfrac)
    | None =>
        let '(m, n, nfrac, r) := mantissa 10 s1 in
        if n =? 0 then Throw invalid_argument
        else scaled neg m 10 (exponent "e" r - nfrac)
    end.

End F32.

(** ** Data model (miniDockReader.h) *)

Module ElementType.
Inductive t : Type := Paragraph | Run.
End ElementType.

Module Justification.
Inductive t : Type := Left | Center | Right | Justify.

Definition is_Left (j : t) : bool :=
  match j with Left => true | _ => false end.
End Justification.

Notation "x <~ m ; k" := (exc_bind m (fun x => k))
  (at level 20, m at level 100, k at level 200, only parsing, right associativity).

Module Color.

Record t : Type := mk { r : Z; g : Z; b : Z; a : Z }.

(** [Color() = default]: opaque black. *)
Definition default : t := {| r := 0; g := 0; b := 0; a := 255 |}.

Definition hex2 (pos : nat) (hex : string) : exc Z :=
  v <~ CLib.stoi 16 (CLib.substr pos 2 hex) ; Ok (CLib.to_uint8 v).

(** [Color(const std::string& hex)] *)
Definition of_hex (hex : string) : exc t :=
  if (String.length hex =? 6)%nat then
    r <~ hex2 0 hex ;
    g <~ hex2 2 hex ;
    b <~ hex2 4 hex ;
    Ok {| r := r; g := g; b := b; a := 255 |}
  else if (String.length hex =? 8)%nat then
    r <~ hex2 0 hex ;
    g <~ hex2 2 hex ;
    b <~ hex2 4 hex ;
    a <~ hex2 6 hex ;
    Ok {| r := r; g := g; b := b; a := a |}
  else Ok default.

Definition empty (c : t) : bool :=
  (r c =? 0) && (g c =? 0) && (b c =? 0) && (a c =? 255).

(** [operator==] *)
Definition eqb (c d : t) : bool :=
  (r c =? r d) && (g c =? g d) && (b c =? b d) && (a c =? a d).

End Color.

Module Tab.
Record t : Type := mk {
  position : F32.float;
  alignment : ascii;
  leader : string
}.

Definition default : t :=
  {| position := F32.zero; alignment := "L"%char; leader := "" |}.
End Tab.

(** [std::string::empty] *)
Definition empty (s : string) : bool :=
  match s with EmptyString => true | String _ _ => false end.

Module Style.

(** [styleType] has no default member initializer: it holds a value only
    once [parseStyles] has read a [w:type] attribute ([None] otherwise). *)
Record t : Type := mk {
  styleType : option ElementType.t;
  basedOn : string;
  bold : bool;
  italic : bool;
  underline : bool;
  strikeThrough : bool;
  Subscript : bool;
  Superscript : bool;
  color : Color.t;
  backColor : Color.t;
  fontFamily : string;
  fontSize : F32.float;
  level : Z;
  numbered : bool;
  numberFormat : string;
  numberStyle : string;
  lineSpacing : F32.float;
  spaceBefore : F32.float;
  spaceAfter : F32.float;
  spaceBetweenSameStyle : bool;
  justification : Justification.t;
  rightDirection : bool;
  indentLeft : F32.float;
  indentRight : F32.float;
  indentFirstLine : F32.float;
  tabs : list Tab.t
}.

(** [Style result;]: the default member initializers of the header. *)
Definition default : t := {|
  styleType := None;
  basedOn := "";
  bold := false;
  italic := false;
  underline := false;
  strikeThrough := false;
  Subscript := false;
  Superscript := false;
  color := Color.default;
  backColor := Color.default;
  fontFamily := "";
  fontSize := F32.zero;
  level := 0;
  numbered := false;
  numberFormat := "";
  numberStyle := "";
  lineSpacing := F32.one;
  spaceBefore := F32.zero;
  spaceAfter := F32.zero;
  spaceBetweenSameStyle := false;
  justification := Justification.Left;
  rightDirection := false;
  indentLeft := F32.zero;
  indentRight := F32.zero;
  indentFirstLine := F32.zero;
  tabs := []
|}.

End Style.

Module Run.

Record t : Type := mk {
  text : string;
  lang : string;
  style : string;
  bold : bool;
  italic : bool;
  underline : bool;
  strike : bool;
  subscript : bool;
  superscript : bool;
  color : Color.t;
  backColor : Color.t;
  fontFamily : string;
  fontSize : F32.float;
  noteId : Z
}.

Definition default : t := {|
  text := "";
  lang := "";
  style := "";
  bold := false;
  italic := false;
  underline := false;
  strike := false;
  subscript := false;
  superscript := false;
  color := Color.default;
  backColor := Color.default;
  fontFamily := "";
  fontSize := F32.zero;
  noteId := 0
|}.

(** [run.text = s] and [run.text += s]. *)
Definition set_text (s : string) (x : t) : t :=
  mk s (lang x) (style x) (bold x) (italic x) (underline x) (strike x)
     (subscript x) (superscript x) (color x) (backColor x) (fontFamily x)
     (fontSize x) (noteId x).

Definition append_text (s : string) (x : t) : t :=
  set_text (String.append (text x) s) x.

Definition set_noteId (n : Z) (x : t) : t :=
  mk (text x) (lang x) (style x) (bold x) (italic x) (underline x) (strike x)
     (subscript x) (superscript x) (color x) (backColor x) (fontFamily x)
     (fontSize x) n.

End Run.

Module Paragraph.

Record t : Type := mk {
  style : string;
  level : Z;
  numbered : bool;
  numberFormat : string;
  numberStyle : string;
  justification : Justification.t;
  rightDirection : bool;
  lineSpacing : F32.float;
  spaceBefore : F32.float;
  spaceAfter : F32.float;
  spaceBetweenSameStyle : bool;
  indentLeft : F32.float;
  indentRight : F32.float;
  indentFirstLine : F32.float;
  tabs : list Tab.t;
  runs : list Run.t
}.

Definition default : t := {|
  style := "";
  level := 0;
  numbered := false;
  numberFormat := "";
  numberStyle := "";
  justification := Justification.Left;
  rightDirection := false;
  lineSpacing := F32.one;
  spaceBefore := F32.zero;
  spaceAfter := F32.zero;
  spaceBetweenSameStyle := false;
  indentLeft := F32.zero;
  indentRight := F32.zero;
  indentFirstLine := F32.zero;
  tabs := [];
  runs := []
|}.

Definition set_runs (rs : list Run.t) (p : t) : t :=
  mk (style p) (level p) (numbered p) (numberFormat p) (numberStyle p)
     (justification p) (rightDirection p) (lineSpacing p) (spaceBefore p)
     (spaceAfter p) (spaceBetweenSameStyle p) (indentLeft p) (indentRight p)
     (indentFirstLine p) (tabs p) rs.

End Paragraph.

Module Note.
Record t : Type := mk { id : Z; paragraphs : list Paragraph.t }.
End Note.

Module Document.
Record t : Type := mk {
  paragraphs : list Paragraph.t;
  styles : gmap string Style.t;
  footnotes : gmap Z Note.t;
  endnotes : gmap Z Note.t
}.

Definition default : t :=
  {| paragraphs := []; styles := ∅; footnotes := ∅; endnotes := ∅ |}.
End Document.

(** ** The element tree of tinyxml2 *)

#[warnings="-register-all"]
Inductive XMLNode : Type :=
| XMLText (value : string)
| XMLComment
| XMLOther
| XMLElement (name : string) (attrs : list (string * string))
             (children : list XMLNode).

Module XML.

Definition children (e : XMLNode) : list XMLNode :=
  match e with XMLElement _ _ cs => cs | _ => [] end.

Definition named (n : string) (x : XMLNode) : bool :=
  match x with XMLElement m _ _ => String.eqb m n | _ => false end.

(** The nodes visited by
    [for (x = e->FirstChildElement(n); x; x = x->NextSiblingElement(n))]. *)
Definition Elements (n : string) (cs : list XMLNode) : list XMLNode :=
  List.filter (named n) cs.

Definition ChildElements (e : XMLNode) (n : string) : list XMLNode :=
  Elements n (children e).

Definition FirstChildElement (e : XMLNode) (n : string) : option XMLNode :=
  List.find (named n) (children e).

(** [e->Attribute(n)]: the value of the first attribute of that name. *)
Definition Attribute (e : XMLNode) (n : string) : option string :=
  match e with
  | XMLElement _ attrs _ =>
      match List.find (fun kv => String.eqb (fst kv) n) attrs with
      | Some kv => Some (snd kv)
      | None => None
      end
  | _ => None
  end.

(** [e->GetText()]: the text of the first child that is not a comment, when
    it is a text node. *)
Fixpoint skipComments (nodes : list XMLNode) : list XMLNode :=
  match nodes with
  | XMLComment :: nodes' => skipComments nodes'
  | _ => nodes
  end.

Definition GetText (e : XMLNode) : option string :=
  match skipComments (children e) with
  | XMLText s :: _ => Some s
  | _ => None
  end.

(** [e->FirstChildElement(n)] followed by [->Attribute(a)], as in
    [if (x = e->FirstChildElement(n)) if (x->Attribute(a)) ...]. *)
Definition ChildAttribute (e : XMLNode) (n a : string) : option string :=
  match FirstChildElement e n with
  | Some x => Attribute x a
  | None => None
  end.

Definition hasChild (e : XMLNode) (n : string) : bool :=
  match FirstChildElement e n with Some _ => true | None => false end.

End XML.

(** An [XMLDocument] after [Parse]: its top-level nodes (none for an empty
    or ill-formed buffer). *)
Definition XMLDocument : Type := list XMLNode.

(** ** Effects of the reader

    A computation of the reader runs against the global
    [g_mergedStyleCache]. It returns a value and the updated cache, lets a
    C++ exception escape, or never returns because the recursion of
    [mergeStyleCached] exceeds every stack ([Overflow]: the recursion budget
    given to the call is exhausted). *)

Abbreviation StyleMap := (gmap string Style.t).

Inductive outcome (A : Type) : Type :=
| Done (a : A) (cache : StyleMap)
| Raised (e : exception)
| Overflow.
Arguments Done {A} a cache.
Arguments Raised {A} e.
Arguments Overflow {A}.

Definition M (A : Type) : Type := StyleMap -> outcome A.

Definition ret {A : Type} (a : A) : M A := fun cache => Done a cache.

Definition bind {A B : Type} (m : M A) (k : A -> M B) : M B :=
  fun cache =>
    match m cache with
    | Done a cache' => k a cache'
    | Raised e => Raised e
    | Overflow => Overflow
    end.

Notation "x <- m ; k" := (bind m (fun x => k))
  (at level 20, m at level 100, k at level 200, only parsing, right associativity).

(** A conversion that may throw, inside the reader. *)
Definition liftE {A : Type} (m : exc A) : M A :=
  fun cache => match m with Ok a => Done a cache | Throw e => Raised e end.

(** [g_mergedStyleCache.find(id)], [g_mergedStyleCache[id] = s] and
    [g_mergedStyleCache.clear()]. *)
Definition cache_find (id : string) : M (option Style.t) :=
  fun cache => Done (cache !! id) cache.

Definition cache_store (id : string) (s : Style.t) : M unit :=
  fun cache => Done tt (<[id := s]> cache).

Definition cache_clear : M unit := fun _ => Done tt ∅.

(** ** Style merge (cached) *)

(** The overlay of [cur] on the inherited [result]
    (the body of [mergeStyleCached] after the recursive call). *)
Definition overlay (cur result : Style.t) : Style.t := {|
  Style.styleType :=
    match Style.styleType cur with
    | Some _ => Style.styleType result
    | None => Style.styleType cur
    end;
  Style.basedOn := Style.basedOn result;
  Style.bold := if Style.bold cur then true else Style.bold result;
  Style.italic := if Style.italic cur then true else Style.italic result;
  Style.underline := if Style.underline cur then true else Style.underline result;
  Style.strikeThrough :=
    if Style.strikeThrough cur then true else Style.strikeThrough result;
  Style.Subscript := if Style.Subscript cur then true else Style.Subscript result;
  Style.Superscript :=
    if Style.Superscript cur then true else Style.Superscript result;
  Style.color :=
    if negb (Color.empty (Style.color cur)) then Style.color cur
    else Style.color result;
  Style.backColor :=
    if negb (Color.empty (Style.backColor cur)) then Style.backColor cur
    else Style.backColor result;
  Style.fontFamily :=
    if negb (empty (Style.fontFamily cur)) then Style.fontFamily cur
    else Style.fontFamily result;
  Style.fontSize :=
    if F32.gtb (Style.fontSize cur) F32.zero then Style.fontSize cur
    else Style.fontSize result;
  Style.level :=
    if 0 <? Style.level cur then Style.level cur else Style.level result;
  Style.numbered := if Style.numbered cur then true else Style.numbered result;
  Style.numberFormat :=
    if negb (empty (Style.numberFormat cur)) then Style.numberFormat cur
    else Style.numberFormat result;
  Style.numberStyle :=
    if negb (empty (Style.numberStyle cur)) then Style.numberStyle cur
    else Style.numberStyle result;
  Style.lineSpacing :=
    if F32.gtb (Style.lineSpacing cur) F32.zero then Style.lineSpacing cur
    else Style.lineSpacing result;
  Style.spaceBefore :=
    if F32.gtb (Style.spaceBefore cur) F32.zero then Style.spaceBefore cur
    else Style.spaceBefore result;
  Style.spaceAfter :=
    if F32.gtb (Style.spaceAfter cur) F32.zero then Style.spaceAfter cur
    else Style.spaceAfter result;
  Style.spaceBetweenSameStyle :=
    if Style.spaceBetweenSameStyle cur then true
    else Style.spaceBetweenSameStyle result;
  Style.justification :=
    if negb (Justification.is_Left (Style.justification cur))
    then Style.justification cur else Style.justification result;
  Style.rightDirection :=
    if Style.rightDirection cur then true else Style.rightDirection result;
  Style.indentLeft :=
    if F32.gtb (Style.indentLeft cur) F32.zero then Style.indentLeft cur
    else Style.indentLeft result;
  Style.indentRight :=
    if F32.gtb (Style.indentRight cur) F32.zero then Style.indentRight cur
    else Style.indentRight result;
  Style.indentFirstLine :=
    if F32.gtb (Style.indentFirstLine cur) F32.zero then Style.indentFirstLine cur
    else Style.indentFirstLine result;
  Style.tabs :=
    match Style.tabs cur with
    | [] => Style.tabs result
    | _ :: _ => Style.tabs result ++ Style.tabs cur
    end
|}.

(** [mergeStyleCached(styles, styleId)]. [fuel] bounds the depth of the
    recursion: a call that needs a deeper stack does not return. *)
Fixpoint mergeStyleCached (fuel : nat) (styles : StyleMap) (styleId : string)
  {struct fuel} : M Style.t :=
  match fuel with
  | O => fun _ => Overflow
  | S fuel' =>
      let result := Style.default in
      if empty styleId then ret result
      else
        itc <- cache_find styleId ;
        match itc with
        | Some merged => ret merged
        | None =>
            match styles !! styleId with
            | None =>
                _ <- cache_store styleId result ;
                ret result
            | Some cur =>
                result <- (if negb (empty (Style.basedOn cur))
                           then mergeStyleCached fuel' styles (Style.basedOn cur)
                           else ret result) ;
                let result := overlay cur result in
                _ <- cache_store styleId result ;
                ret result
            end
        end
  end.

(** ** Styles parsing *)

Definition or_default {A : Type} (o : option A) (d : A) : A :=
  match o with Some v => v | None => d end.

(** [x = std::stof(v) / d] when the attribute is present. *)
Definition stof_over (d : Z) (o : option string) (old : F32.float)
  : exc F32.float :=
  match o with
  | Some v => x <~ F32.stof v ; Ok (F32.div x (F32.of_Z d))
  | None => Ok old
  end.

(** [x = Color(v)] when the attribute is present. *)
Definition color_of (o : option string) (old : Color.t) : exc Color.t :=
  match o with
  | Some v => Color.of_hex v
  | None => Ok old
  end.

(** [x = std::atoi(v)] when the attribute is present. *)
Definition atoi_of (o : option string) (old : Z) : Z :=
  match o with
  | Some v => CLib.atoi v
  | None => old
  end.

(** The [w:jc] values that change the justification. *)
Definition justification_of (o : option string) (old : Justification.t)
  : Justification.t :=
  match o with
  | Some val =>
      if String.eqb val "center" then Justification.Center
      else if String.eqb val "right" then Justification.Right
      else if String.eqb val "both" then Justification.Justify
      else old
  | None => old
  end.

(** One [w:tab] element. *)
Definition readTab (tab : XMLNode) : exc Tab.t :=
  position <~ stof_over 20 (XML.Attribute tab "w:pos") (Tab.position Tab.default) ;
  Ok {| Tab.position := position;
        Tab.alignment :=
          match XML.Attribute tab "w:val" with
          | Some (String c _) => c
          | Some EmptyString => Ascii.zero
          | None => Tab.alignment Tab.default
          end;
        Tab.leader := or_default (XML.Attribute tab "w:leader") (Tab.leader Tab.default) |}.

(** The loop over the [w:tab] children, appending to [tabs]. *)
Fixpoint readTabs (elems : list XMLNode) (tabs : list Tab.t) : exc (list Tab.t) :=
  match elems with
  | [] => Ok tabs
  | tab :: elems' => t <~ readTab tab ; readTabs elems' (tabs ++ [t])
  end.

(** The [w:rPr] block of a style. *)
Definition styleRunProps (rPr : XMLNode) (st : Style.t) : exc Style.t :=
  color <~ color_of (XML.ChildAttribute rPr "w:color" "w:val") (Style.color st) ;
  backColor <~ color_of (XML.ChildAttribute rPr "w:shd" "w:fill") (Style.backColor st) ;
  fontSize <~ stof_over 2 (XML.ChildAttribute rPr "w:sz" "w:val") (Style.fontSize st) ;
  Ok {|
    Style.styleType := Style.styleType st;
    Style.basedOn := Style.basedOn st;
    Style.bold := if XML.hasChild rPr "w:b" then true else Style.bold st;
    Style.italic := if XML.hasChild rPr "w:i" then true else Style.italic st;
    Style.underline := if XML.hasChild rPr "w:u" then true else Style.underline st;
    Style.strikeThrough :=
      if XML.hasChild rPr "w:strike" then true else Style.strikeThrough st;
    Style.Subscript :=
      if XML.hasChild rPr "w:subscript" then true else Style.Subscript st;
    Style.Superscript :=
      if XML.hasChild rPr "w:superscript" then true else Style.Superscript st;
    Style.color := color;
    Style.backColor := backColor;
    Style.fontFamily :=
      or_default (XML.ChildAttribute rPr "w:rFonts" "w:ascii") (Style.fontFamily st);
    Style.fontSize := fontSize;
    Style.level := Style.level st;
    Style.numbered := Style.numbered st;
    Style.numberFormat := Style.numberFormat st;
    Style.numberStyle := Style.numberStyle st;
    Style.lineSpacing := Style.lineSpacing st;
    Style.spaceBefore := Style.spaceBefore st;
    Style.spaceAfter := Style.spaceAfter st;
    Style.spaceBetweenSameStyle := Style.spaceBetweenSameStyle st;
    Style.justification := Style.justification st;
    Style.rightDirection := Style.rightDirection st;
    Style.indentLeft := Style.indentLeft st;
    Style.indentRight := Style.indentRight st;
    Style.indentFirstLine := Style.indentFirstLine st;
    Style.tabs := Style.tabs st
  |}.

(** The [w:pPr] block of a style. *)
Definition styleParaProps (pPr : XMLNode) (st : Style.t) : exc Style.t :=
  let level := atoi_of (XML.ChildAttribute pPr "w:outlineLvl" "w:val") (Style.level st) in
  let num := XML.FirstChildElement pPr "w:numPr" in
  let sp := XML.FirstChildElement pPr "w:spacing" in
  let indent := XML.FirstChildElement pPr "w:ind" in
  let attr (o : option XMLNode) (a : string) : option string :=
    match o with Some x => XML.Attribute x a | None => None end in
  let child_attr (o : option XMLNode) (n a : string) : option string :=
    match o with Some x => XML.ChildAttribute x n a | None => None end in
  lineSpacing <~ stof_over 240 (attr sp "w:line") (Style.lineSpacing st) ;
  spaceBefore <~ stof_over 20 (attr sp "w:before") (Style.spaceBefore st) ;
  spaceAfter <~ stof_over 20 (attr sp "w:after") (Style.spaceAfter st) ;
  indentLeft <~ stof_over 20 (attr indent "w:left") (Style.indentLeft st) ;
  indentRight <~ stof_over 20 (attr indent "w:right") (Style.indentRight st) ;
  indentFirstLine <~ stof_over 20 (attr indent "w:firstLine") (Style.indentFirstLine st) ;
  tabs <~ match XML.FirstChildElement pPr "w:tabs" with
          | Some tabs => readTabs (XML.ChildElements tabs "w:tab") (Style.tabs st)
          | None => Ok (Style.tabs st)
          end ;
  Ok {|
    Style.styleType := Style.styleType st;
    Style.basedOn := Style.basedOn st;
    Style.bold := Style.bold st;
    Style.italic := Style.italic st;
    Style.underline := Style.underline st;
    Style.strikeThrough := Style.strikeThrough st;
    Style.Subscript := Style.Subscript st;
    Style.Superscript := Style.Superscript st;
    Style.color := Style.color st;
    Style.backColor := Style.backColor st;
    Style.fontFamily := Style.fontFamily st;
    Style.fontSize := Style.fontSize st;
    Style.level := atoi_of (child_attr num "w:ilvl" "w:val") level;
    Style.numbered := match num with Some _ => true | None => Style.numbered st end;
    Style.numberFormat :=
      match child_attr num "w:numId" "w:val" with
      | Some _ => "decimal"
      | None => Style.numberFormat st
      end;
    Style.numberStyle :=
      or_default (child_attr num "w:numStyle" "w:val") (Style.numberStyle st);
    Style.lineSpacing := lineSpacing;
    Style.spaceBefore := spaceBefore;
    Style.spaceAfter := spaceAfter;
    Style.spaceBetweenSameStyle :=
      match attr sp "w:lineRule" with
      | Some val =>
          if String.eqb val "exact" then true else Style.spaceBetweenSameStyle st
      | None => Style.spaceBetweenSameStyle st
      end;
    Style.justification :=
      justification_of (XML.ChildAttribute pPr "w:jc" "w:val") (Style.justification st);
    Style.rightDirection :=
      if XML.hasChild pPr "w:bidi" then true else Style.rightDirection st;
    Style.indentLeft := indentLeft;
    Style.indentRight := indentRight;
    Style.indentFirstLine := indentFirstLine;
    Style.tabs := tabs
  |}.

(** [Style st;] with [styleType] and [basedOn] read from the element. *)
Definition styleHeader (s : XMLNode) : Style.t := {|
  Style.styleType :=
    match XML.Attribute s "w:type" with
    | Some t => Some (if String.eqb t "paragraph"
                      then ElementType.Paragraph else ElementType.Run)
    | None => Style.styleType Style.default
    end;
  Style.basedOn :=
    or_default (XML.ChildAttribute s "w:basedOn" "w:val") (Style.basedOn Style.default);
  Style.bold := Style.bold Style.default;
  Style.italic := Style.italic Style.default;
  Style.underline := Style.underline Style.default;
  Style.strikeThrough := Style.strikeThrough Style.default;
  Style.Subscript := Style.Subscript Style.default;
  Style.Superscript := Style.Superscript Style.default;
  Style.color := Style.color Style.default;
  Style.backColor := Style.backColor Style.default;
  Style.fontFamily := Style.fontFamily Style.default;
  Style.fontSize := Style.fontSize Style.default;
  Style.level := Style.level Style.default;
  Style.numbered := Style.numbered Style.default;
  Style.numberFormat := Style.numberFormat Style.default;
  Style.numberStyle := Style.numberStyle Style.default;
  Style.lineSpacing := Style.lineSpacing Style.default;
  Style.spaceBefore := Style.spaceBefore Style.default;
  Style.spaceAfter := Style.spaceAfter Style.default;
  Style.spaceBetweenSameStyle := Style.spaceBetweenSameStyle Style.default;
  Style.justification := Style.justification Style.default;
  Style.rightDirection := Style.rightDirection Style.default;
  Style.indentLeft := Style.indentLeft Style.default;
  Style.indentRight := Style.indentRight Style.default;
  Style.indentFirstLine := Style.indentFirstLine Style.default;
  Style.tabs := Style.tabs Style.default
|}.

(** The body of the loop of [parseStyles] for one [w:style] element. *)
Definition parseStyle (s : XMLNode) : exc Style.t :=
  let st := styleHeader s in
  st <~ match XML.FirstChildElement s "w:rPr" with
        | Some rPr => styleRunProps rPr st
        | None => Ok st
        end ;
  match XML.FirstChildElement s "w:pPr" with
  | Some pPr => styleParaProps pPr st
  | None => Ok st
  end.

(** [map.emplace(id, st)]: no effect when the key is present. *)
Definition emplace (id : string) (st : Style.t) (map : StyleMap) : StyleMap :=
  match map !! id with
  | Some _ => map
  | None => <[id := st]> map
  end.

Fixpoint parseStyles_loop (elems : list XMLNode) (map : StyleMap) : exc StyleMap :=
  match elems with
  | [] => Ok map
  | s :: elems' =>
      match XML.Attribute s "w:styleId" with
      | None => parseStyles_loop elems' map
      | Some id =>
          st <~ parseStyle s ;
          parseStyles_loop elems' (emplace id st map)
      end
  end.

(** [parseStyles(xml)], on the tree that [doc.Parse(xml)] builds. *)
Definition parseStyles (xml : XMLDocument) : exc StyleMap :=
  match List.find (XML.named "w:styles") xml with
  | None => Ok ∅
  | Some root => parseStyles_loop (XML.ChildElements root "w:style") ∅
  end.

(** ** Run coalescer *)

(** [sameRunStyle(a, b)] *)
Definition sameRunStyle (a b : Run.t) : bool :=
  String.eqb (Run.style a) (Run.style b) &&
  String.eqb (Run.lang a) (Run.lang b) &&
  Bool.eqb (Run.bold a) (Run.bold b) &&
  Bool.eqb (Run.italic a) (Run.italic b) &&
  Bool.eqb (Run.underline a) (Run.underline b) &&
  Bool.eqb (Run.strike a) (Run.strike b) &&
  Color.eqb (Run.color a) (Run.color b) &&
  Color.eqb (Run.backColor a) (Run.backColor b) &&
  String.eqb (Run.fontFamily a) (Run.fontFamily b) &&
  F32.eqb (Run.fontSize a) (Run.fontSize b) &&
  Bool.eqb (Run.subscript a) (Run.subscript b) &&
  Bool.eqb (Run.superscript a) (Run.superscript b).

(** One iteration of the loop of [mergeAdjacentRuns] on [runs[i]]:
    [merged.back().text += runs[i].text] or [merged.emplace_back(runs[i])]. *)
Definition merge_step (merged : list Run.t) (run : Run.t) : list Run.t :=
  match rev merged with
  | back :: front =>
      if sameRunStyle back run
      then rev front ++ [Run.append_text (Run.text run) back]
      else merged ++ [run]
  | [] => merged ++ [run]
  end.

(** [mergeAdjacentRuns(runs)]: the new value of [runs]. *)
Definition mergeAdjacentRuns (runs : list Run.t) : list Run.t :=
  match runs with
  | [] => runs
  | [_] => runs
  | first :: rest => fold_left merge_step rest [first]
  end.

(** ** Paragraph reader *)

(** [s.find_first_not_of(ch)] and [s.find_last_not_of(ch)]
    ([None] for [npos]). *)
Fixpoint find_first_not_of (ch : ascii) (s : string) : option nat :=
  match s with
  | EmptyString => None
  | String c s' =>
      if (c =? ch)%char then
        match find_first_not_of ch s' with
        | Some i => Some (S i)
        | None => None
        end
      else Some O
  end.

Fixpoint find_last_not_of (ch : ascii) (s : string) : option nat :=
  match s with
  | EmptyString => None
  | String c s' =>
      match find_last_not_of ch s' with
      | Some i => Some (S i)
      | None => if (c =? ch)%char then None else Some O
      end
  end.

(** Trim leading and trailing spaces. *)
Definition trim_spaces (text : string) : string :=
  match find_first_not_of " " text, find_last_not_of " " text with
  | Some first, Some last => CLib.substr first (last - first + 1) text
  | _, _ => ""
  end.

(** The fields of the paragraph copied from the merged paragraph style. *)
Definition seedParagraph (paraStyle : Style.t) (pStyleId : string)
  (para : Paragraph.t) : Paragraph.t := {|
  Paragraph.style := pStyleId;
  Paragraph.level := Style.level paraStyle;
  Paragraph.numbered := Style.numbered paraStyle;
  Paragraph.numberFormat := Style.numberFormat paraStyle;
  Paragraph.numberStyle := Style.numberStyle paraStyle;
  Paragraph.justification := Style.justification paraStyle;
  Paragraph.rightDirection := Style.rightDirection paraStyle;
  Paragraph.lineSpacing :=
    if F32.gtb (Style.lineSpacing paraStyle) F32.zero
    then Style.lineSpacing paraStyle else Paragraph.lineSpacing para;
  Paragraph.spaceBefore := Style.spaceBefore paraStyle;
  Paragraph.spaceAfter := Style.spaceAfter paraStyle;
  Paragraph.spaceBetweenSameStyle := Style.spaceBetweenSameStyle paraStyle;
  Paragraph.indentLeft := Style.indentLeft paraStyle;
  Paragraph.indentRight := Style.indentRight paraStyle;
  Paragraph.indentFirstLine := Style.indentFirstLine paraStyle;
  Paragraph.tabs := Style.tabs paraStyle;
  Paragraph.runs := Paragraph.runs para
|}.

(** The direct properties of [w:pPr], overriding the seeded ones. *)
Definition directParagraphProps (pPr : XMLNode) (para : Paragraph.t)
  : exc Paragraph.t :=
  let numPr := XML.FirstChildElement pPr "w:numPr" in
  let indent := XML.FirstChildElement pPr "w:ind" in
  let spacing := XML.FirstChildElement pPr "w:spacing" in
  let attr (o : option XMLNode) (a : string) : option string :=
    match o with Some x => XML.Attribute x a | None => None end in
  let child_attr (o : option XMLNode) (n a : string) : option string :=
    match o with Some x => XML.ChildAttribute x n a | None => None end in
  indentLeft <~ stof_over 20 (attr indent "w:left") (Paragraph.indentLeft para) ;
  indentRight <~ stof_over 20 (attr indent "w:right") (Paragraph.indentRight para) ;
  indentFirstLine <~
    stof_over 20 (attr indent "w:firstLine") (Paragraph.indentFirstLine para) ;
  lineSpacing <~ stof_over 240 (attr spacing "w:line") (Paragraph.lineSpacing para) ;
  spaceBefore <~ stof_over 20 (attr spacing "w:before") (Paragraph.spaceBefore para) ;
  spaceAfter <~ stof_over 20 (attr spacing "w:after") (Paragraph.spaceAfter para) ;
  tabs <~ match XML.FirstChildElement pPr "w:tabs" with
          | Some tabs => readTabs (XML.ChildElements tabs "w:tab") []
          | None => Ok (Paragraph.tabs para)
          end ;
  Ok {|
    Paragraph.style := Paragraph.style para;
    Paragraph.level := atoi_of (child_attr numPr "w:ilvl" "w:val") (Paragraph.level para);
    Paragraph.numbered :=
      match numPr with Some _ => true | None => Paragraph.numbered para end;
    Paragraph.numberFormat :=
      match child_attr numPr "w:numId" "w:val" with
      | Some _ => "decimal"
      | None => Paragraph.numberFormat para
      end;
    Paragraph.numberStyle :=
      or_default (child_attr numPr "w:numStyle" "w:val") (Paragraph.numberStyle para);
    Paragraph.justification :=
      justification_of (XML.ChildAttribute pPr "w:jc" "w:val")
                       (Paragraph.justification para);
    Paragraph.rightDirection :=
      if XML.hasChild pPr "w:bidi" then true else Paragraph.rightDirection para;
    Paragraph.lineSpacing := lineSpacing;
    Paragraph.spaceBefore := spaceBefore;
    Paragraph.spaceAfter := spaceAfter;
    Paragraph.spaceBetweenSameStyle :=
      match attr spacing "w:lineRule" with
      | Some val =>
          if String.eqb val "exact" then true
          else Paragraph.spaceBetweenSameStyle para
      | None => Paragraph.spaceBetweenSameStyle para
      end;
    Paragraph.indentLeft := indentLeft;
    Paragraph.indentRight := indentRight;
    Paragraph.indentFirstLine := indentFirstLine;
    Paragraph.tabs := tabs;
    Paragraph.runs := Paragraph.runs para
  |}.

(** The footnote reference of a run that has one with a [w:id] attribute:
    the reference element and the value of the attribute. *)
Definition footnoteReference (r : XMLNode) : option (XMLNode * string) :=
  match XML.FirstChildElement r "w:footnoteReference" with
  | Some fr =>
      match XML.Attribute fr "w:id" with
      | Some id => Some (fr, id)
      | None => None
      end
  | None => None
  end.

(** The run emitted for a footnote reference. *)
Definition noteRun (fr : XMLNode) (idAttr : string) : Run.t :=
  let id := CLib.atoi idAttr in
  Run.set_text (or_default (XML.GetText fr) "")
    (Run.set_noteId (CLib.to_uint32 id) Run.default).

(** The text of a run: [w:t], trimmed unless [xml:space="preserve"]. *)
Definition runText (r : XMLNode) : string :=
  match XML.FirstChildElement r "w:t" with
  | Some t =>
      let text := or_default (XML.GetText t) "" in
      match XML.Attribute t "xml:space" with
      | Some space => if String.eqb space "preserve" then text else trim_spaces text
      | None => trim_spaces text
      end
  | None => ""
  end.

(** The character properties of the merged run style applied to the run. *)
Definition applyRunStyle (rStyle : Style.t) (run : Run.t) : Run.t := {|
  Run.text := Run.text run;
  Run.lang := Run.lang run;
  Run.style := Run.style run;
  Run.bold := if Style.bold rStyle then true else Run.bold run;
  Run.italic := if Style.italic rStyle then true else Run.italic run;
  Run.underline := if Style.underline rStyle then true else Run.underline run;
  Run.strike := if Style.strikeThrough rStyle then true else Run.strike run;
  Run.subscript := if Style.Subscript rStyle then true else Run.subscript run;
  Run.superscript := if Style.Superscript rStyle then true else Run.superscript run;
  Run.color :=
    if negb (Color.empty (Style.color rStyle)) then Style.color rStyle
    else Run.color run;
  Run.backColor :=
    if negb (Color.empty (Style.backColor rStyle)) then Style.backColor rStyle
    else Run.backColor run;
  Run.fontFamily :=
    if negb (empty (Style.fontFamily rStyle)) then Style.fontFamily rStyle
    else Run.fontFamily run;
  Run.fontSize :=
    if F32.gtb (Style.fontSize rStyle) F32.zero then Style.fontSize rStyle
    else Run.fontSize run;
  Run.noteId := Run.noteId run
|}.

(** The direct properties of [w:rPr], overriding the style's. *)
Definition directRunProps (rPr : XMLNode) (run : Run.t) : exc Run.t :=
  color <~ color_of (XML.ChildAttribute rPr "w:color" "w:val") (Run.color run) ;
  backColor <~ color_of (XML.ChildAttribute rPr "w:shd" "w:fill") (Run.backColor run) ;
  fontSize <~ stof_over 2 (XML.ChildAttribute rPr "w:sz" "w:val") (Run.fontSize run) ;
  Ok {|
    Run.text := Run.text run;
    Run.lang := or_default (XML.ChildAttribute rPr "w:lang" "w:val") (Run.lang run);
    Run.style := Run.style run;
    Run.bold := if XML.hasChild rPr "w:b" then true else Run.bold run;
    Run.italic := if XML.hasChild rPr "w:i" then true else Run.italic run;
    Run.underline := if XML.hasChild rPr "w:u" then true else Run.underline run;
    Run.strike := if XML.hasChild rPr "w:strike" then true else Run.strike run;
    Run.subscript := if XML.hasChild rPr "w:subscript" then true else Run.subscript run;
    Run.superscript :=
      if XML.hasChild rPr "w:superscript" then true else Run.superscript run;
    Run.color := color;
    Run.backColor := backColor;
    Run.fontFamily :=
      or_default (XML.ChildAttribute rPr "w:rFonts" "w:ascii") (Run.fontFamily run);
    Run.fontSize := fontSize;
    Run.noteId := Run.noteId run
  |}.

(** The body of the loop of [readParagraph] for one [w:r] element: the run
    pushed on [para.runs]. *)
Definition readRun (fuel : nat) (r : XMLNode) (styles : StyleMap)
  (pStyleId : string) : M Run.t :=
  match footnoteReference r with
  | Some (fr, idAttr) => ret (noteRun fr idAttr)
  | None =>
      let run := Run.set_text (runText r) Run.default in
      match XML.FirstChildElement r "w:rPr" with
      | Some rPr =>
          let rStyleId := or_default (XML.ChildAttribute rPr "w:rStyle" "w:val") "" in
          let rStyleId := if empty rStyleId then pStyleId else rStyleId in
          rStyle <- mergeStyleCached fuel styles rStyleId ;
          liftE (directRunProps rPr (applyRunStyle rStyle run))
      | None => ret run
      end
  end.

Fixpoint readRuns (fuel : nat) (elems : list XMLNode) (styles : StyleMap)
  (pStyleId : string) : M (list Run.t) :=
  match elems with
  | [] => ret []
  | r :: elems' =>
      run <- readRun fuel r styles pStyleId ;
      runs <- readRuns fuel elems' styles pStyleId ;
      ret (run :: runs)
  end.

(** The style id named by [w:pPr/w:pStyle], empty when there is none. *)
Definition paragraphStyleId (p : XMLNode) : string :=
  match XML.FirstChildElement p "w:pPr" with
  | Some pPr => or_default (XML.ChildAttribute pPr "w:pStyle" "w:val") ""
  | None => ""
  end.

(** The runs of a paragraph as pushed by the loop, before they are merged. *)
Definition emittedRuns (fuel : nat) (p : XMLNode) (styles : StyleMap)
  : M (list Run.t) :=
  let pStyleId := paragraphStyleId p in
  let pStyleId := if empty pStyleId then "Normal" else pStyleId in
  readRuns fuel (XML.ChildElements p "w:r") styles pStyleId.

(** The paragraph after the [w:pPr] block. *)
Definition paragraphProps (fuel : nat) (p : XMLNode) (styles : StyleMap)
  : M Paragraph.t :=
  let para := Paragraph.default in
  let pStyleId := paragraphStyleId p in
  match XML.FirstChildElement p "w:pPr" with
  | Some pPr =>
      paraStyle <- mergeStyleCached fuel styles
                     (if empty pStyleId then "Normal" else pStyleId) ;
      liftE (directParagraphProps pPr (seedParagraph paraStyle pStyleId para))
  | None => ret para
  end.

(** [readParagraph(p, styles)] *)
Definition readParagraph (fuel : nat) (p : XMLNode) (styles : StyleMap)
  : M Paragraph.t :=
  para <- paragraphProps fuel p styles ;
  let pStyleId := paragraphStyleId p in
  let pStyleId := if empty pStyleId then "Normal" else pStyleId in
  paraStyle <- mergeStyleCached fuel styles pStyleId ;
  runs <- readRuns fuel (XML.ChildElements p "w:r") styles pStyleId ;
  ret (Paragraph.set_runs (mergeAdjacentRuns runs) para).

(** ** Notes, main document and the public entry points *)

(** The loop [for (p = e->FirstChildElement("w:p"); p; ...)] that reads each
    paragraph and pushes it. *)
Fixpoint readParagraphs (fuel : nat) (elems : list XMLNode) (styles : StyleMap)
  : M (list Paragraph.t) :=
  match elems with
  | [] => ret []
  | p :: elems' =>
      para <- readParagraph fuel p styles ;
      paras <- readParagraphs fuel elems' styles ;
      ret (para :: paras)
  end.

Definition isSeparator (typeAttr : option string) : bool :=
  match typeAttr with
  | Some t => String.eqb t "separator" || String.eqb t "continuationSeparator"
  | None => false
  end.

Fixpoint parseNotes_loop (fuel : nat) (elems : list XMLNode) (styles : StyleMap)
  (map : gmap Z Note.t) : M (gmap Z Note.t) :=
  match elems with
  | [] => ret map
  | fn :: elems' =>
      match XML.Attribute fn "w:id" with
      | None => parseNotes_loop fuel elems' styles map
      | Some idAttr =>
          let id := CLib.atoi idAttr in
          if isSeparator (XML.Attribute fn "w:type")
          then parseNotes_loop fuel elems' styles map
          else
            paragraphs <- readParagraphs fuel (XML.ChildElements fn "w:p") styles ;
            parseNotes_loop fuel elems' styles
              (<[id := {| Note.id := id; Note.paragraphs := paragraphs |}]> map)
      end
  end.

(** [parseFootnotes] and [parseEndnotes] are the same function up to the
    names of the root element and of its children. *)
Definition parseNotes (rootName noteName : string) (fuel : nat)
  (xml : XMLDocument) (styles : StyleMap) : M (gmap Z Note.t) :=
  match List.find (XML.named rootName) xml with
  | None => ret ∅
  | Some root => parseNotes_loop fuel (XML.ChildElements root noteName) styles ∅
  end.

Definition parseFootnotes : nat -> XMLDocument -> StyleMap -> M (gmap Z Note.t) :=
  parseNotes "w:footnotes" "w:footnote".

Definition parseEndnotes : nat -> XMLDocument -> StyleMap -> M (gmap Z Note.t) :=
  parseNotes "w:endnotes" "w:endnote".

(** [parseMainDocument(xml, styles)] *)
Definition parseMainDocument (fuel : nat) (xml : XMLDocument) (styles : StyleMap)
  : M (list Paragraph.t) :=
  match List.find (XML.named "w:document") xml with
  | None => ret []
  | Some root =>
      match XML.FirstChildElement root "w:body" with
      | None => ret []
      | Some body => readParagraphs fuel (XML.ChildElements body "w:p") styles
      end
  end.

(** What the archive reader hands to the entry points: the tree of each
    entry it found, by name, and no entry at all when the archive could not
    be opened. *)
Abbreviation FileData := (gmap string XMLDocument).

(** [fileData[name]] *)
Definition entry (fileData : FileData) (name : string) : XMLDocument :=
  or_default (fileData !! name) [].

(** The four parsing steps shared by the two entry points. *)
Definition parseAll (fuel : nat) (fileData : FileData) : M Document.t :=
  styles <- liftE (parseStyles (entry fileData "word/styles.xml")) ;
  footnotes <- parseFootnotes fuel (entry fileData "word/footnotes.xml") styles ;
  endnotes <- parseEndnotes fuel (entry fileData "word/endnotes.xml") styles ;
  paragraphs <- parseMainDocument fuel (entry fileData "word/document.xml") styles ;
  ret {| Document.paragraphs := paragraphs;
         Document.styles := styles;
         Document.footnotes := footnotes;
         Document.endnotes := endnotes |}.

(** [readDocument(path)], given what [readMultipleFilesFromZIP] returns. *)
Definition readDocument (fuel : nat) (fileData : FileData) : M Document.t :=
  _ <- cache_clear ;
  match size fileData with
  | O => ret Document.default
  | S _ => parseAll fuel fileData
  end.

(** [readDocumentFromMemory(data, size)], given what
    [readMultipleFilesFromZIPMemory] returns. *)
Definition readDocumentFromMemory (fuel : nat) (fileData : FileData)
  : M Document.t :=
  _ <- cache_clear ;
  parseAll fuel fileData.

(** ** The archive reader *)

Module Zip.

(** What miniz gives for an opened archive: for each index below
    [mz_zip_reader_get_num_files] what [mz_zip_reader_file_stat] fills in,
    [None] when it fails, and what [mz_zip_reader_extract_file_to_mem]
    writes in a buffer of the given size for the given file name, [None]
    when it fails. *)
Record file_stat : Type := mk_stat {
  m_filename : string;
  m_uncomp_size : N
}.

Record archive : Type := mk {
  stats : list (option file_stat);
  extract_file_to_mem : string -> N -> option string
}.

End Zip.

(** One iteration of the outer loop of [readMultipleFilesFromZIP]: the
    inner loop stops at the first requested name equal to the name of the
    entry and stores the extracted data, cleared when the extraction
    fails. *)
Definition readEntry (zip : Zip.archive) (files : list string)
  (out : gmap string string) (st : option Zip.file_stat) : gmap string string :=
  match st with
  | None => out
  | Some st =>
      match List.find (String.eqb (Zip.m_filename st)) files with
      | Some name =>
          let data :=
            match Zip.extract_file_to_mem zip (Zip.m_filename st)
                    (Zip.m_uncomp_size st) with
            | Some data => data
            | None => ""
            end in
          <[name := data]> out
      | None => out
      end
  end.

(** [readMultipleFilesFromZIP(path, files)] and
    [readMultipleFilesFromZIPMemory(data, size, files)], which differ in the
    call that opens the archive only: [opened] is the archive when that call
    succeeds. *)
Definition readMultipleFilesFromZIP (opened : option Zip.archive)
  (files : list string) : gmap string string :=
  match opened with
  | None => ∅
  | Some zip => fold_left (readEntry zip files) (Zip.stats zip) ∅
  end.

(** ** The HTML writer of the command-line tool *)

Module Html.

(** The double quote. *)
Definition quote : ascii := "034"%char.

(** The [switch] of [escapeHtmlSpecialChars]: what is appended to the
    output for one character of the input. *)
Definition escapeChar (c : ascii) : string :=
  if (c =? "&")%char then "&amp;"
  else if (c =? "<")%char then "&lt;"
  else if (c =? ">")%char then "&gt;"
  else if (c =? quote)%char then "&quot;"
  else if (c =? "'")%char then "&#39;"
  else String c "".

(** The loop [for (char c : input)] on the rest of the input, with the
    output built so far. *)
Fixpoint escape_loop (input output : string) : string :=
  match input with
  | EmptyString => output
  | String c rest => escape_loop rest (String.append output (escapeChar c))
  end.

(** [escapeHtmlSpecialChars(input)] *)
Definition escapeHtmlSpecialChars (input : string) : string :=
  escape_loop input "".

End Html.

(** ** The older reader

    The older implementation of the library and its header: [Style],
    [Color], [Tab], [mergeStyleCached], [parseStyles] and the archive
    reader are the same as in the current one; a [Run] has no [noteId], the
    footnotes are plain text, and the paragraphs are read by
    [parseDocumentWithFootnotes]. *)

Module Legacy.

Module Run.

Record t : Type := mk {
  text : string;
  lang : string;
  style : string;
  bold : bool;
  italic : bool;
  underline : bool;
  strike : bool;
  Subscript : bool;
  Superscript : bool;
  color : Color.t;
  backColor : Color.t;
  fontFamily : string;
  fontSize : F32.float
}.

Definition default : t := {|
  text := "";
  lang := "";
  style := "";
  bold := false;
  italic := false;
  underline := false;
  strike := false;
  Subscript := false;
  Superscript := false;
  color := Color.default;
  backColor := Color.default;
  fontFamily := "";
  fontSize := F32.zero
|}.

(** [run.text = s] and [run.text += s]. *)
Definition set_text (s : string) (x : t) : t :=
  mk s (lang x) (style x) (bold x) (italic x) (underline x) (strike x)
     (Subscript x) (Superscript x) (color x) (backColor x) (fontFamily x)
     (fontSize x).

Definition append_text (s : string) (x : t) : t :=
  set_text (String.append (text x) s) x.

End Run.

Module Paragraph.

Record t : Type := mk {
  style : string;
  level : Z;
  numbered : bool;
  numberFormat : string;
  numberStyle : string;
  justification : Justification.t;
  rightDirection : bool;
  lineSpacing : F32.float;
  spaceBefore : F32.float;
  spaceAfter : F32.float;
  spaceBetweenSameStyle : bool;
  indentLeft : F32.float;
  indentRight : F32.float;
  indentFirstLine : F32.float;
  tabs : list Tab.t;
  runs : list Run.t
}.

Definition default : t := {|
  style := "";
  level := 0;
  numbered := false;
  numberFormat := "";
  numberStyle := "";
  justification := Justification.Left;
  rightDirection := false;
  lineSpacing := F32.one;
  spaceBefore := F32.zero;
  spaceAfter := F32.zero;
  spaceBetweenSameStyle := false;
  indentLeft := F32.zero;
  indentRight := F32.zero;
  indentFirstLine := F32.zero;
  tabs := [];
  runs := []
|}.

End Paragraph.

(** [std::to_string(int)] *)
Definition to_string (z : Z) : string :=
  DecimalString.NilZero.string_of_int (Z.to_int z).

(** [collectTextRecursive(e, out)]: the new value of [out]. *)
Fixpoint collectTextRecursive (e : XMLNode) (out : string) : string :=
  match e with
  | XMLElement name _ children =>
      let out :=
        if String.eqb name "w:t" then
          match XML.GetText e with
          | Some text => String.append out text
          | None => out
          end
        else out in
      fold_left (fun out c => collectTextRecursive c out) children out
  | _ => out
  end.

Fixpoint parseFootnotes_loop (elems : list XMLNode) (map : gmap Z string)
  : gmap Z string :=
  match elems with
  | [] => map
  | fn :: elems' =>
      match XML.Attribute fn "w:id" with
      | None => parseFootnotes_loop elems' map
      | Some idAttr =>
          let id := CLib.atoi idAttr in
          if isSeparator (XML.Attribute fn "w:type")
          then parseFootnotes_loop elems' map
          else parseFootnotes_loop elems' (<[id := collectTextRecursive fn ""]> map)
      end
  end.

(** [parseFootnotes(xml)]: the text of each footnote. *)
Definition parseFootnotes (xml : XMLDocument) : gmap Z string :=
  match List.find (XML.named "w:footnotes") xml with
  | None => ∅
  | Some root => parseFootnotes_loop (XML.ChildElements root "w:footnote") ∅
  end.

(** [sameRunStyle(a, b)] *)
Definition sameRunStyle (a b : Run.t) : bool :=
  String.eqb (Run.style a) (Run.style b) &&
  String.eqb (Run.lang a) (Run.lang b) &&
  Bool.eqb (Run.bold a) (Run.bold b) &&
  Bool.eqb (Run.italic a) (Run.italic b) &&
  Bool.eqb (Run.underline a) (Run.underline b) &&
  Bool.eqb (Run.strike a) (Run.strike b) &&
  Color.eqb (Run.color a) (Run.color b) &&
  Color.eqb (Run.backColor a) (Run.backColor b) &&
  String.eqb (Run.fontFamily a) (Run.fontFamily b) &&
  F32.eqb (Run.fontSize a) (Run.fontSize b) &&
  Bool.eqb (Run.Subscript a) (Run.Subscript b) &&
  Bool.eqb (Run.Superscript a) (Run.Superscript b).

(** The [w:spacing] block of [w:pPr]. *)
Definition directSpacing (pPr : XMLNode) (para : Paragraph.t) : exc Paragraph.t :=
  match XML.FirstChildElement pPr "w:spacing" with
  | None => Ok para
  | Some spacing =>
      lineSpacing <~
        stof_over 240 (XML.Attribute spacing "w:line") (Paragraph.lineSpacing para) ;
      spaceBefore <~
        stof_over 20 (XML.Attribute spacing "w:before") (Paragraph.spaceBefore para) ;
      spaceAfter <~
        stof_over 20 (XML.Attribute spacing "w:after") (Paragraph.spaceAfter para) ;
      Ok {|
        Paragraph.style := Paragraph.style para;
        Paragraph.level := Paragraph.level para;
        Paragraph.numbered := Paragraph.numbered para;
        Paragraph.numberFormat := Paragraph.numberFormat para;
        Paragraph.numberStyle := Paragraph.numberStyle para;
        Paragraph.justification := Paragraph.justification para;
        Paragraph.rightDirection := Paragraph.rightDirection para;
        Paragraph.lineSpacing := lineSpacing;
        Paragraph.spaceBefore := spaceBefore;
        Paragraph.spaceAfter := spaceAfter;
        Paragraph.spaceBetweenSameStyle := Paragraph.spaceBetweenSameStyle para;
        Paragraph.indentLeft := Paragraph.indentLeft para;
        Paragraph.indentRight := Paragraph.indentRight para;
        Paragraph.indentFirstLine := Paragraph.indentFirstLine para;
        Paragraph.tabs := Paragraph.tabs para;
        Paragraph.runs := Paragraph.runs para
      |}
  end.

(** The fields of the paragraph set from the merged paragraph style. *)
Definition applyParagraphStyle (paraStyle : Style.t) (pStyleId : string)
  (para : Paragraph.t) : Paragraph.t := {|
  Paragraph.style := pStyleId;
  Paragraph.level := Paragraph.level para;
  Paragraph.numbered := Paragraph.numbered para;
  Paragraph.numberFormat := Paragraph.numberFormat para;
  Paragraph.numberStyle := Paragraph.numberStyle para;
  Paragraph.justification := Paragraph.justification para;
  Paragraph.rightDirection := Paragraph.rightDirection para;
  Paragraph.lineSpacing :=
    if F32.gtb (Style.lineSpacing paraStyle) F32.zero
    then Style.lineSpacing paraStyle else Paragraph.lineSpacing para;
  Paragraph.spaceBefore := Style.spaceBefore paraStyle;
  Paragraph.spaceAfter := Style.spaceAfter paraStyle;
  Paragraph.spaceBetweenSameStyle := Paragraph.spaceBetweenSameStyle para;
  Paragraph.indentLeft := Paragraph.indentLeft para;
  Paragraph.indentRight := Paragraph.indentRight para;
  Paragraph.indentFirstLine := Paragraph.indentFirstLine para;
  Paragraph.tabs := Paragraph.tabs para;
  Paragraph.runs := Paragraph.runs para
|}.

(** The run emitted for a footnote reference: [[Footnote id]], followed by
    the text of the footnote when there is one. *)
Definition noteRun (footnotes : gmap Z string) (idAttr : string) : Run.t :=
  let id := CLib.atoi idAttr in
  let text := String.append "[Footnote " (String.append (to_string id) "]") in
  let text :=
    match footnotes !! id with
    | Some note =>
        if negb (empty note) then String.append (String.append text ": ") note
        else text
    | None => text
    end in
  Run.set_text text Run.default.

(** The [w:rPr] block of a run. *)
Definition directRunProps (rPr : XMLNode) (run : Run.t) : exc Run.t :=
  color <~ color_of (XML.ChildAttribute rPr "w:color" "w:val") (Run.color run) ;
  backColor <~ color_of (XML.ChildAttribute rPr "w:shd" "w:fill") (Run.backColor run) ;
  fontSize <~ stof_over 2 (XML.ChildAttribute rPr "w:sz" "w:val") (Run.fontSize run) ;
  Ok {|
    Run.text := Run.text run;
    Run.lang := or_default (XML.ChildAttribute rPr "w:lang" "w:val") (Run.lang run);
    Run.style := Run.style run;
    Run.bold := if XML.hasChild rPr "w:b" then true else Run.bold run;
    Run.italic := if XML.hasChild rPr "w:i" then true else Run.italic run;
    Run.underline := if XML.hasChild rPr "w:u" then true else Run.underline run;
    Run.strike := Run.strike run;
    Run.Subscript := Run.Subscript run;
    Run.Superscript := Run.Superscript run;
    Run.color := color;
    Run.backColor := backColor;
    Run.fontFamily :=
      or_default (XML.ChildAttribute rPr "w:rFonts" "w:ascii") (Run.fontFamily run);
    Run.fontSize := fontSize
  |}.

(** The character properties of the merged run style, applied after the
    direct ones, and [run.style = rStyleId]. *)
Definition applyRunStyle (rStyle : Style.t) (rStyleId : string) (run : Run.t)
  : Run.t := {|
  Run.text := Run.text run;
  Run.lang := Run.lang run;
  Run.style := rStyleId;
  Run.bold := if Style.bold rStyle then true else Run.bold run;
  Run.italic := if Style.italic rStyle then true else Run.italic run;
  Run.underline := if Style.underline rStyle then true else Run.underline run;
  Run.strike := Run.strike run;
  Run.Subscript := Run.Subscript run;
  Run.Superscript := Run.Superscript run;
  Run.color :=
    if negb (Color.empty (Style.color rStyle)) then Style.color rStyle
    else Run.color run;
  Run.backColor :=
    if negb (Color.empty (Style.backColor rStyle)) then Style.backColor rStyle
    else Run.backColor run;
  Run.fontFamily :=
    if negb (empty (Style.fontFamily rStyle)) then Style.fontFamily rStyle
    else Run.fontFamily run;
  Run.fontSize :=
    if F32.gtb (Style.fontSize rStyle) F32.zero then Style.fontSize rStyle
    else Run.fontSize run
|}.

(** The text of a run: the one of [w:t], else all the text below the run. *)
Definition runText (r : XMLNode) : string :=
  match XML.FirstChildElement r "w:t" with
  | Some t => or_default (XML.GetText t) ""
  | None => collectTextRecursive r ""
  end.

(** The style id named by [w:rPr/w:rStyle], empty when there is none. *)
Definition runStyleId (r : XMLNode) : string :=
  match XML.FirstChildElement r "w:rPr" with
  | Some rPr => or_default (XML.ChildAttribute rPr "w:rStyle" "w:val") ""
  | None => ""
  end.

(** The run built for a [w:r] element that is not a footnote reference. *)
Definition readRun (fuel : nat) (r : XMLNode) (styles : StyleMap) : M Run.t :=
  run <- liftE (match XML.FirstChildElement r "w:rPr" with
                | Some rPr => directRunProps rPr Run.default
                | None => Ok Run.default
                end) ;
  rStyle <- mergeStyleCached fuel styles (runStyleId r) ;
  ret (Run.set_text (runText r) (applyRunStyle rStyle (runStyleId r) run)).

(** [para.runs.back().text += run.text] when the last run has the same
    style, else [para.runs.emplace_back(run)]. *)
Definition push (runs : list Run.t) (run : Run.t) : list Run.t :=
  match rev runs with
  | back :: front =>
      if sameRunStyle back run
      then rev front ++ [Run.append_text (Run.text run) back]
      else runs ++ [run]
  | [] => runs ++ [run]
  end.

(** The loop over the [w:r] children, with the runs pushed so far. *)
Fixpoint readRuns (fuel : nat) (elems : list XMLNode) (styles : StyleMap)
  (footnotes : gmap Z string) (runs : list Run.t) : M (list Run.t) :=
  match elems with
  | [] => ret runs
  | r :: elems' =>
      match footnoteReference r with
      | Some (_, idAttr) =>
          readRuns fuel elems' styles footnotes (runs ++ [noteRun footnotes idAttr])
      | None =>
          run <- readRun fuel r styles ;
          readRuns fuel elems' styles footnotes (push runs run)
      end
  end.

(** The body of the loop of [parseDocumentWithFootnotes] for one [w:p]. *)
Definition readParagraph (fuel : nat) (p : XMLNode) (styles : StyleMap)
  (footnotes : gmap Z string) : M Paragraph.t :=
  let pStyleId := paragraphStyleId p in
  para <- liftE (match XML.FirstChildElement p "w:pPr" with
                 | Some pPr => directSpacing pPr Paragraph.default
                 | None => Ok Paragraph.default
                 end) ;
  paraStyle <- mergeStyleCached fuel styles pStyleId ;
  let para := applyParagraphStyle paraStyle pStyleId para in
  runs <- readRuns fuel (XML.ChildElements p "w:r") styles footnotes [] ;
  ret {|
    Paragraph.style := Paragraph.style para;
    Paragraph.level := Paragraph.level para;
    Paragraph.numbered := Paragraph.numbered para;
    Paragraph.numberFormat := Paragraph.numberFormat para;
    Paragraph.numberStyle := Paragraph.numberStyle para;
    Paragraph.justification := Paragraph.justification para;
    Paragraph.rightDirection := Paragraph.rightDirection para;
    Paragraph.lineSpacing := Paragraph.lineSpacing para;
    Paragraph.spaceBefore := Paragraph.spaceBefore para;
    Paragraph.spaceAfter := Paragraph.spaceAfter para;
    Paragraph.spaceBetweenSameStyle := Paragraph.spaceBetweenSameStyle para;
    Paragraph.indentLeft := Paragraph.indentLeft para;
    Paragraph.indentRight := Paragraph.indentRight para;
    Paragraph.indentFirstLine := Paragraph.indentFirstLine para;
    Paragraph.tabs := Paragraph.tabs para;
    Paragraph.runs := runs
  |}.

Fixpoint readParagraphs (fuel : nat) (elems : list XMLNode) (styles : StyleMap)
  (footnotes : gmap Z string) : M (list Paragraph.t) :=
  match elems with
  | [] => ret []
  | p :: elems' =>
      para <- readParagraph fuel p styles footnotes ;
      paras <- readParagraphs fuel elems' styles footnotes ;
      ret (para :: paras)
  end.

(** [parseDocumentWithFootnotes(xml, styles, footnotes)] *)
Definition parseDocumentWithFootnotes (fuel : nat) (xml : XMLDocument)
  (styles : StyleMap) (footnotes : gmap Z string) : M (list Paragraph.t) :=
  match List.find (XML.named "w:document") xml with
  | None => ret []
  | Some root =>
      match XML.FirstChildElement root "w:body" with
      | None => ret []
      | Some body =>
          readParagraphs fuel (XML.ChildElements body "w:p") styles footnotes
      end
  end.

(** The three parsing steps shared by the two entry points. *)
Definition parseAll (fuel : nat) (fileData : FileData) : M (list Paragraph.t) :=
  styles <- liftE (parseStyles (entry fileData "word/styles.xml")) ;
  let footnotes := parseFootnotes (entry fileData "word/footnotes.xml") in
  parseDocumentWithFootnotes fuel (entry fileData "word/document.xml")
    styles footnotes.

(** [readDocument(path)], given what [readMultipleFilesFromZIP] returns. *)
Definition readDocument (fuel : nat) (fileData : FileData)
  : M (list Paragraph.t) :=
  _ <- cache_clear ;
  parseAll fuel fileData.

(** [readDocumentFromMemory(data, size)]: [tempFile] tells whether the
    temporary file could be opened for writing, and [fileData] is what
    [readMultipleFilesFromZIP] returns for that file. *)
Definition readDocumentFromMemory (tempFile : bool) (fuel : nat)
  (fileData : FileData) : M (list Paragraph.t) :=
  _ <- cache_clear ;
  if tempFile then parseAll fuel fileData else ret [].

End Legacy.

(** * Vocabulary of the statements *)

(** ** The style resolver *)

(** The [basedOn] chain that starts at [id] ends: at the empty id, at an id
    already in the cache, at an id the map does not define, or after one
    more link. *)
Inductive ChainEnds (styles cache : StyleMap) : string -> Prop :=
| chain_empty : ChainEnds styles cache ""
| chain_cached id merged :
    cache !! id = Some merged -> ChainEnds styles cache id
| chain_unknown id :
    styles !! id = None -> ChainEnds styles cache id
| chain_link id cur :
    styles !! id = Some cur ->
    ChainEnds styles cache (Style.basedOn cur) ->
    ChainEnds styles cache id.

(** The [basedOn] chain that starts at [id] ends within [n] styles: the
    depth of the recursion of [mergeStyleCached] on an empty cache. *)
Fixpoint endsWithin (n : nat) (styles : StyleMap) (id : string) : bool :=
  match n with
  | O => false
  | S n' =>
      empty id ||
      match styles !! id with
      | None => true
      | Some cur =>
          empty (Style.basedOn cur) || endsWithin n' styles (Style.basedOn cur)
      end
  end.

(** The merge of a style with the styles it is based on, without a cache. *)
Fixpoint resolve (fuel : nat) (styles : StyleMap) (styleId : string)
  : option Style.t :=
  match fuel with
  | O => None
  | S fuel' =>
      if empty styleId then Some Style.default
      else
        match styles !! styleId with
        | None => Some Style.default
        | Some cur =>
            match (if negb (empty (Style.basedOn cur))
                   then resolve fuel' styles (Style.basedOn cur)
                   else Some Style.default) with
            | Some base => Some (overlay cur base)
            | None => None
            end
        end
  end.

(** Every style in the cache is the merge of its id. *)
Definition Consistent (styles cache : StyleMap) : Prop :=
  forall id merged, cache !! id = Some merged ->
    exists fuel, resolve fuel styles id = Some merged.

(** The style that [id], defined as [cur] and not in the cache, inherits:
    the default style when [cur] names no base, else what the recursive
    call returns for the base. *)
Definition Inherits (fuel : nat) (styles cache : StyleMap) (cur base : Style.t)
  : Prop :=
  (Style.basedOn cur = "" /\ base = Style.default) \/
  (Style.basedOn cur <> "" /\
   exists cache1,
     mergeStyleCached fuel styles (Style.basedOn cur) cache = Done base cache1).

(** [x] when it is strictly positive, else the inherited value. *)
Definition positiveOr (x inherited : F32.float) : F32.float :=
  if F32.gtb x F32.zero then x else inherited.

(** ** The run coalescer *)

(** The in-order concatenation of the texts of a list of runs. *)
Fixpoint textOf (runs : list Run.t) : string :=
  match runs with
  | [] => ""
  | run :: runs' => String.append (Run.text run) (textOf runs')
  end.

(** No two adjacent runs have the same style. *)
Fixpoint adjacentDistinct (runs : list Run.t) : bool :=
  match runs with
  | a :: (b :: _) as rest => negb (sameRunStyle a b) && adjacentDistinct rest
  | _ => true
  end.

(** The loop of [mergeAdjacentRuns] read from the left: [cur] is
    [merged.back()] and [rest] are the runs still to come. *)
Fixpoint coalesce (cur : Run.t) (rest : list Run.t) : list Run.t :=
  match rest with
  | [] => [cur]
  | run :: rest' =>
      if sameRunStyle cur run
      then coalesce (Run.append_text (Run.text run) cur) rest'
      else cur :: coalesce run rest'
  end.

(** ** Runs, paragraphs and documents *)

(** The [noteId] that the loop of [readParagraph] gives to the run of a
    [w:r] element. *)
Definition noteIdOf (r : XMLNode) : Z :=
  match footnoteReference r with
  | Some (_, idAttr) => CLib.to_uint32 (CLib.atoi idAttr)
  | None => 0
  end.

(** The [noteId] of the run pushed for the [w:r] element [r]. *)
Definition NoteIdRule (r : XMLNode) (run : Run.t) : Prop :=
  match footnoteReference r with
  | Some (_, idAttr) =>
      Run.noteId run = CLib.to_uint32 (CLib.atoi idAttr) /\
      (0 < Run.noteId run <-> CLib.atoi idAttr <> 0)
  | None => Run.noteId run = 0
  end.

(** No run of the paragraph carries a style id. *)
Definition RunStylesEmpty (para : Paragraph.t) : Prop :=
  Forall (fun run => Run.style run = "") (Paragraph.runs para).

(** The [style] component of [sameRunStyle] compares equal on any two runs
    of the paragraph. *)
Definition RunStylesAgree (para : Paragraph.t) : Prop :=
  forall a b, In a (Paragraph.runs para) -> In b (Paragraph.runs para) ->
    String.eqb (Run.style a) (Run.style b) = true.

(** Every paragraph of a document, in the body and in the notes. *)
Definition DocForall (P : Paragraph.t -> Prop) (doc : Document.t) : Prop :=
  Forall P (Document.paragraphs doc) /\
  map_Forall (fun _ note => Forall P (Note.paragraphs note)) (Document.footnotes doc) /\
  map_Forall (fun _ note => Forall P (Note.paragraphs note)) (Document.endnotes doc).

(** ** Inputs on which no conversion throws *)

(** [std::stof] accepts the attribute, when it is present. *)
Definition stofAccepts (o : option string) : bool :=
  match o with
  | Some v => match F32.stof v with Ok _ => true | Throw _ => false end
  | None => true
  end.

(** [Color(hex)] accepts the attribute, when it is present. *)
Definition colorAccepts (o : option string) : bool :=
  match o with
  | Some v => match Color.of_hex v with Ok _ => true | Throw _ => false end
  | None => true
  end.

(** The attributes of one element that the reader converts are accepted:
    the size of [w:sz], the measures of [w:spacing] and [w:ind], the
    position of [w:tab], the colours of [w:color] and [w:shd]. *)
Definition nodeAccepted (x : XMLNode) : bool :=
  match x with
  | XMLElement name _ _ =>
      if String.eqb name "w:sz" then stofAccepts (XML.Attribute x "w:val")
      else if String.eqb name "w:spacing" then
        stofAccepts (XML.Attribute x "w:line") &&
        stofAccepts (XML.Attribute x "w:before") &&
        stofAccepts (XML.Attribute x "w:after")
      else if String.eqb name "w:ind" then
        stofAccepts (XML.Attribute x "w:left") &&
        stofAccepts (XML.Attribute x "w:right") &&
        stofAccepts (XML.Attribute x "w:firstLine")
      else if String.eqb name "w:tab" then stofAccepts (XML.Attribute x "w:pos")
      else if String.eqb name "w:color" then colorAccepts (XML.Attribute x "w:val")
      else if String.eqb name "w:shd" then colorAccepts (XML.Attribute x "w:fill")
      else true
  | _ => true
  end.

(** ... for the element and all its descendants. *)
Fixpoint treeAccepted (x : XMLNode) : bool :=
  match x with
  | XMLElement _ _ children => nodeAccepted x && forallb treeAccepted children
  | _ => true
  end.

(** ... for every entry of the archive. *)
Definition accepted (fileData : FileData) : bool :=
  forallb (fun entry => forallb treeAccepted (snd entry)) (map_to_list fileData).

(** [word/styles.xml] is parsed and no [basedOn] chain of the styles it
    defines is longer than [n]: in particular there is no cycle. *)
Definition chainsWithin (n : nat) (fileData : FileData) : bool :=
  match parseStyles (entry fileData "word/styles.xml") with
  | Ok styles =>
      forallb (fun style => endsWithin n styles (fst style)) (map_to_list styles)
  | Throw _ => false
  end.

(** ** Concrete inputs *)

Module Sample.

(** Elements without attributes, and a text element. *)
Definition el (name : string) (children : list XMLNode) : XMLNode :=
  XMLElement name [] children.

Definition val (name value : string) : XMLNode :=
  XMLElement name [("w:val", value)] [].

Definition textRun (text : string) : XMLNode :=
  el "w:r" [el "w:t" [XMLText text]].

(** [<w:r><w:footnoteReference w:id="id"/></w:r>] *)
Definition footnoteRun (id : string) : XMLNode :=
  el "w:r" [XMLElement "w:footnoteReference" [("w:id", id)] []].

(** [<w:r><w:endnoteReference w:id="id"/></w:r>] *)
Definition endnoteRun (id : string) : XMLNode :=
  el "w:r" [XMLElement "w:endnoteReference" [("w:id", id)] []].

(** A [word/document.xml] with the given paragraphs. *)
Definition body (paragraphs : list XMLNode) : XMLDocument :=
  [el "w:document" [el "w:body" paragraphs]].

(** An archive with the given [word/styles.xml] and [word/document.xml]. *)
Definition archive (styles document : XMLDocument) : FileData :=
  <["word/styles.xml" := styles]> (<["word/document.xml" := document]> ∅).

(** A style with the given [basedOn], [bold] and [italic], and defaults. *)
Definition style (base : string) (bold italic : bool) : Style.t :=
  Style.mk None base bold italic false false false false
    Color.default Color.default "" F32.zero 0 false "" ""
    F32.one F32.zero F32.zero false Justification.Left false
    F32.zero F32.zero F32.zero [].

End Sample.

Module Cycle.

(** Two styles based on each other (end-to-end scenario 6 of the
    specification): [A] is italic and based on [B], [B] is bold and based
    on [A]. *)
Definition styles : StyleMap :=
  <["A" := Sample.style "B" false true]>
    (<["B" := Sample.style "A" true false]> ∅).

End Cycle.

Module Chain.

(** [A] is italic and based on [B], which is bold and based on nothing. *)
Definition styles : StyleMap :=
  <["A" := Sample.style "B" false true]>
    (<["B" := Sample.style "" true false]> ∅).

End Chain.

Module Runs.

(** The run pushed for [<w:footnoteReference w:id="1"/>] and a run of text
    without properties. *)
Definition reference : Run.t :=
  noteRun (XMLElement "w:footnoteReference" [("w:id", "1")] []) "1".

Definition text : Run.t := Run.set_text "x" Run.default.

(** [<w:r><w:rPr><w:b/></w:rPr><w:endnoteReference w:id="2"/></w:r>] *)
Definition boldEndnote : XMLNode :=
  Sample.el "w:r"
    [Sample.el "w:rPr" [Sample.el "w:b" []];
     XMLElement "w:endnoteReference" [("w:id", "2")] []].

End Runs.

Module Inputs.

Import Sample.

(** One paragraph with one run of text and no properties. *)
Definition plain : FileData :=
  archive [] (body [el "w:p" [textRun "hi"]]).

(** A footnote reference followed by a run of text, neither with [w:rPr]. *)
Definition referenceThenText : FileData :=
  archive [] (body [el "w:p" [footnoteRun "1"; textRun "x"]]).

(** The paragraph
    [<w:p><w:r><w:footnoteReference w:id="7"/></w:r>
          <w:r><w:rPr><w:b/></w:rPr><w:t>x</w:t></w:r></w:p>]. *)
Definition referenceThenBold : XMLNode :=
  el "w:p" [footnoteRun "7";
            el "w:r" [el "w:rPr" [el "w:b" []]; el "w:t" [XMLText "x"]]].

(** A footnote reference whose id is 0. *)
Definition referenceZero : FileData :=
  archive [] (body [el "w:p" [footnoteRun "0"]]).

(** Style [B] sets the line spacing to 1.5; style [A] is based on [B] and
    has no [w:spacing] element. *)
Definition spacingStyles : XMLDocument :=
  [el "w:styles"
     [XMLElement "w:style" [("w:type", "paragraph"); ("w:styleId", "B")]
        [el "w:pPr" [XMLElement "w:spacing" [("w:line", "360")] []]];
      XMLElement "w:style" [("w:type", "paragraph"); ("w:styleId", "A")]
        [val "w:basedOn" "B"]]].

(** The style [Normal] is centered and bold. *)
Definition normalStyles : XMLDocument :=
  [el "w:styles"
     [XMLElement "w:style" [("w:type", "paragraph"); ("w:styleId", "Normal")]
        [el "w:pPr" [val "w:jc" "center"];
         el "w:rPr" [el "w:b" []]]]].

(** A paragraph without [w:pPr] whose run has no [w:rPr], and the same
    with an empty [w:pPr] and an empty [w:rPr]. *)
Definition bare : FileData :=
  archive normalStyles (body [el "w:p" [textRun "x"]]).

Definition withEmptyProps : FileData :=
  archive normalStyles
    (body [el "w:p" [el "w:pPr" [];
                     el "w:r" [el "w:rPr" []; el "w:t" [XMLText "x"]]]]).

(** A style whose font size is not a number. *)
Definition malformedSize : FileData :=
  archive
    [el "w:styles"
       [XMLElement "w:style" [("w:styleId", "S")]
          [el "w:rPr" [val "w:sz" "abc"]]]]
    (body []).

(** A run whose colour is not hexadecimal. *)
Definition malformedColor : FileData :=
  archive []
    (body [el "w:p" [el "w:r" [el "w:rPr" [val "w:color" "ZZZZZZ"]]]]).

End Inputs.

Module Scenario.

Import Sample.

(** Scenario 2: a run that names the bold character style [BoldChar]. *)
Definition inheritedBold : FileData :=
  archive
    [el "w:styles"
       [XMLElement "w:style" [("w:type", "character"); ("w:styleId", "BoldChar")]
          [el "w:rPr" [el "w:b" []]]]]
    (body [el "w:p" [el "w:r" [el "w:rPr" [val "w:rStyle" "BoldChar"];
                               el "w:t" [XMLText "hi"]]]]).

(** Scenario 3: two adjacent bold runs. *)
Definition twoBoldRuns : FileData :=
  archive []
    (body [el "w:p" [el "w:r" [el "w:rPr" [el "w:b" []]; el "w:t" [XMLText "foo"]];
                     el "w:r" [el "w:rPr" [el "w:b" []]; el "w:t" [XMLText "bar"]]]]).

(** Scenario 4: a centered right-to-left paragraph. *)
Definition centeredBidi : FileData :=
  archive []
    (body [el "w:p" [el "w:pPr" [val "w:jc" "center"; el "w:bidi" []]]]).

(** Scenario 5: two separators and one footnote, referenced from the body. *)
Definition footnotes : FileData :=
  <["word/footnotes.xml" :=
      [el "w:footnotes"
         [XMLElement "w:footnote" [("w:id", "-1"); ("w:type", "separator")] [];
          XMLElement "w:footnote"
            [("w:id", "0"); ("w:type", "continuationSeparator")] [];
          XMLElement "w:footnote" [("w:id", "1")] [el "w:p" [textRun "note"]]]]]>
    (archive [] (body [el "w:p" [footnoteRun "1"]])).

End Scenario.

(** ** The chain of a style *)

(** The styles of the [basedOn] chain that starts at [id], the style of
    [id] first: the styles that [mergeStyleCached] visits on an empty
    cache, within a recursion depth of [fuel]. *)
Fixpoint chain (fuel : nat) (styles : StyleMap) (id : string)
  : option (list Style.t) :=
  match fuel with
  | O => None
  | S fuel' =>
      if empty id then Some []
      else
        match styles !! id with
        | None => Some []
        | Some cur =>
            if negb (empty (Style.basedOn cur))
            then match chain fuel' styles (Style.basedOn cur) with
                 | Some rest => Some (cur :: rest)
                 | None => None
                 end
            else Some [cur]
        end
  end.

(** The boolean fields of a style. *)
Definition flags : list (Style.t -> bool) :=
  [Style.bold; Style.italic; Style.underline; Style.strikeThrough;
   Style.Subscript; Style.Superscript; Style.numbered;
   Style.spaceBetweenSameStyle; Style.rightDirection].

(** The value of [field] in the first style of the list that sets it, and
    the default value when none does. *)
Definition nearest {A : Type} (isSet : Style.t -> bool) (field : Style.t -> A)
  (l : list Style.t) : A :=
  match List.find isSet l with
  | Some s => field s
  | None => field Style.default
  end.

(** [x > 0] *)
Definition positive (x : F32.float) : bool := F32.gtb x F32.zero.

(** ** Computations that do not depend on the cache *)

(** A deeper recursion budget does not change what a computation returns. *)
Definition Mono {A : Type} (m : nat -> M A) : Prop :=
  forall n n' cache a cache',
    m n cache = Done a cache' -> (n <= n')%nat -> m n' cache = Done a cache'.

(** On caches that hold merged styles only, the computation leaves such a
    cache, and what it returns on one of them it returns on every other. *)
Definition Stable {A : Type} (styles : StyleMap) (m : nat -> M A) : Prop :=
  Mono m /\
  forall n cache a cache',
    Consistent styles cache -> m n cache = Done a cache' ->
    Consistent styles cache' /\
    forall other, Consistent styles other ->
      exists n' other', m n' other = Done a other'.

(** The [w:p] children of [w:body] in the main document. *)
Definition bodyParagraphs (xml : XMLDocument) : list XMLNode :=
  match List.find (XML.named "w:document") xml with
  | None => []
  | Some root =>
      match XML.FirstChildElement root "w:body" with
      | None => []
      | Some body => XML.ChildElements body "w:p"
      end
  end.

(** ** Styles, notes and the text of a paragraph *)

(** The [w:style] children of the root [w:styles]. *)
Definition styleElements (xml : XMLDocument) : list XMLNode :=
  match List.find (XML.named "w:styles") xml with
  | None => []
  | Some root => XML.ChildElements root "w:style"
  end.

(** The element has [id] as its [w:styleId]. *)
Definition hasStyleId (id : string) (s : XMLNode) : bool :=
  match XML.Attribute s "w:styleId" with
  | Some id' => String.eqb id' id
  | None => false
  end.

(** The children named [noteName] of the root named [rootName]. *)
Definition noteElements (rootName noteName : string) (xml : XMLDocument)
  : list XMLNode :=
  match List.find (XML.named rootName) xml with
  | None => []
  | Some root => XML.ChildElements root noteName
  end.

(** The element is a note, not a separator, and [std::atoi] reads [k] from
    its [w:id]. *)
Definition isNote (k : Z) (fn : XMLNode) : bool :=
  match XML.Attribute fn "w:id" with
  | Some idAttr =>
      (CLib.atoi idAttr =? k) && negb (isSeparator (XML.Attribute fn "w:type"))
  | None => false
  end.

(** The text that the loop of [readParagraph] gives to the run of a [w:r]
    element. *)
Definition runElementText (r : XMLNode) : string :=
  match footnoteReference r with
  | Some (fr, _) => or_default (XML.GetText fr) ""
  | None => runText r
  end.

(** The in-order concatenation of strings. *)
Definition concatText (l : list string) : string :=
  fold_right String.append "" l.

(** ** Strings *)

(** [n] spaces. *)
Fixpoint spaces (n : nat) : string :=
  match n with
  | O => ""
  | S n' => String " " (spaces n')
  end.

(** The string starts, and ends, with a space. *)
Definition startsWithSpace (s : string) : bool :=
  match s with
  | String c _ => (c =? " ")%char
  | EmptyString => false
  end.

Fixpoint endsWithSpace (s : string) : bool :=
  match s with
  | EmptyString => false
  | String c EmptyString => (c =? " ")%char
  | String _ s' => endsWithSpace s'
  end.

(** The spaces at the front of the string removed. *)
Fixpoint dropSpaces (s : string) : string :=
  match s with
  | String c s' => if (c =? " ")%char then dropSpaces s' else s
  | EmptyString => s
  end.

(** Some character of the string satisfies [f]. *)
Fixpoint stringExists (f : ascii -> bool) (s : string) : bool :=
  match s with
  | EmptyString => false
  | String c s' => f c || stringExists f s'
  end.

(** The characters that delimit markup and attribute values in HTML. *)
Definition isMarkup (c : ascii) : bool :=
  (c =? "<")%char || (c =? ">")%char || (c =? Html.quote)%char || (c =? "'")%char.

(** The value of two hexadecimal digits. *)
Definition hexPair (c d : ascii) : option Z :=
  match CLib.digit 16 c, CLib.digit 16 d with
  | Some x, Some y => Some (16 * x + y)
  | _, _ => None
  end.

(** The archive has an entry of that name whose [file_stat] succeeds. *)
Definition isEntry (name : string) (st : option Zip.file_stat) : bool :=
  match st with
  | Some st => String.eqb (Zip.m_filename st) name
  | None => false
  end.

(** ** Precedence of the properties *)

(** The style id whose character properties apply to a run with [w:rPr]:
    the one of [w:rStyle], and the paragraph's when there is none. *)
Definition runStyleId (rPr : XMLNode) (pStyleId : string) : string :=
  let rStyleId := or_default (XML.ChildAttribute rPr "w:rStyle" "w:val") "" in
  if empty rStyleId then pStyleId else rStyleId.

(** The style id that [readParagraph] merges for the paragraph. *)
Definition mergedParagraphStyleId (p : XMLNode) : string :=
  if empty (paragraphStyleId p) then "Normal" else paragraphStyleId p.

(** ** The older reader *)

(** The in-order concatenation of the texts of a list of runs. *)
Fixpoint legacyTextOf (runs : list Legacy.Run.t) : string :=
  match runs with
  | [] => ""
  | run :: runs' => String.append (Legacy.Run.text run) (legacyTextOf runs')
  end.

(** The text that the loop of [parseDocumentWithFootnotes] gives to the run
    of a [w:r] element. *)
Definition legacyRunText (footnotes : gmap Z string) (r : XMLNode) : string :=
  match footnoteReference r with
  | Some (_, idAttr) => Legacy.Run.text (Legacy.noteRun footnotes idAttr)
  | None => Legacy.runText r
  end.

(** The text that [collectTextRecursive] appends for the element itself. *)
Definition ownText (e : XMLNode) : string :=
  if XML.named "w:t" e then or_default (XML.GetText e) "" else "".

(** ** The styles that a paragraph needs *)

(** The style id that [readParagraph] merges for a [w:r] element of a
    paragraph whose merged style id is [pStyleId], if it merges one. *)
Definition mergedRunStyleId (pStyleId : string) (r : XMLNode) : option string :=
  match footnoteReference r with
  | Some _ => None
  | None =>
      match XML.FirstChildElement r "w:rPr" with
      | Some rPr => Some (runStyleId rPr pStyleId)
      | None => None
      end
  end.

(** The style ids that [readParagraph] merges for a paragraph: the
    paragraph's and those of its runs. *)
Definition mergedStyleIds (p : XMLNode) : list string :=
  mergedParagraphStyleId p ::
  omap (mergedRunStyleId (mergedParagraphStyleId p)) (XML.ChildElements p "w:r").

(** * Properties *)

(** ** The conversions on the boundary values of the specification *)

Example size_in_half_points :
  stof_over 2 (Some "24") F32.zero = Ok (F32.of_Z 12).
Proof. reflexivity. Qed.

Example spacing_in_twentieths :
  stof_over 20 (Some "240") F32.zero = Ok (F32.of_Z 12) /\
  stof_over 20 (Some "120") F32.zero = Ok (F32.of_Z 6) /\
  stof_over 240 (Some "360") F32.zero = Ok (F32.of_ratio false 3 2).
Proof. repeat split. Qed.

Example stof_rejects_text : F32.stof "abc" = Throw invalid_argument.
Proof. reflexivity. Qed.

Example color_of_six_and_eight_digits :
  Color.of_hex "FF8000" = Ok (Color.mk 255 128 0 255) /\
  Color.of_hex "FF800080" = Ok (Color.mk 255 128 0 128) /\
  Color.of_hex "FFF" = Ok Color.default /\
  Color.of_hex "ZZZZZZ" = Throw invalid_argument.
Proof. repeat split. Qed.

Example text_is_trimmed_unless_preserved :
  runText (Sample.el "w:r" [Sample.el "w:t" [XMLText "  hello  "]]) = "hello" /\
  runText (Sample.el "w:r"
             [XMLElement "w:t" [("xml:space", "preserve")] [XMLText "  hello  "]])
    = "  hello  " /\
  runText (Sample.el "w:r" [Sample.el "w:t" [XMLText "   "]]) = "".
Proof. repeat split. Qed.

Example atoi_values :
  CLib.atoi "12" = 12 /\ CLib.atoi " -3x" = -3 /\ CLib.atoi "abc" = 0 /\
  CLib.to_uint32 (CLib.atoi "-1") = 4294967295.
Proof. repeat split. Qed.

(** ** The end-to-end scenarios of the specification *)

Example scenario_inherited_bold :
  exists doc cache' para run,
    readDocumentFromMemory 1 Scenario.inheritedBold ∅ = Done doc cache' /\
    Document.paragraphs doc = [para] /\ Paragraph.runs para = [run] /\
    Run.bold run = true /\ Run.text run = "hi".
Proof. eexists _, _, _, _. split; [vm_compute; reflexivity|]. repeat split. Qed.

Example scenario_coalescing :
  exists doc cache' para run,
    readDocumentFromMemory 1 Scenario.twoBoldRuns ∅ = Done doc cache' /\
    Document.paragraphs doc = [para] /\ Paragraph.runs para = [run] /\
    Run.bold run = true /\ Run.text run = "foobar".
Proof. eexists _, _, _, _. split; [vm_compute; reflexivity|]. repeat split. Qed.

Example scenario_centered_bidi :
  exists doc cache' para,
    readDocumentFromMemory 1 Scenario.centeredBidi ∅ = Done doc cache' /\
    Document.paragraphs doc = [para] /\
    Paragraph.justification para = Justification.Center /\
    Paragraph.rightDirection para = true.
Proof. eexists _, _, _. split; [vm_compute; reflexivity|]. repeat split. Qed.

Example scenario_footnotes :
  exists doc cache' para run note,
    readDocumentFromMemory 1 Scenario.footnotes ∅ = Done doc cache' /\
    map_to_list (Document.footnotes doc) = [(1, note)] /\
    Document.paragraphs doc = [para] /\ Paragraph.runs para = [run] /\
    Run.noteId run = 1.
Proof.
  eexists _, _, _, _, _. split; [vm_compute; reflexivity|].
  split; [vm_compute; reflexivity|]. repeat split.
Qed.

(** ** The style resolver *)

(** One unfolding of [mergeStyleCached], effects written out. *)
Lemma mergeStyleCached_S fuel (styles : StyleMap) styleId (cache : StyleMap) :
  mergeStyleCached (S fuel) styles styleId cache =
  if empty styleId then Done Style.default cache
  else
    match cache !! styleId with
    | Some merged => Done merged cache
    | None =>
        match styles !! styleId with
        | None => Done Style.default (<[styleId := Style.default]> cache)
        | Some cur =>
            match (if negb (empty (Style.basedOn cur))
                   then mergeStyleCached fuel styles (Style.basedOn cur) cache
                   else Done Style.default cache) with
            | Done base cache' =>
                Done (overlay cur base) (<[styleId := overlay cur base]> cache')
            | Raised e => Raised e
            | Overflow => Overflow
            end
        end
    end.
Proof.
  cbn [mergeStyleCached].
  destruct (empty styleId); [reflexivity|].
  unfold bind, cache_find, cache_store, ret.
  destruct (cache !! styleId); [reflexivity|].
  destruct (styles !! styleId) as [cur|]; [|reflexivity].
  destruct (negb (empty (Style.basedOn cur))); [|reflexivity].
  destruct (mergeStyleCached fuel styles (Style.basedOn cur) cache); reflexivity.
Qed.

Lemma empty_true (s : string) : empty s = true <-> s = "".
Proof. destruct s; cbn; split; congruence. Qed.

Lemma empty_false (s : string) : empty s = false <-> s <> "".
Proof. destruct s; cbn; split; congruence. Qed.


Lemma mergeStyleCached_returns (styles cache : StyleMap) id :
  ChainEnds styles cache id ->
  exists fuel merged cache', mergeStyleCached fuel styles id cache = Done merged cache'.
Proof.
  induction 1 as [|id merged Hc|id Hs|id cur Hs Hbase IH].
  - exists 1%nat, Style.default, cache. reflexivity.
  - exists 1%nat. rewrite mergeStyleCached_S, Hc.
    destruct (empty id); eauto.
  - exists 1%nat. rewrite mergeStyleCached_S, Hs.
    destruct (empty id); [eauto|]. destruct (cache !! id); eauto.
  - destruct IH as (fuel & base & cache' & IH).
    exists (S fuel). rewrite mergeStyleCached_S, Hs, IH.
    destruct (empty id); [eauto|]. destruct (cache !! id); [eauto|].
    destruct (negb (empty (Style.basedOn cur))); eauto.
Qed.

Lemma mergeStyleCached_chain fuel : forall (styles cache : StyleMap) id merged cache',
  mergeStyleCached fuel styles id cache = Done merged cache' ->
  ChainEnds styles cache id.
Proof.
  induction fuel as [|fuel IH]; intros styles cache id merged cache' H.
  - discriminate.
  - rewrite mergeStyleCached_S in H.
    destruct (empty id) eqn:Hid.
    { apply empty_true in Hid. subst. constructor. }
    destruct (cache !! id) as [m|] eqn:Hc.
    { eapply chain_cached; eassumption. }
    destruct (styles !! id) as [cur|] eqn:Hs.
    2: { apply chain_unknown; assumption. }
    apply chain_link with cur; [assumption|].
    destruct (empty (Style.basedOn cur)) eqn:Hb; cbn [negb] in H.
    { apply empty_true in Hb. rewrite Hb. constructor. }
    destruct (mergeStyleCached fuel styles (Style.basedOn cur) cache)
      as [base c'| |] eqn:Hrec; try discriminate.
    eapply IH; eassumption.
Qed.

(** [mergeStyleCached] never lets an exception escape. *)
Lemma mergeStyleCached_no_throw fuel : forall (styles cache : StyleMap) id e,
  mergeStyleCached fuel styles id cache <> Raised e.
Proof.
  induction fuel as [|fuel IH]; intros styles cache id e; [discriminate|].
  rewrite mergeStyleCached_S.
  destruct (empty id); [discriminate|].
  destruct (cache !! id); [discriminate|].
  destruct (styles !! id) as [cur|]; [|discriminate].
  destruct (negb (empty (Style.basedOn cur))); [|discriminate].
  destruct (mergeStyleCached fuel styles (Style.basedOn cur) cache) eqn:Hrec;
    try discriminate.
  exfalso. eapply IH; eassumption.
Qed.

Lemma cycle_lookup_A : Cycle.styles !! "A" = Some (Sample.style "B" false true).
Proof. unfold Cycle.styles. apply lookup_insert_eq. Qed.

Lemma cycle_lookup_B : Cycle.styles !! "B" = Some (Sample.style "A" true false).
Proof.
  unfold Cycle.styles. rewrite lookup_insert_ne by discriminate.
  apply lookup_insert_eq.
Qed.

Lemma cycle_overflow fuel :
  mergeStyleCached fuel Cycle.styles "A" ∅ = Overflow /\
  mergeStyleCached fuel Cycle.styles "B" ∅ = Overflow.
Proof.
  induction fuel as [|fuel [IHA IHB]]; [split; reflexivity|].
  split; rewrite mergeStyleCached_S; cbn [empty]; rewrite lookup_empty.
  - rewrite cycle_lookup_A. cbn. rewrite IHB. reflexivity.
  - rewrite cycle_lookup_B. cbn. rewrite IHA. reflexivity.
Qed.

(** C1, counterexample: on the two-style cycle [A -> B -> A] and the empty
    cache, [mergeStyleCached] returns for no recursion budget: nothing is
    inserted in the cache before the recursive call, so the second
    invocation for [A] misses the cache and recurses again. *)
Lemma C1_cycle_never_returns :
  ~ exists fuel merged cache',
      mergeStyleCached fuel Cycle.styles "A" ∅ = Done merged cache'.
Proof.
  intros (fuel & merged & cache' & H).
  destruct (cycle_overflow fuel) as [HA _]. congruence.
Qed.

(** C1, amended: [mergeStyleCached] returns a [Style] (with the updated
    cache) exactly when the [basedOn] chain that starts at the id ends, and
    it then returns without raising; on a chain that never ends, a cycle, no
    recursion budget is enough. *)
Theorem C1_terminates_iff_chain_ends (styles cache : StyleMap) (id : string) :
  ChainEnds styles cache id <->
  exists fuel merged cache', mergeStyleCached fuel styles id cache = Done merged cache'.
Proof.
  split.
  - apply mergeStyleCached_returns.
  - intros (fuel & merged & cache' & H).
    eapply mergeStyleCached_chain; eassumption.
Qed.

Lemma C1_witness :
  exists fuel merged cache',
    mergeStyleCached fuel Chain.styles "A" ∅ = Done merged cache'.
Proof.
  apply (proj1 (C1_terminates_iff_chain_ends Chain.styles ∅ "A")).
  eapply chain_link; [vm_compute; reflexivity|].
  eapply chain_link; [vm_compute; reflexivity|].
  apply chain_empty.
Defined.

(** The merged style is stored under its id. *)
Lemma mergeStyleCached_stored fuel (styles cache : StyleMap) id merged cache' :
  mergeStyleCached fuel styles id cache = Done merged cache' ->
  id <> "" -> cache' !! id = Some merged.
Proof.
  destruct fuel as [|fuel]; [discriminate|].
  rewrite mergeStyleCached_S. intros H Hid.
  apply empty_false in Hid. rewrite Hid in H.
  destruct (cache !! id) as [m|] eqn:Hc.
  { inversion H; subst. assumption. }
  destruct (styles !! id) as [cur|].
  2: { inversion H; subst. apply lookup_insert_eq. }
  destruct (if negb (empty (Style.basedOn cur))
            then mergeStyleCached fuel styles (Style.basedOn cur) cache
            else Done Style.default cache) as [base c| |]; try discriminate.
  inversion H; subst. apply lookup_insert_eq.
Qed.

(** X3: calling [mergeStyleCached] again with the same id, on the cache that the
    first call left, returns the same style and leaves the cache as it is. *)
Theorem mergeStyleCached_again fuel (styles cache : StyleMap) id merged cache'
  fuel' :
  mergeStyleCached fuel styles id cache = Done merged cache' ->
  mergeStyleCached (S fuel') styles id cache' = Done merged cache'.
Proof.
  intros H. rewrite mergeStyleCached_S.
  destruct (empty id) eqn:Hid.
  - destruct fuel as [|fuel]; [discriminate|].
    rewrite mergeStyleCached_S, Hid in H. inversion H. reflexivity.
  - apply empty_false in Hid.
    rewrite (mergeStyleCached_stored _ _ _ _ _ _ H Hid). reflexivity.
Qed.

Lemma again_witness :
  exists merged cache',
    mergeStyleCached 2 Chain.styles "A" ∅ = Done merged cache' /\
    mergeStyleCached 1 Chain.styles "A" cache' = Done merged cache'.
Proof.
  eexists _, _. split; [vm_compute; reflexivity|].
  apply (mergeStyleCached_again 2 Chain.styles ∅ "A" _ _ 0).
  vm_compute. reflexivity.
Defined.

(** On a cache that holds merged styles only, [mergeStyleCached] returns
    the merge of the id and leaves such a cache. *)
Lemma mergeStyleCached_consistent fuel : forall (styles cache : StyleMap) id
  merged cache',
  Consistent styles cache ->
  mergeStyleCached fuel styles id cache = Done merged cache' ->
  (exists fuel0, resolve fuel0 styles id = Some merged) /\
  Consistent styles cache'.
Proof.
  induction fuel as [|fuel IH]; intros styles cache id merged cache' Hcons H;
    [discriminate|].
  rewrite mergeStyleCached_S in H.
  destruct (empty id) eqn:Hid.
  { inversion H; subst. split; [|assumption].
    exists 1%nat. cbn [resolve]. rewrite Hid. reflexivity. }
  destruct (cache !! id) as [m|] eqn:Hc.
  { inversion H; subst. split; [|assumption]. eapply Hcons, Hc. }
  assert (Hstore : forall st fuel0 (c : StyleMap),
            resolve fuel0 styles id = Some st -> Consistent styles c ->
            Consistent styles (<[id := st]> c)).
  { intros st fuel0 c Hres Hc0 id' m' Hl.
    destruct (decide (id = id')) as [<-|Hne].
    - rewrite lookup_insert_eq in Hl. inversion Hl; subst. eauto.
    - rewrite lookup_insert_ne in Hl by assumption. eapply Hc0, Hl. }
  destruct (styles !! id) as [cur|] eqn:Hs.
  2: { inversion H; subst.
       assert (Hres : resolve 1 styles id = Some Style.default)
         by (cbn [resolve]; rewrite Hid, Hs; reflexivity).
       split; [eauto | eapply Hstore; eassumption]. }
  destruct (empty (Style.basedOn cur)) eqn:Hb; cbn [negb] in H.
  - inversion H; subst.
    assert (Hres : resolve 1 styles id = Some (overlay cur Style.default))
      by (cbn [resolve]; rewrite Hid, Hs, Hb; reflexivity).
    split; [eauto | eapply Hstore; eassumption].
  - destruct (mergeStyleCached fuel styles (Style.basedOn cur) cache)
      as [base c| |] eqn:Hrec; try discriminate.
    inversion H; subst.
    destruct (IH _ _ _ _ _ Hcons Hrec) as [[fuel0 Hbase] Hc0].
    assert (Hres : resolve (S fuel0) styles id = Some (overlay cur base))
      by (cbn [resolve]; rewrite Hid, Hs, Hb; cbn [negb]; rewrite Hbase;
          reflexivity).
    split; [eauto | eapply Hstore; eassumption].
Qed.

(** X4: the cache is transparent: on a cache that holds merged styles only,
    [mergeStyleCached] returns the merge of the id as computed without a
    cache, and it leaves such a cache. *)
Theorem mergeStyleCached_resolve fuel (styles cache : StyleMap) id merged cache' :
  Consistent styles cache ->
  mergeStyleCached fuel styles id cache = Done merged cache' ->
  (exists fuel0, resolve fuel0 styles id = Some merged) /\
  Consistent styles cache'.
Proof. apply mergeStyleCached_consistent. Qed.

Lemma Consistent_empty (styles : StyleMap) : Consistent styles ∅.
Proof. intros id merged H. rewrite lookup_empty in H. discriminate. Qed.

Lemma resolve_witness :
  exists merged cache',
    mergeStyleCached 2 Chain.styles "A" ∅ = Done merged cache' /\
    (exists fuel0, resolve fuel0 Chain.styles "A" = Some merged) /\
    Consistent Chain.styles cache'.
Proof.
  eexists _, _. split; [vm_compute; reflexivity|].
  apply (mergeStyleCached_resolve 2 Chain.styles ∅ "A").
  - apply Consistent_empty.
  - vm_compute. reflexivity.
Defined.

(** The [basedOn] link is honoured: [A] is italic and based on the bold
    [B], and the merged [A] is both. *)
Example chain_merges_bold_and_italic :
  exists merged cache',
    mergeStyleCached 2 Chain.styles "A" ∅ = Done merged cache' /\
    Style.bold merged = true /\ Style.italic merged = true.
Proof. eexists _, _. split; [vm_compute; reflexivity|]. split; reflexivity. Qed.

(** The numeric fields of the current style override the inherited
    value only when they are strictly positive. *)
Theorem numeric_fields_override_when_positive fuel (styles cache : StyleMap) id
  cur merged cache' :
  id <> "" -> cache !! id = None -> styles !! id = Some cur ->
  mergeStyleCached (S fuel) styles id cache = Done merged cache' ->
  exists base,
    Inherits fuel styles cache cur base /\
    Style.fontSize merged = positiveOr (Style.fontSize cur) (Style.fontSize base) /\
    Style.lineSpacing merged =
      positiveOr (Style.lineSpacing cur) (Style.lineSpacing base) /\
    Style.spaceBefore merged =
      positiveOr (Style.spaceBefore cur) (Style.spaceBefore base) /\
    Style.spaceAfter merged =
      positiveOr (Style.spaceAfter cur) (Style.spaceAfter base) /\
    Style.indentLeft merged =
      positiveOr (Style.indentLeft cur) (Style.indentLeft base) /\
    Style.indentRight merged =
      positiveOr (Style.indentRight cur) (Style.indentRight base) /\
    Style.indentFirstLine merged =
      positiveOr (Style.indentFirstLine cur) (Style.indentFirstLine base) /\
    Style.level merged =
      (if 0 <? Style.level cur then Style.level cur else Style.level base).
Proof.
  intros Hid Hc Hs H. rewrite mergeStyleCached_S, Hc, Hs in H.
  apply empty_false in Hid. rewrite Hid in H.
  destruct (empty (Style.basedOn cur)) eqn:Hb; cbn [negb] in H.
  - inversion H; subst. exists Style.default.
    split; [left; split; [apply empty_true, Hb | reflexivity]|].
    repeat split.
  - destruct (mergeStyleCached fuel styles (Style.basedOn cur) cache)
      as [base cache1| |] eqn:Hrec; try discriminate.
    inversion H; subst. exists base.
    split; [right; split; [apply empty_false, Hb | eauto]|].
    repeat split.
Qed.

Lemma numeric_witness :
  exists merged cache' base,
    mergeStyleCached 2 Chain.styles "A" ∅ = Done merged cache' /\
    Inherits 1 Chain.styles ∅ (Sample.style "B" false true) base /\
    Style.fontSize merged = positiveOr F32.zero (Style.fontSize base) /\
    Style.lineSpacing merged = positiveOr F32.one (Style.lineSpacing base).
Proof.
  eexists _, _.
  assert (H : mergeStyleCached 2 Chain.styles "A" ∅ = Done _ _)
    by (vm_compute; reflexivity).
  destruct (numeric_fields_override_when_positive 1 Chain.styles ∅ "A"
              (Sample.style "B" false true) _ _
              ltac:(discriminate) ltac:(reflexivity)
              ltac:(vm_compute; reflexivity) H)
    as (base & Hbase & Hsize & Hspacing & _).
  exists base. split; [exact H|]. split; [exact Hbase|].
  split; [exact Hsize | exact Hspacing].
Defined.

(** ** Inversion of the effects *)

Lemma bind_Done {A B : Type} (m : M A) (k : A -> M B) cache b cache' :
  bind m k cache = Done b cache' ->
  exists a cache1, m cache = Done a cache1 /\ k a cache1 = Done b cache'.
Proof.
  unfold bind. destruct (m cache) as [a cache1| |]; try discriminate. eauto.
Qed.

Lemma liftE_Done {A : Type} (m : exc A) cache a cache' :
  liftE m cache = Done a cache' -> m = Ok a /\ cache' = cache.
Proof. unfold liftE. destruct m; intros H; inversion H; auto. Qed.

Lemma ret_Done {A : Type} (a b : A) cache cache' :
  ret a cache = Done b cache' -> b = a /\ cache' = cache.
Proof. unfold ret. intros H; inversion H; auto. Qed.

Lemma exc_bind_Ok {A B : Type} (m : exc A) (k : A -> exc B) b :
  exc_bind m k = Ok b -> exists a, m = Ok a /\ k a = Ok b.
Proof. destruct m; cbn; [eauto | discriminate]. Qed.

(** Decompose a hypothesis saying that a sequence of effects returned. *)
Ltac inv_done :=
  repeat match goal with
  | H : bind _ _ _ = Done _ _ |- _ =>
      let a := fresh "a" in let c := fresh "cache" in
      let H1 := fresh "Hm" in let H2 := fresh "Hk" in
      apply bind_Done in H; destruct H as (a & c & H1 & H2)
  | H : liftE _ _ = Done _ _ |- _ =>
      let H1 := fresh "He" in let H2 := fresh "Hc" in
      apply liftE_Done in H; destruct H as [H1 H2]; try subst
  | H : ret _ _ = Done _ _ |- _ =>
      let H1 := fresh "Hr" in let H2 := fresh "Hc" in
      apply ret_Done in H; destruct H as [H1 H2]; try subst
  | H : exc_bind _ _ = Ok _ |- _ =>
      let a := fresh "a" in
      let H1 := fresh "Hm" in let H2 := fresh "Hk" in
      apply exc_bind_Ok in H; destruct H as (a & H1 & H2)
  | H : Ok _ = Ok _ |- _ => inversion H; clear H; try subst
  | H : Done _ _ = Done _ _ |- _ => inversion H; clear H; try subst
  end.

(** ** The run coalescer *)

Lemma append_String (c : ascii) (s t : string) :
  String.append (String c s) t = String c (String.append s t).
Proof. reflexivity. Qed.

Lemma append_assoc (s1 s2 s3 : string) :
  String.append (String.append s1 s2) s3 = String.append s1 (String.append s2 s3).
Proof.
  induction s1 as [|c s1 IH]; [reflexivity|].
  rewrite !append_String. f_equal. exact IH.
Qed.

Lemma append_empty_r (s : string) : String.append s "" = s.
Proof.
  induction s as [|c s IH]; [reflexivity|].
  rewrite append_String. f_equal. exact IH.
Qed.

Lemma textOf_app (l1 l2 : list Run.t) :
  textOf (l1 ++ l2) = String.append (textOf l1) (textOf l2).
Proof.
  induction l1 as [|run l1 IH]; cbn; [reflexivity|].
  now rewrite IH, append_assoc.
Qed.

(** [merged.back()] is the last element of a non-empty [merged]. *)
Lemma rev_back (merged : list Run.t) back front :
  rev merged = back :: front -> merged = rev front ++ [back].
Proof. intros H. rewrite <- (rev_involutive merged), H. reflexivity. Qed.

Lemma merge_step_text (merged : list Run.t) (run : Run.t) :
  textOf (merge_step merged run) = String.append (textOf merged) (Run.text run).
Proof.
  unfold merge_step.
  destruct (rev merged) as [|back front] eqn:Hrev.
  - rewrite textOf_app. cbn. now rewrite append_empty_r.
  - apply rev_back in Hrev. subst merged.
    destruct (sameRunStyle back run).
    + rewrite !textOf_app. cbn. now rewrite !append_empty_r, append_assoc.
    + rewrite textOf_app. cbn. now rewrite append_empty_r.
Qed.

Lemma merge_loop_text (rest merged : list Run.t) :
  textOf (fold_left merge_step rest merged) =
  String.append (textOf merged) (textOf rest).
Proof.
  revert merged.
  induction rest as [|run rest IH]; intros merged; cbn.
  - now rewrite append_empty_r.
  - now rewrite IH, merge_step_text, append_assoc.
Qed.

(** C9: the concatenation of the texts of the runs, in order, is the same
    after [mergeAdjacentRuns] as before. *)
Theorem C9_coalesce_preserves_text (runs : list Run.t) :
  textOf (mergeAdjacentRuns runs) = textOf runs.
Proof.
  destruct runs as [|first [|second rest]]; try reflexivity.
  unfold mergeAdjacentRuns. rewrite merge_loop_text. cbn.
  now rewrite append_empty_r.
Qed.

Lemma sameRunStyle_append_l (s : string) (a b : Run.t) :
  sameRunStyle (Run.append_text s a) b = sameRunStyle a b.
Proof. reflexivity. Qed.

Lemma sameRunStyle_append_r (s : string) (a b : Run.t) :
  sameRunStyle a (Run.append_text s b) = sameRunStyle a b.
Proof. reflexivity. Qed.

Lemma merge_loop_coalesce (rest : list Run.t) :
  forall front back,
  fold_left merge_step rest (front ++ [back]) = front ++ coalesce back rest.
Proof.
  induction rest as [|run rest IH]; intros front back; [reflexivity|].
  cbn [fold_left coalesce]. unfold merge_step at 2.
  rewrite rev_app_distr. cbn [rev app].
  destruct (sameRunStyle back run).
  - rewrite rev_involutive. apply IH.
  - rewrite (IH (front ++ [back]) run), <- app_assoc. reflexivity.
Qed.

(** [mergeAdjacentRuns] is [coalesce] started on the first run. *)
Lemma mergeAdjacentRuns_coalesce (runs : list Run.t) :
  mergeAdjacentRuns runs =
  match runs with
  | [] => []
  | first :: rest => coalesce first rest
  end.
Proof.
  destruct runs as [|first [|second rest]]; try reflexivity.
  unfold mergeAdjacentRuns. apply (merge_loop_coalesce (second :: rest) []).
Qed.

Lemma coalesce_head (rest : list Run.t) :
  forall cur, exists head tail,
    coalesce cur rest = head :: tail /\
    forall a, sameRunStyle a head = sameRunStyle a cur.
Proof.
  induction rest as [|run rest IH]; intros cur; cbn [coalesce].
  - eauto.
  - destruct (sameRunStyle cur run); [|eauto].
    destruct (IH (Run.append_text (Run.text run) cur)) as (head & tail & -> & H).
    exists head, tail. split; [reflexivity|].
    intros a. rewrite H. apply sameRunStyle_append_r.
Qed.

Lemma coalesce_distinct (rest : list Run.t) :
  forall cur, adjacentDistinct (coalesce cur rest) = true.
Proof.
  induction rest as [|run rest IH]; intros cur; cbn [coalesce]; [reflexivity|].
  destruct (sameRunStyle cur run) eqn:Hsame; [apply IH|].
  pose proof (IH run) as Hrest.
  destruct (coalesce_head rest run) as (head & tail & Heq & Hhead).
  rewrite Heq in *. cbn [adjacentDistinct].
  rewrite Hhead, Hsame. exact Hrest.
Qed.

(** X1: after [mergeAdjacentRuns], no two adjacent runs have the same style
    (the fingerprint is the one of [sameRunStyle], which ignores [noteId]). *)
Theorem mergeAdjacentRuns_distinct (runs : list Run.t) :
  adjacentDistinct (mergeAdjacentRuns runs) = true.
Proof.
  rewrite mergeAdjacentRuns_coalesce.
  destruct runs as [|first rest]; [reflexivity | apply coalesce_distinct].
Qed.

Lemma coalesce_fixed (rest : list Run.t) :
  forall cur, adjacentDistinct (cur :: rest) = true ->
  coalesce cur rest = cur :: rest.
Proof.
  induction rest as [|run rest IH]; intros cur H; [reflexivity|].
  cbn [adjacentDistinct] in H. apply andb_true_iff in H. destruct H as [Hne H].
  cbn [coalesce]. apply negb_true_iff in Hne. rewrite Hne.
  f_equal. apply IH, H.
Qed.

(** X2: applying [mergeAdjacentRuns] twice gives the same runs as applying it
    once. *)
Theorem mergeAdjacentRuns_idempotent (runs : list Run.t) :
  mergeAdjacentRuns (mergeAdjacentRuns runs) = mergeAdjacentRuns runs.
Proof.
  rewrite (mergeAdjacentRuns_coalesce runs).
  destruct runs as [|first rest]; [reflexivity|].
  pose proof (coalesce_distinct rest first) as H.
  rewrite mergeAdjacentRuns_coalesce.
  destruct (coalesce first rest) as [|head tail]; [reflexivity|].
  apply coalesce_fixed, H.
Qed.

(** A property of runs that [merged.back().text += ...] preserves holds of
    the merged runs when it holds of the runs. *)
Lemma merge_step_Forall (Q : Run.t -> Prop) :
  (forall s run, Q run -> Q (Run.append_text s run)) ->
  forall merged run, Forall Q merged -> Q run -> Forall Q (merge_step merged run).
Proof.
  intros HQ merged run Hm Hr. unfold merge_step.
  destruct (rev merged) as [|back front] eqn:Hrev.
  - apply Forall_app. split; [assumption | repeat constructor; assumption].
  - destruct (sameRunStyle back run).
    + apply rev_back in Hrev. subst merged.
      apply Forall_app in Hm. destruct Hm as [Hfront Hback].
      apply Forall_app. split; [assumption|].
      repeat constructor. apply HQ. now inversion Hback.
    + apply Forall_app. split; [assumption | repeat constructor; assumption].
Qed.

Lemma mergeAdjacentRuns_Forall (Q : Run.t -> Prop) :
  (forall s run, Q run -> Q (Run.append_text s run)) ->
  forall runs, Forall Q runs -> Forall Q (mergeAdjacentRuns runs).
Proof.
  intros HQ runs H.
  destruct runs as [|first [|second rest]]; try assumption.
  unfold mergeAdjacentRuns.
  inversion H as [|? ? Hfirst Hrest]; subst.
  assert (Hacc : Forall Q [first]) by (repeat constructor; assumption).
  clear H. revert Hacc Hrest. generalize [first]. generalize (second :: rest).
  induction l as [|run l IH]; intros merged Hacc Hrest; cbn; [assumption|].
  inversion Hrest; subst.
  apply IH; [apply merge_step_Forall|]; assumption.
Qed.

(** ** The paragraph reader *)

(** The direct run properties leave [text], [style] and [noteId] alone. *)
Lemma directRunProps_frame (rPr : XMLNode) (run run' : Run.t) :
  directRunProps rPr run = Ok run' ->
  Run.text run' = Run.text run /\
  Run.style run' = Run.style run /\
  Run.noteId run' = Run.noteId run.
Proof.
  unfold directRunProps. intros H. inv_done. cbn. auto.
Qed.

(** What the loop body gives to the fields of a run that no property of the
    style or of [w:rPr] touches. *)
Lemma readRun_fields fuel (r : XMLNode) (styles : StyleMap) pStyleId
  (cache : StyleMap) run cache' :
  readRun fuel r styles pStyleId cache = Done run cache' ->
  Run.style run = "" /\ Run.noteId run = noteIdOf r.
Proof.
  unfold readRun, noteIdOf.
  destruct (footnoteReference r) as [[fr idAttr]|].
  - intros H. inv_done. cbn. auto.
  - destruct (XML.FirstChildElement r "w:rPr") as [rPr|]; intros H; inv_done.
    + apply directRunProps_frame in He. cbn in He. tauto.
    + cbn. auto.
Qed.

Lemma readRuns_fields fuel (styles : StyleMap) pStyleId :
  forall (elems : list XMLNode) (cache : StyleMap) runs cache',
  readRuns fuel elems styles pStyleId cache = Done runs cache' ->
  Forall2 (fun r run => Run.style run = "" /\ Run.noteId run = noteIdOf r)
          elems runs.
Proof.
  induction elems as [|r elems IH]; intros cache runs cache' H; cbn in H;
    inv_done.
  - constructor.
  - constructor; [eapply readRun_fields | eapply IH]; eassumption.
Qed.

(** The runs of the paragraph are the merged runs of the loop. *)
Lemma readParagraph_runs fuel (p : XMLNode) (styles cache : StyleMap) para cache' :
  readParagraph fuel p styles cache = Done para cache' ->
  exists runs cache0 cache1,
    emittedRuns fuel p styles cache0 = Done runs cache1 /\
    Paragraph.runs para = mergeAdjacentRuns runs.
Proof.
  unfold readParagraph, emittedRuns. intros H. inv_done.
  eexists _, _, _. split; [eassumption | reflexivity].
Qed.

Lemma readParagraph_styles_empty fuel (p : XMLNode) (styles cache : StyleMap)
  para cache' :
  readParagraph fuel p styles cache = Done para cache' -> RunStylesEmpty para.
Proof.
  intros H. apply readParagraph_runs in H. unfold RunStylesEmpty.
  destruct H as (runs & cache0 & cache1 & Hruns & ->).
  apply mergeAdjacentRuns_Forall; [intros s run Hs; exact Hs|].
  apply readRuns_fields in Hruns.
  induction Hruns as [|r run elems runs [Hs _] _ IH]; constructor; assumption.
Qed.

Lemma styles_empty_agree (para : Paragraph.t) :
  RunStylesEmpty para -> RunStylesAgree para.
Proof.
  intros H a b Ha Hb. unfold RunStylesEmpty in H.
  rewrite Forall_forall in H.
  rewrite (H a), (H b) by (apply list_elem_of_In; assumption). reflexivity.
Qed.

(** ** From paragraphs to documents *)

Section Lift.

Variable P : Paragraph.t -> Prop.
Variable fuel : nat.
Hypothesis readParagraph_P :
  forall (p : XMLNode) (styles cache : StyleMap) para cache',
    readParagraph fuel p styles cache = Done para cache' -> P para.

Lemma readParagraphs_Forall (styles : StyleMap) :
  forall (elems : list XMLNode) (cache : StyleMap) paras cache',
  readParagraphs fuel elems styles cache = Done paras cache' -> Forall P paras.
Proof.
  induction elems as [|p elems IH]; intros cache paras cache' H; cbn in H;
    inv_done.
  - constructor.
  - constructor; [eapply readParagraph_P | eapply IH]; eassumption.
Qed.

Lemma parseNotes_loop_Forall (styles : StyleMap) :
  forall (elems : list XMLNode) (map : gmap Z Note.t) (cache : StyleMap) map' cache',
  map_Forall (fun _ note => Forall P (Note.paragraphs note)) map ->
  parseNotes_loop fuel elems styles map cache = Done map' cache' ->
  map_Forall (fun _ note => Forall P (Note.paragraphs note)) map'.
Proof.
  induction elems as [|fn elems IH]; intros map cache map' cache' Hmap H;
    cbn in H.
  - inv_done. assumption.
  - destruct (XML.Attribute fn "w:id") as [idAttr|]; [|eapply IH; eassumption].
    destruct (isSeparator (XML.Attribute fn "w:type")); [eapply IH; eassumption|].
    inv_done. eapply IH; [|eassumption].
    apply map_Forall_insert_2; [|assumption].
    cbn. eapply readParagraphs_Forall; eassumption.
Qed.

Lemma parseNotes_Forall rootName noteName (xml : XMLDocument) (styles cache : StyleMap)
  map cache' :
  parseNotes rootName noteName fuel xml styles cache = Done map cache' ->
  map_Forall (fun _ note => Forall P (Note.paragraphs note)) map.
Proof.
  unfold parseNotes.
  destruct (find (XML.named rootName) xml) as [root|]; intros H.
  - eapply parseNotes_loop_Forall; [|eassumption]. apply map_Forall_empty.
  - inv_done. apply map_Forall_empty.
Qed.

Lemma parseMainDocument_Forall (xml : XMLDocument) (styles cache : StyleMap)
  paras cache' :
  parseMainDocument fuel xml styles cache = Done paras cache' -> Forall P paras.
Proof.
  unfold parseMainDocument.
  destruct (find (XML.named "w:document") xml) as [root|]; intros H.
  - destruct (XML.FirstChildElement root "w:body") as [body|].
    + eapply readParagraphs_Forall; eassumption.
    + inv_done. constructor.
  - inv_done. constructor.
Qed.

Lemma parseAll_Forall (fileData : FileData) (cache : StyleMap) doc cache' :
  parseAll fuel fileData cache = Done doc cache' -> DocForall P doc.
Proof.
  unfold parseAll, parseFootnotes, parseEndnotes. intros H. inv_done.
  repeat split; cbn.
  - eapply parseMainDocument_Forall; eassumption.
  - eapply parseNotes_Forall; eassumption.
  - eapply parseNotes_Forall; eassumption.
Qed.

Lemma entry_points_Forall (fileData : FileData) (cache : StyleMap) doc cache' :
  readDocument fuel fileData cache = Done doc cache' \/
  readDocumentFromMemory fuel fileData cache = Done doc cache' ->
  DocForall P doc.
Proof.
  unfold readDocument, readDocumentFromMemory, cache_clear.
  intros [H|H]; inv_done.
  - destruct (size fileData).
    + inv_done. repeat split; cbn; try constructor; apply map_Forall_empty.
    + eapply parseAll_Forall; eassumption.
  - eapply parseAll_Forall; eassumption.
Qed.

End Lift.

(** C10: in every document that [readDocument] or [readDocumentFromMemory]
    returns, every run of every paragraph (body, footnotes and endnotes)
    has the empty string as its [style], so the [style] component of
    [sameRunStyle] compares equal on any two runs of a paragraph. *)
Theorem C10_run_style_is_never_assigned fuel (fileData : FileData)
  (cache : StyleMap) doc cache' :
  readDocument fuel fileData cache = Done doc cache' \/
  readDocumentFromMemory fuel fileData cache = Done doc cache' ->
  DocForall (fun para => RunStylesEmpty para /\ RunStylesAgree para) doc.
Proof.
  apply entry_points_Forall.
  intros p styles cache0 para cache1 H.
  apply readParagraph_styles_empty in H.
  split; [assumption | apply styles_empty_agree; assumption].
Qed.

Lemma C10_witness :
  exists doc cache',
    readDocumentFromMemory 1 Inputs.plain ∅ = Done doc cache' /\
    DocForall (fun para => RunStylesEmpty para /\ RunStylesAgree para) doc.
Proof.
  eexists _, _. split.
  - vm_compute. reflexivity.
  - eapply (C10_run_style_is_never_assigned 1 Inputs.plain ∅).
    right. vm_compute. reflexivity.
Defined.

(** ** Note references *)

Lemma atoi_range (s : string) : - 2 ^ 31 <= CLib.atoi s < 2 ^ 31.
Proof.
  unfold CLib.atoi. destruct (CLib.strtol 10 s) as [[v erange]|]; [|lia].
  unfold CLib.to_int.
  pose proof (Z.mod_pos_bound (v + 2 ^ 31) (2 ^ 32) ltac:(lia)). lia.
Qed.

(** The conversion of an [int] to [uint32_t] is 0 only on 0. *)
Lemma to_uint32_pos (z : Z) :
  - 2 ^ 31 <= z < 2 ^ 31 -> (0 < CLib.to_uint32 z <-> z <> 0).
Proof.
  intros Hz. unfold CLib.to_uint32.
  destruct (Z_lt_le_dec z 0) as [Hneg|Hpos].
  - replace (z mod 2 ^ 32) with (z + 2 ^ 32); [lia|].
    apply Z.mod_unique with (-1); lia.
  - rewrite Z.mod_small by lia. lia.
Qed.

(** C8, counterexample: the paragraph
    [<w:p><w:r><w:footnoteReference w:id="0"/></w:r></w:p>] has one run, it
    is emitted for a note reference, and its [noteId] is 0 in the document
    that [readDocumentFromMemory] returns. *)
Lemma C8_reference_with_id_zero :
  is_Some (footnoteReference (Sample.footnoteRun "0")) /\
  exists doc cache' para run,
    readDocumentFromMemory 1 Inputs.referenceZero ∅ = Done doc cache' /\
    Document.paragraphs doc = [para] /\
    Paragraph.runs para = [run] /\
    ~ 0 < Run.noteId run.
Proof.
  split; [eexists; reflexivity|].
  eexists _, _, _, _. split; [vm_compute; reflexivity|].
  split; [reflexivity|]. split; [reflexivity|]. cbn. lia.
Qed.

Lemma emittedRuns_note_ids fuel (p : XMLNode) (styles cache : StyleMap)
  runs cache' :
  emittedRuns fuel p styles cache = Done runs cache' ->
  Forall2 NoteIdRule (XML.ChildElements p "w:r") runs.
Proof.
  unfold emittedRuns. intros H. apply readRuns_fields in H.
  induction H as [|r run elems runs [_ Hid] _ IH]; constructor; [|assumption].
  unfold NoteIdRule. unfold noteIdOf in Hid.
  destruct (footnoteReference r) as [[fr idAttr]|]; [|assumption].
  split; [assumption|]. rewrite Hid.
  apply to_uint32_pos, atoi_range.
Qed.

Lemma Forall2_Forall_right {A B : Type} (R : A -> B -> Prop) (l : list A)
  (k : list B) :
  Forall2 R l k -> Forall (fun y => exists x, In x l /\ R x y) k.
Proof.
  induction 1 as [|x y l k Hxy _ IH]; constructor.
  - exists x. split; [left; reflexivity | assumption].
  - eapply Forall_impl; [exact IH|].
    cbn. intros y' (x' & Hin & HR). exists x'. split; [right|]; assumption.
Qed.

(** C8, amended: the run that the loop of [readParagraph] pushes for a
    [w:r] element with a footnote reference carrying [w:id] has
    [noteId = (uint32_t) atoi(w:id)], which is positive exactly when [atoi]
    does not yield 0; the run pushed for any other [w:r] element has
    [noteId = 0]; and every run of the paragraph returned, after the runs
    are merged, carries the [noteId] that this rule gives to one of the
    [w:r] elements of the paragraph. *)
Theorem C8_note_ids_of_a_paragraph fuel (p : XMLNode) (styles cache : StyleMap)
  para cache' :
  readParagraph fuel p styles cache = Done para cache' ->
  exists runs,
    Forall2 NoteIdRule (XML.ChildElements p "w:r") runs /\
    Paragraph.runs para = mergeAdjacentRuns runs /\
    Forall (fun run => exists r, In r (XML.ChildElements p "w:r") /\
                                 NoteIdRule r run)
           (Paragraph.runs para).
Proof.
  intros H. apply readParagraph_runs in H.
  destruct H as (runs & cache0 & cache1 & Hruns & Hpara).
  apply emittedRuns_note_ids in Hruns.
  exists runs. split; [assumption|]. split; [assumption|].
  rewrite Hpara. apply mergeAdjacentRuns_Forall.
  - intros s run (r & Hin & Hrule). exists r. split; [assumption|].
    unfold NoteIdRule in *. cbn. exact Hrule.
  - apply Forall2_Forall_right, Hruns.
Qed.

Lemma C8_witness :
  exists para cache',
    readParagraph 1 Inputs.referenceThenBold ∅ ∅ = Done para cache' /\
    exists runs,
      Forall2 NoteIdRule (XML.ChildElements Inputs.referenceThenBold "w:r") runs /\
      Paragraph.runs para = mergeAdjacentRuns runs /\
      Forall (fun run => exists r,
                In r (XML.ChildElements Inputs.referenceThenBold "w:r") /\
                NoteIdRule r run)
             (Paragraph.runs para).
Proof.
  eexists _, _. split; [vm_compute; reflexivity|].
  eapply (C8_note_ids_of_a_paragraph 1 Inputs.referenceThenBold ∅ ∅).
  vm_compute. reflexivity.
Defined.

(** ** Where the code departs from the specification *)

(** C3 (the code departs from the claim): [sameRunStyle] does not look at
    [noteId], so a note-reference run and the run of text that follows it,
    both without [w:rPr], are merged into one run that keeps the [noteId]
    and receives the text; and a note-reference run that follows such a run
    of text is merged into it and its [noteId] is lost. *)
Theorem C3_note_reference_is_merged :
  Run.noteId Runs.reference = 1 /\
  sameRunStyle Runs.reference Runs.text = true /\
  mergeAdjacentRuns [Runs.reference; Runs.text] =
    [Run.append_text "x" Runs.reference] /\
  mergeAdjacentRuns [Runs.text; Runs.reference] = [Runs.text] /\
  exists doc cache' para run,
    readDocumentFromMemory 1 Inputs.referenceThenText ∅ = Done doc cache' /\
    Document.paragraphs doc = [para] /\
    Paragraph.runs para = [run] /\
    Run.noteId run = 1 /\ Run.text run = "x".
Proof.
  split; [reflexivity|]. split; [reflexivity|]. split; [reflexivity|].
  split; [reflexivity|].
  eexists _, _, _, _. split; [vm_compute; reflexivity|].
  repeat split.
Qed.

(** C7 (the code departs from the claim): the loop of [readParagraph] looks
    for [w:footnoteReference] only. A run with an endnote reference is read
    as an ordinary run: its [noteId] stays 0 and its properties are
    extracted, where the same run with a footnote reference gets the id. *)
Theorem C7_endnote_reference_is_an_ordinary_run :
  footnoteReference (Sample.endnoteRun "2") = None /\
  readRun 1 (Sample.endnoteRun "2") ∅ "Normal" ∅ = Done Run.default ∅ /\
  (exists run cache',
     readRun 1 Runs.boldEndnote ∅ "Normal" ∅ = Done run cache' /\
     Run.noteId run = 0 /\ Run.bold run = true) /\
  (exists run,
     readRun 1 (Sample.footnoteRun "2") ∅ "Normal" ∅ = Done run ∅ /\
     Run.noteId run = 2).
Proof.
  split; [reflexivity|]. split; [reflexivity|]. split.
  - eexists _, _. split; [vm_compute; reflexivity|]. split; reflexivity.
  - eexists. split; [vm_compute; reflexivity|]. reflexivity.
Qed.

(** C5 (the code departs from the claim): the fields of the paragraph are
    copied from the merged style inside the [w:pPr] block only. For a
    paragraph without [w:pPr] the style [Normal] is merged (it is centered
    here) and the paragraph keeps the default justification; with an empty
    [w:pPr] the same paragraph is centered, and its [style] is the empty
    string. *)
Theorem C5_paragraph_without_pPr_is_not_seeded :
  (exists doc cache' para normal,
     readDocumentFromMemory 1 Inputs.bare ∅ = Done doc cache' /\
     Document.paragraphs doc = [para] /\
     cache' !! "Normal" = Some normal /\
     Style.justification normal = Justification.Center /\
     Paragraph.justification para = Justification.Left) /\
  (exists doc cache' para,
     readDocumentFromMemory 1 Inputs.withEmptyProps ∅ = Done doc cache' /\
     Document.paragraphs doc = [para] /\
     Paragraph.justification para = Justification.Center /\
     Paragraph.style para = "").
Proof.
  split.
  - eexists _, _, _, _. split; [vm_compute; reflexivity|].
    split; [reflexivity|]. split; [vm_compute; reflexivity|].
    split; reflexivity.
  - eexists _, _, _. split; [vm_compute; reflexivity|].
    split; [reflexivity|]. split; reflexivity.
Qed.

(** C6 (the code departs from the claim): the run style is merged and
    applied inside the [w:rPr] block only. For a run without [w:rPr] in a
    paragraph whose style [Normal] is bold, the run is not bold; with an
    empty [w:rPr] the same run is bold. *)
Theorem C6_run_without_rPr_gets_no_style :
  (exists doc cache' para run normal,
     readDocumentFromMemory 1 Inputs.bare ∅ = Done doc cache' /\
     Document.paragraphs doc = [para] /\
     Paragraph.runs para = [run] /\
     cache' !! "Normal" = Some normal /\
     Style.bold normal = true /\
     Run.bold run = false) /\
  (exists doc cache' para run,
     readDocumentFromMemory 1 Inputs.withEmptyProps ∅ = Done doc cache' /\
     Document.paragraphs doc = [para] /\
     Paragraph.runs para = [run] /\
     Run.bold run = true).
Proof.
  split.
  - eexists _, _, _, _, _. split; [vm_compute; reflexivity|].
    split; [reflexivity|]. split; [reflexivity|].
    split; [vm_compute; reflexivity|]. split; reflexivity.
  - eexists _, _, _, _. split; [vm_compute; reflexivity|].
    split; [reflexivity|]. split; reflexivity.
Qed.

(** C4 (the code departs from the claim): [Style::lineSpacing] is
    initialised to 1.0, not to 0, so a style that has no [w:spacing]
    element carries 1.0, which is positive and overrides the line spacing
    of the style it is based on: [A], based on [B] whose line spacing is
    1.5, resolves to 1.0. *)
Theorem C4_unset_line_spacing_overrides :
  exists styles a b merged cache',
    parseStyles Inputs.spacingStyles = Ok styles /\
    styles !! "A" = Some a /\
    styles !! "B" = Some b /\
    Style.basedOn a = "B" /\
    Style.lineSpacing a = F32.one /\
    Style.lineSpacing b = F32.div (F32.of_Z 360) (F32.of_Z 240) /\
    mergeStyleCached 2 styles "A" ∅ = Done merged cache' /\
    Style.lineSpacing merged = F32.one /\
    F32.eqb (Style.lineSpacing merged) (Style.lineSpacing b) = false.
Proof.
  eexists _, _, _, _, _. split; [vm_compute; reflexivity|].
  split; [vm_compute; reflexivity|]. split; [vm_compute; reflexivity|].
  split; [reflexivity|]. split; [reflexivity|]. split; [reflexivity|].
  split; [vm_compute; reflexivity|]. split; reflexivity.
Qed.

(** ** Totality of the entry points on accepted inputs *)

Lemma treeAccepted_node (x : XMLNode) :
  treeAccepted x = true -> nodeAccepted x = true.
Proof.
  destruct x as [s| | |name attrs children]; try reflexivity.
  cbn [treeAccepted]. intros H. apply andb_true_iff in H. tauto.
Qed.

Lemma treeAccepted_child (e c : XMLNode) :
  treeAccepted e = true -> In c (XML.children e) -> treeAccepted c = true.
Proof.
  destruct e as [s| | |name attrs children]; cbn [XML.children]; try contradiction.
  cbn [treeAccepted]. intros H Hin. apply andb_true_iff in H.
  destruct H as [_ H]. rewrite forallb_forall in H. apply H, Hin.
Qed.

Lemma named_inv (n : string) (x : XMLNode) :
  XML.named n x = true -> exists attrs children, x = XMLElement n attrs children.
Proof.
  destruct x as [s| | |name attrs children]; cbn; try discriminate.
  intros H. apply String.eqb_eq in H. subst. eauto.
Qed.

Lemma FirstChildElement_accepted (e : XMLNode) (n : string) (c : XMLNode) :
  treeAccepted e = true -> XML.FirstChildElement e n = Some c ->
  treeAccepted c = true /\ exists attrs children, c = XMLElement n attrs children.
Proof.
  unfold XML.FirstChildElement. intros He H.
  apply find_some in H. destruct H as [Hin Hn].
  split; [eapply treeAccepted_child; eassumption | apply named_inv; assumption].
Qed.

Lemma Elements_accepted (n : string) (cs : list XMLNode) :
  forallb treeAccepted cs = true ->
  Forall (fun c => treeAccepted c = true /\
                   exists attrs children, c = XMLElement n attrs children)
         (XML.Elements n cs).
Proof.
  intros H. rewrite forallb_forall in H.
  apply List.Forall_forall. intros c Hc.
  unfold XML.Elements in Hc. apply filter_In in Hc. destruct Hc as [Hin Hn].
  split; [apply H, Hin | apply named_inv, Hn].
Qed.

Lemma ChildElements_accepted (e : XMLNode) (n : string) :
  treeAccepted e = true ->
  Forall (fun c => treeAccepted c = true /\
                   exists attrs children, c = XMLElement n attrs children)
         (XML.ChildElements e n).
Proof.
  intros He. apply Elements_accepted.
  apply forallb_forall. intros c Hc. eapply treeAccepted_child; eassumption.
Qed.

Lemma find_accepted (n : string) (xml : XMLDocument) (root : XMLNode) :
  forallb treeAccepted xml = true -> List.find (XML.named n) xml = Some root ->
  treeAccepted root = true.
Proof.
  intros H Hf. apply find_some in Hf. destruct Hf as [Hin _].
  rewrite forallb_forall in H. apply H, Hin.
Qed.

(** The attribute of [e] or of the first child named [n] of [e] that a
    conversion reads is accepted. *)
Lemma attribute_accepted (f : option string -> bool) (e : XMLNode) (n a : string) :
  (forall attrs children,
     nodeAccepted (XMLElement n attrs children) = true ->
     f (XML.Attribute (XMLElement n attrs children) a) = true) ->
  f None = true ->
  treeAccepted e = true ->
  f (match XML.FirstChildElement e n with
     | Some x => XML.Attribute x a
     | None => None
     end) = true.
Proof.
  intros Hf Hnone He.
  destruct (XML.FirstChildElement e n) as [c|] eqn:Hc; [|assumption].
  apply FirstChildElement_accepted in Hc; [|assumption].
  destruct Hc as [Hacc (attrs & children & ->)].
  apply Hf, treeAccepted_node, Hacc.
Qed.

(** Solve the side conditions of [attribute_accepted] by evaluating
    [nodeAccepted] on an element of a known name. *)
Ltac accepted_attribute :=
  apply attribute_accepted;
  [ let H := fresh in
    intros ? ? H; cbn in H;
    repeat (apply andb_true_iff in H; destruct H as [H ?]); assumption
  | reflexivity
  | assumption ].

Lemma stof_over_ok (d : Z) (o : option string) (old : F32.float) :
  stofAccepts o = true -> exists x, stof_over d o old = Ok x.
Proof.
  destruct o as [v|]; cbn; [|eauto].
  destruct (F32.stof v); [cbn; eauto | discriminate].
Qed.

Lemma color_of_ok (o : option string) (old : Color.t) :
  colorAccepts o = true -> exists c, color_of o old = Ok c.
Proof.
  destruct o as [v|]; cbn; [|eauto].
  destruct (Color.of_hex v); [eauto | discriminate].
Qed.

(** Run one conversion of a sequence that is known to be accepted. *)
Ltac step_ok lemma :=
  match goal with
  | |- exists r, exc_bind ?m _ = Ok r =>
      let x := fresh "x" in let Hx := fresh "Hx" in
      assert (exists x, m = Ok x) as [x Hx];
      [ apply lemma | rewrite Hx; cbn [exc_bind] ]
  end.

Lemma readTab_ok (tab : XMLNode) :
  (treeAccepted tab = true /\
   exists attrs children, tab = XMLElement "w:tab" attrs children) ->
  exists t, readTab tab = Ok t.
Proof.
  intros [Hacc (attrs & children & ->)]. unfold readTab.
  step_ok stof_over_ok.
  { apply treeAccepted_node in Hacc. cbn in Hacc. exact Hacc. }
  eauto.
Qed.

Lemma readTabs_ok (elems : list XMLNode) :
  Forall (fun c => treeAccepted c = true /\
                   exists attrs children, c = XMLElement "w:tab" attrs children)
         elems ->
  forall tabs, exists tabs', readTabs elems tabs = Ok tabs'.
Proof.
  induction 1 as [|tab elems Htab _ IH]; intros tabs; cbn [readTabs]; [eauto|].
  destruct (readTab_ok tab Htab) as [t Ht]. rewrite Ht. cbn [exc_bind].
  apply IH.
Qed.

Lemma tabs_ok (e : XMLNode) (old init : list Tab.t) :
  treeAccepted e = true ->
  exists tabs',
    match XML.FirstChildElement e "w:tabs" with
    | Some tabs => readTabs (XML.ChildElements tabs "w:tab") init
    | None => Ok old
    end = Ok tabs'.
Proof.
  intros He.
  destruct (XML.FirstChildElement e "w:tabs") as [tabs|] eqn:Htabs; [|eauto].
  apply FirstChildElement_accepted in Htabs; [|assumption].
  destruct Htabs as [Hacc _].
  apply readTabs_ok, ChildElements_accepted, Hacc.
Qed.

Lemma styleRunProps_ok (rPr : XMLNode) (st : Style.t) :
  treeAccepted rPr = true -> exists st', styleRunProps rPr st = Ok st'.
Proof.
  intros H. unfold styleRunProps, XML.ChildAttribute.
  step_ok color_of_ok; [accepted_attribute|].
  step_ok color_of_ok; [accepted_attribute|].
  step_ok stof_over_ok; [accepted_attribute|].
  eauto.
Qed.

Lemma styleParaProps_ok (pPr : XMLNode) (st : Style.t) :
  treeAccepted pPr = true -> exists st', styleParaProps pPr st = Ok st'.
Proof.
  intros H. unfold styleParaProps. cbv beta zeta.
  do 6 (step_ok stof_over_ok; [accepted_attribute|]).
  step_ok tabs_ok; [assumption|].
  eauto.
Qed.

Lemma parseStyle_ok (s : XMLNode) :
  treeAccepted s = true -> exists st, parseStyle s = Ok st.
Proof.
  intros H. unfold parseStyle. cbv zeta.
  match goal with
  | |- exists st, exc_bind ?m _ = Ok st =>
      assert (exists x, m = Ok x) as [x Hx]
  end.
  { destruct (XML.FirstChildElement s "w:rPr") as [rPr|] eqn:HrPr; [|eauto].
    apply FirstChildElement_accepted in HrPr; [|assumption].
    apply styleRunProps_ok, HrPr. }
  rewrite Hx. cbn [exc_bind].
  destruct (XML.FirstChildElement s "w:pPr") as [pPr|] eqn:HpPr; [|eauto].
  apply FirstChildElement_accepted in HpPr; [|assumption].
  apply styleParaProps_ok, HpPr.
Qed.

Lemma parseStyles_loop_ok (elems : list XMLNode) :
  Forall (fun c => treeAccepted c = true /\
                   exists attrs children, c = XMLElement "w:style" attrs children)
         elems ->
  forall map : StyleMap, exists styles, parseStyles_loop elems map = Ok styles.
Proof.
  induction 1 as [|s elems [Hs _] _ IH]; intros map; cbn [parseStyles_loop];
    [eauto|].
  destruct (XML.Attribute s "w:styleId") as [id|]; [|apply IH].
  destruct (parseStyle_ok s Hs) as [st Hst]. rewrite Hst. cbn [exc_bind].
  apply IH.
Qed.

Lemma parseStyles_ok (xml : XMLDocument) :
  forallb treeAccepted xml = true -> exists styles, parseStyles xml = Ok styles.
Proof.
  intros H. unfold parseStyles.
  destruct (find (XML.named "w:styles") xml) as [root|] eqn:Hroot; [|eauto].
  apply parseStyles_loop_ok, ChildElements_accepted.
  eapply find_accepted; eassumption.
Qed.

Lemma directParagraphProps_ok (pPr : XMLNode) (para : Paragraph.t) :
  treeAccepted pPr = true -> exists para', directParagraphProps pPr para = Ok para'.
Proof.
  intros H. unfold directParagraphProps. cbv beta zeta.
  do 6 (step_ok stof_over_ok; [accepted_attribute|]).
  step_ok tabs_ok; [assumption|].
  eauto.
Qed.

Lemma directRunProps_ok (rPr : XMLNode) (run : Run.t) :
  treeAccepted rPr = true -> exists run', directRunProps rPr run = Ok run'.
Proof.
  intros H. unfold directRunProps, XML.ChildAttribute.
  step_ok color_of_ok; [accepted_attribute|].
  step_ok color_of_ok; [accepted_attribute|].
  step_ok stof_over_ok; [accepted_attribute|].
  eauto.
Qed.

Lemma bind_returns {A B : Type} (m : M A) (k : A -> M B) (cache : StyleMap) :
  (exists a cache1, m cache = Done a cache1) ->
  (forall a cache1, exists b cache2, k a cache1 = Done b cache2) ->
  exists b cache2, bind m k cache = Done b cache2.
Proof.
  intros (a & cache1 & Hm) Hk. unfold bind. rewrite Hm. apply Hk.
Qed.

Lemma liftE_returns {A : Type} (m : exc A) (cache : StyleMap) :
  (exists a, m = Ok a) -> exists a cache', liftE m cache = Done a cache'.
Proof. intros [a ->]. cbn. eauto. Qed.

Lemma ret_returns {A : Type} (a : A) (cache : StyleMap) :
  exists b cache', ret a cache = Done b cache'.
Proof. unfold ret. eauto. Qed.

Lemma endsWithin_mono (styles : StyleMap) :
  forall n m id, (n <= m)%nat ->
  endsWithin n styles id = true -> endsWithin m styles id = true.
Proof.
  induction n as [|n IH]; intros m id Hle H; [discriminate|].
  destruct m as [|m]; [lia|]. cbn [endsWithin] in *.
  destruct (empty id); [reflexivity|]. cbn [orb] in *.
  destruct (styles !! id) as [cur|]; [|reflexivity].
  destruct (empty (Style.basedOn cur)); [reflexivity|]. cbn [orb] in *.
  apply IH with (m := m) in H; [assumption | lia].
Qed.

(** A recursion budget of the length of the chain is enough, whatever the
    cache holds. *)
Lemma mergeStyleCached_within (styles : StyleMap) :
  forall n id, endsWithin n styles id = true ->
  forall fuel, (n <= fuel)%nat ->
  forall cache : StyleMap, exists merged cache',
    mergeStyleCached fuel styles id cache = Done merged cache'.
Proof.
  induction n as [|n IH]; intros id H fuel Hle cache; [discriminate|].
  destruct fuel as [|fuel]; [lia|].
  rewrite mergeStyleCached_S. cbn [endsWithin] in H.
  destruct (empty id); [eauto|]. cbn [orb] in H.
  destruct (cache !! id); [eauto|].
  destruct (styles !! id) as [cur|]; [|eauto].
  destruct (empty (Style.basedOn cur)); cbn [negb orb] in *; [eauto|].
  destruct (IH _ H fuel ltac:(lia) cache) as (base & cache' & ->). eauto.
Qed.

Section Returns.

Variable fuel : nat.
Variable styles : StyleMap.
Hypothesis resolves :
  forall id (cache : StyleMap), exists merged cache',
    mergeStyleCached fuel styles id cache = Done merged cache'.

Lemma readRun_returns (r : XMLNode) pStyleId (cache : StyleMap) :
  treeAccepted r = true ->
  exists run cache', readRun fuel r styles pStyleId cache = Done run cache'.
Proof.
  intros Hr. unfold readRun.
  destruct (footnoteReference r) as [[fr idAttr]|]; [apply ret_returns|].
  destruct (XML.FirstChildElement r "w:rPr") as [rPr|] eqn:HrPr;
    [|apply ret_returns].
  apply FirstChildElement_accepted in HrPr; [|assumption].
  apply bind_returns; [apply resolves|].
  intros rStyle cache1. apply liftE_returns, directRunProps_ok, HrPr.
Qed.

Lemma readRuns_returns pStyleId (elems : list XMLNode) :
  Forall (fun r => treeAccepted r = true) elems ->
  forall cache : StyleMap, exists runs cache',
    readRuns fuel elems styles pStyleId cache = Done runs cache'.
Proof.
  induction 1 as [|r elems Hr _ IH]; intros cache; cbn [readRuns];
    [apply ret_returns|].
  apply bind_returns; [apply readRun_returns, Hr|]. intros run cache1.
  apply bind_returns; [apply IH|]. intros runs cache2. apply ret_returns.
Qed.

Lemma accepted_children (e : XMLNode) (n : string) :
  treeAccepted e = true ->
  Forall (fun c => treeAccepted c = true) (XML.ChildElements e n).
Proof.
  intros He. eapply Forall_impl; [apply ChildElements_accepted, He|].
  cbn. tauto.
Qed.

Lemma paragraphProps_returns (p : XMLNode) (cache : StyleMap) :
  treeAccepted p = true ->
  exists para cache', paragraphProps fuel p styles cache = Done para cache'.
Proof.
  intros Hp. unfold paragraphProps. cbv zeta.
  destruct (XML.FirstChildElement p "w:pPr") as [pPr|] eqn:HpPr;
    [|apply ret_returns].
  apply FirstChildElement_accepted in HpPr; [|assumption].
  apply bind_returns; [apply resolves|].
  intros paraStyle cache1. apply liftE_returns, directParagraphProps_ok, HpPr.
Qed.

Lemma readParagraph_returns (p : XMLNode) (cache : StyleMap) :
  treeAccepted p = true ->
  exists para cache', readParagraph fuel p styles cache = Done para cache'.
Proof.
  intros Hp. unfold readParagraph.
  apply bind_returns; [apply paragraphProps_returns, Hp|]. intros para cache1.
  cbv zeta.
  apply bind_returns; [apply resolves|]. intros paraStyle cache2.
  apply bind_returns; [apply readRuns_returns, accepted_children, Hp|].
  intros runs cache3. apply ret_returns.
Qed.

Lemma readParagraphs_returns (elems : list XMLNode) :
  Forall (fun p => treeAccepted p = true) elems ->
  forall cache : StyleMap, exists paras cache',
    readParagraphs fuel elems styles cache = Done paras cache'.
Proof.
  induction 1 as [|p elems Hp _ IH]; intros cache; cbn [readParagraphs];
    [apply ret_returns|].
  apply bind_returns; [apply readParagraph_returns, Hp|]. intros para cache1.
  apply bind_returns; [apply IH|]. intros paras cache2. apply ret_returns.
Qed.

Lemma parseNotes_loop_returns (elems : list XMLNode) :
  Forall (fun fn => treeAccepted fn = true) elems ->
  forall (map : gmap Z Note.t) (cache : StyleMap), exists map' cache',
    parseNotes_loop fuel elems styles map cache = Done map' cache'.
Proof.
  induction 1 as [|fn elems Hfn _ IH]; intros map cache;
    cbn [parseNotes_loop]; [apply ret_returns|].
  destruct (XML.Attribute fn "w:id") as [idAttr|]; [|apply IH].
  destruct (isSeparator (XML.Attribute fn "w:type")); [apply IH|].
  apply bind_returns;
    [apply readParagraphs_returns, accepted_children, Hfn|].
  intros paragraphs cache1. apply IH.
Qed.

Lemma parseNotes_returns rootName noteName (xml : XMLDocument) (cache : StyleMap) :
  forallb treeAccepted xml = true ->
  exists map cache',
    parseNotes rootName noteName fuel xml styles cache = Done map cache'.
Proof.
  intros H. unfold parseNotes.
  destruct (find (XML.named rootName) xml) as [root|] eqn:Hroot;
    [|apply ret_returns].
  apply parseNotes_loop_returns, accepted_children.
  eapply find_accepted; eassumption.
Qed.

Lemma parseMainDocument_returns (xml : XMLDocument) (cache : StyleMap) :
  forallb treeAccepted xml = true ->
  exists paras cache', parseMainDocument fuel xml styles cache = Done paras cache'.
Proof.
  intros H. unfold parseMainDocument.
  destruct (find (XML.named "w:document") xml) as [root|] eqn:Hroot;
    [|apply ret_returns].
  apply find_accepted in Hroot; [|assumption].
  destruct (XML.FirstChildElement root "w:body") as [body|] eqn:Hbody;
    [|apply ret_returns].
  apply FirstChildElement_accepted in Hbody; [|assumption].
  apply readParagraphs_returns, accepted_children, Hbody.
Qed.

End Returns.

Lemma accepted_entry (fileData : FileData) (name : string) :
  accepted fileData = true -> forallb treeAccepted (entry fileData name) = true.
Proof.
  unfold accepted, entry. intros H.
  destruct (fileData !! name) as [xml|] eqn:Hxml; [|reflexivity].
  rewrite forallb_forall in H.
  apply (H (name, xml)), list_elem_of_In, elem_of_map_to_list, Hxml.
Qed.

Lemma chainsWithin_resolves (n : nat) (fileData : FileData) (styles : StyleMap)
  (fuel : nat) :
  chainsWithin n fileData = true ->
  parseStyles (entry fileData "word/styles.xml") = Ok styles ->
  (0 < fuel)%nat -> (n <= fuel)%nat ->
  forall id (cache : StyleMap), exists merged cache',
    mergeStyleCached fuel styles id cache = Done merged cache'.
Proof.
  unfold chainsWithin. intros H Hparse Hpos Hle id cache. rewrite Hparse in H.
  rewrite forallb_forall in H.
  destruct (styles !! id) as [cur|] eqn:Hid.
  - apply mergeStyleCached_within with (n := n); [|assumption].
    apply (H (id, cur)), list_elem_of_In, elem_of_map_to_list, Hid.
  - apply mergeStyleCached_within with (n := 1%nat); [|lia].
    cbn [endsWithin]. rewrite Hid. apply orb_true_r.
Qed.

Lemma parseAll_returns (fileData : FileData) (n fuel : nat) (cache : StyleMap) :
  accepted fileData = true -> chainsWithin n fileData = true ->
  (0 < fuel)%nat -> (n <= fuel)%nat ->
  exists doc cache', parseAll fuel fileData cache = Done doc cache'.
Proof.
  intros Hacc Hchains Hpos Hle.
  destruct (parseStyles_ok _ (accepted_entry fileData "word/styles.xml" Hacc))
    as [styles Hstyles].
  pose proof (chainsWithin_resolves n fileData styles fuel Hchains Hstyles Hpos Hle)
    as Hres.
  unfold parseAll, parseFootnotes, parseEndnotes, bind.
  rewrite Hstyles. cbn [liftE].
  destruct (parseNotes_returns fuel styles Hres "w:footnotes" "w:footnote"
              (entry fileData "word/footnotes.xml") cache
              (accepted_entry _ _ Hacc)) as (footnotes & cache2 & ->).
  destruct (parseNotes_returns fuel styles Hres "w:endnotes" "w:endnote"
              (entry fileData "word/endnotes.xml") cache2
              (accepted_entry _ _ Hacc)) as (endnotes & cache3 & ->).
  destruct (parseMainDocument_returns fuel styles Hres
              (entry fileData "word/document.xml") cache3
              (accepted_entry _ _ Hacc)) as (paragraphs & cache4 & ->).
  unfold ret. eauto.
Qed.

(** C2, counterexample: a style whose [w:sz] is not a number makes
    [std::stof] throw [std::invalid_argument] in [parseStyles], and a run
    whose [w:color] is not hexadecimal makes [std::stoi] throw it in
    [Color(hex)]; nothing catches the exception, which leaves both entry
    points: no document is returned, whatever the recursion budget and the
    cache. *)
Lemma C2_malformed_attribute_raises :
  readDocument 1 Inputs.malformedSize ∅ = Raised invalid_argument /\
  readDocumentFromMemory 1 Inputs.malformedSize ∅ = Raised invalid_argument /\
  readDocumentFromMemory 1 Inputs.malformedColor ∅ = Raised invalid_argument /\
  ~ (exists fuel cache doc cache',
       readDocument fuel Inputs.malformedSize cache = Done doc cache' \/
       readDocumentFromMemory fuel Inputs.malformedSize cache = Done doc cache').
Proof.
  split; [vm_compute; reflexivity|].
  split; [vm_compute; reflexivity|].
  split; [vm_compute; reflexivity|].
  assert (Hthrow : parseStyles (entry Inputs.malformedSize "word/styles.xml")
                   = Throw invalid_argument) by (vm_compute; reflexivity).
  intros (fuel & cache & doc & cache' & [H|H]).
  - unfold readDocument in H. inv_done.
    replace (size Inputs.malformedSize) with 2%nat in Hk
      by (vm_compute; reflexivity).
    unfold parseAll in Hk. inv_done. congruence.
  - unfold readDocumentFromMemory, parseAll in H. inv_done. congruence.
Qed.

(** C2, amended: when every numeric attribute that the reader converts is
    accepted by [std::stof], every colour attribute by [Color(hex)], and no
    [basedOn] chain of the parsed styles is longer than [n], both entry
    points return a document for every recursion budget of at least [n]
    (and at least 1), whatever the cache held before: no exception escapes
    and the recursion ends. *)
Theorem C2_entry_points_return_on_accepted_input (fileData : FileData)
  (n fuel : nat) (cache : StyleMap) :
  accepted fileData = true ->
  chainsWithin n fileData = true ->
  (0 < fuel)%nat -> (n <= fuel)%nat ->
  (exists doc cache', readDocument fuel fileData cache = Done doc cache') /\
  (exists doc cache', readDocumentFromMemory fuel fileData cache = Done doc cache').
Proof.
  intros Hacc Hchains Hpos Hle.
  unfold readDocument, readDocumentFromMemory, bind, cache_clear.
  split.
  - destruct (size fileData); [apply ret_returns|].
    eapply parseAll_returns; eassumption.
  - eapply parseAll_returns; eassumption.
Qed.

Lemma C2_witness :
  (exists doc cache',
     readDocument 1 Inputs.withEmptyProps ∅ = Done doc cache') /\
  (exists doc cache',
     readDocumentFromMemory 1 Inputs.withEmptyProps ∅ = Done doc cache').
Proof.
  apply (C2_entry_points_return_on_accepted_input Inputs.withEmptyProps 1 1 ∅).
  - vm_compute. reflexivity.
  - vm_compute. reflexivity.
  - lia.
  - lia.
Defined.

(** ** Inheritance along the chain of a style *)

Lemma resolve_mono fuel : forall (styles : StyleMap) id merged fuel',
  resolve fuel styles id = Some merged -> (fuel <= fuel')%nat ->
  resolve fuel' styles id = Some merged.
Proof.
  induction fuel as [|fuel IH]; intros styles id merged fuel' H Hle;
    [discriminate|].
  destruct fuel' as [|fuel']; [lia|].
  cbn [resolve] in *.
  destruct (empty id); [assumption|].
  destruct (styles !! id) as [cur|]; [|assumption].
  destruct (negb (empty (Style.basedOn cur))); [|assumption].
  destruct (resolve fuel styles (Style.basedOn cur)) as [base|] eqn:Hbase;
    [|discriminate].
  rewrite (IH _ _ _ fuel' Hbase) by lia. assumption.
Qed.

(** The merge of an id is unique. *)
Lemma resolve_unique (styles : StyleMap) id fuel1 fuel2 merged1 merged2 :
  resolve fuel1 styles id = Some merged1 ->
  resolve fuel2 styles id = Some merged2 -> merged1 = merged2.
Proof.
  intros H1 H2.
  apply resolve_mono with (fuel' := Nat.max fuel1 fuel2) in H1; [|lia].
  apply resolve_mono with (fuel' := Nat.max fuel1 fuel2) in H2; [|lia].
  congruence.
Qed.

(** The merge of an id is the overlay of the styles of its chain, from the
    far end, on the default style. *)
Lemma resolve_chain fuel : forall (styles : StyleMap) id merged,
  resolve fuel styles id = Some merged ->
  exists l, chain fuel styles id = Some l /\
            merged = fold_right overlay Style.default l.
Proof.
  induction fuel as [|fuel IH]; intros styles id merged H; [discriminate|].
  cbn [resolve chain] in *.
  destruct (empty id).
  { inversion H. exists []. auto. }
  destruct (styles !! id) as [cur|].
  2: { inversion H. exists []. auto. }
  destruct (negb (empty (Style.basedOn cur))).
  - destruct (resolve fuel styles (Style.basedOn cur)) as [base|] eqn:Hbase;
      [|discriminate].
    destruct (IH _ _ _ Hbase) as (rest & -> & ->).
    inversion H. exists (cur :: rest). auto.
  - inversion H. exists [cur]. auto.
Qed.

(** What [mergeStyleCached] returns on a cache of merged styles is the
    overlay of the styles of the chain. *)
Lemma mergeStyleCached_fold fuel (styles cache : StyleMap) id merged cache' :
  Consistent styles cache ->
  mergeStyleCached fuel styles id cache = Done merged cache' ->
  exists fuel0 l, chain fuel0 styles id = Some l /\
                  merged = fold_right overlay Style.default l.
Proof.
  intros Hcons H.
  destruct (mergeStyleCached_consistent _ _ _ _ _ _ Hcons H) as [[fuel0 Hres] _].
  destruct (resolve_chain _ _ _ _ Hres) as (l & Hl & ->). eauto.
Qed.

Lemma flag_overlay (flag : Style.t -> bool) (cur base : Style.t) :
  In flag flags -> flag (overlay cur base) = flag cur || flag base.
Proof.
  unfold flags. cbn [In].
  intros H; repeat (destruct H as [<-|H]; [reflexivity|]); contradiction.
Qed.

Lemma flag_default (flag : Style.t -> bool) :
  In flag flags -> flag Style.default = false.
Proof.
  unfold flags. cbn [In].
  intros H; repeat (destruct H as [<-|H]; [reflexivity|]); contradiction.
Qed.

Lemma flag_fold (flag : Style.t -> bool) (l : list Style.t) :
  In flag flags -> flag (fold_right overlay Style.default l) = existsb flag l.
Proof.
  intros Hflag. induction l as [|cur l IH]; cbn [fold_right existsb].
  - apply flag_default, Hflag.
  - rewrite flag_overlay, IH by assumption. reflexivity.
Qed.

(** X7: a boolean field of the merged style is set exactly when a style of the
    chain sets it: a style cannot turn off what it inherits. *)
Theorem flags_are_inherited fuel (styles cache : StyleMap) id merged cache'
  (flag : Style.t -> bool) :
  Consistent styles cache ->
  mergeStyleCached fuel styles id cache = Done merged cache' ->
  In flag flags ->
  exists fuel0 l, chain fuel0 styles id = Some l /\
                  flag merged = existsb flag l.
Proof.
  intros Hcons H Hflag.
  destruct (mergeStyleCached_fold _ _ _ _ _ _ Hcons H) as (fuel0 & l & Hl & ->).
  exists fuel0, l. split; [assumption | apply flag_fold, Hflag].
Qed.

Lemma flags_witness :
  exists merged cache' fuel0 l,
    mergeStyleCached 2 Chain.styles "A" ∅ = Done merged cache' /\
    chain fuel0 Chain.styles "A" = Some l /\
    Style.bold merged = existsb Style.bold l.
Proof.
  eexists _, _.
  assert (H : mergeStyleCached 2 Chain.styles "A" ∅ = Done _ _)
    by (vm_compute; reflexivity).
  destruct (flags_are_inherited 2 Chain.styles ∅ "A" _ _ Style.bold
              (Consistent_empty Chain.styles) H ltac:(cbn; auto))
    as (fuel0 & l & Hl & Hbold).
  exists fuel0, l. split; [exact H|]. split; [exact Hl | exact Hbold].
Defined.

Lemma nearest_fold {A : Type} (isSet : Style.t -> bool) (field : Style.t -> A) :
  (forall cur base,
     field (overlay cur base) = if isSet cur then field cur else field base) ->
  forall l, field (fold_right overlay Style.default l) = nearest isSet field l.
Proof.
  intros Hoverlay l. unfold nearest.
  induction l as [|cur l IH]; cbn [fold_right find]; [reflexivity|].
  rewrite Hoverlay, IH. destruct (isSet cur); reflexivity.
Qed.

(** X6: each valued field of the merged style is the one of the nearest style
    of the chain that sets it (a non-default colour, a non-empty string, a
    strictly positive number, a justification other than left), and the
    default value when no style of the chain does. *)
Theorem nearest_definition_wins fuel (styles cache : StyleMap) id merged cache' :
  Consistent styles cache ->
  mergeStyleCached fuel styles id cache = Done merged cache' ->
  exists fuel0 l,
    chain fuel0 styles id = Some l /\
    Style.color merged =
      nearest (fun s => negb (Color.empty (Style.color s))) Style.color l /\
    Style.backColor merged =
      nearest (fun s => negb (Color.empty (Style.backColor s))) Style.backColor l /\
    Style.fontFamily merged =
      nearest (fun s => negb (empty (Style.fontFamily s))) Style.fontFamily l /\
    Style.fontSize merged =
      nearest (fun s => positive (Style.fontSize s)) Style.fontSize l /\
    Style.level merged = nearest (fun s => 0 <? Style.level s) Style.level l /\
    Style.numberFormat merged =
      nearest (fun s => negb (empty (Style.numberFormat s))) Style.numberFormat l /\
    Style.numberStyle merged =
      nearest (fun s => negb (empty (Style.numberStyle s))) Style.numberStyle l /\
    Style.lineSpacing merged =
      nearest (fun s => positive (Style.lineSpacing s)) Style.lineSpacing l /\
    Style.spaceBefore merged =
      nearest (fun s => positive (Style.spaceBefore s)) Style.spaceBefore l /\
    Style.spaceAfter merged =
      nearest (fun s => positive (Style.spaceAfter s)) Style.spaceAfter l /\
    Style.justification merged =
      nearest (fun s => negb (Justification.is_Left (Style.justification s)))
              Style.justification l /\
    Style.indentLeft merged =
      nearest (fun s => positive (Style.indentLeft s)) Style.indentLeft l /\
    Style.indentRight merged =
      nearest (fun s => positive (Style.indentRight s)) Style.indentRight l /\
    Style.indentFirstLine merged =
      nearest (fun s => positive (Style.indentFirstLine s)) Style.indentFirstLine l.
Proof.
  intros Hcons H.
  destruct (mergeStyleCached_fold _ _ _ _ _ _ Hcons H) as (fuel0 & l & Hl & ->).
  exists fuel0, l. split; [assumption|].
  repeat split; apply nearest_fold; reflexivity.
Qed.

Lemma nearest_witness :
  exists merged cache' fuel0 l,
    mergeStyleCached 2 Chain.styles "A" ∅ = Done merged cache' /\
    chain fuel0 Chain.styles "A" = Some l /\
    Style.fontFamily merged =
      nearest (fun s => negb (empty (Style.fontFamily s))) Style.fontFamily l.
Proof.
  eexists _, _.
  assert (H : mergeStyleCached 2 Chain.styles "A" ∅ = Done _ _)
    by (vm_compute; reflexivity).
  destruct (nearest_definition_wins 2 Chain.styles ∅ "A" _ _
              (Consistent_empty Chain.styles) H)
    as (fuel0 & l & Hl & _ & _ & Hfont & _).
  exists fuel0, l. split; [exact H|]. split; [exact Hl | exact Hfont].
Defined.

Lemma tabs_overlay (cur base : Style.t) :
  Style.tabs (overlay cur base) = Style.tabs base ++ Style.tabs cur.
Proof.
  cbn. destruct (Style.tabs cur); [symmetry; apply app_nil_r | reflexivity].
Qed.

(** X8: the tab stops of the merged style are those of all the styles of the
    chain, the ones of the far end first: a style adds tab stops to the
    inherited ones and never replaces them. *)
Theorem tabs_accumulate fuel (styles cache : StyleMap) id merged cache' :
  Consistent styles cache ->
  mergeStyleCached fuel styles id cache = Done merged cache' ->
  exists fuel0 l,
    chain fuel0 styles id = Some l /\
    Style.tabs merged = concat (map Style.tabs (rev l)).
Proof.
  intros Hcons H.
  destruct (mergeStyleCached_fold _ _ _ _ _ _ Hcons H) as (fuel0 & l & Hl & ->).
  exists fuel0, l. split; [assumption|]. clear.
  induction l as [|cur l IH]; [reflexivity|].
  cbn [fold_right rev]. rewrite tabs_overlay, IH, map_app, concat_app.
  cbn. rewrite app_nil_r. reflexivity.
Qed.

Lemma tabs_witness :
  exists merged cache' fuel0 l,
    mergeStyleCached 2 Chain.styles "A" ∅ = Done merged cache' /\
    chain fuel0 Chain.styles "A" = Some l /\
    Style.tabs merged = concat (map Style.tabs (rev l)).
Proof.
  eexists _, _.
  assert (H : mergeStyleCached 2 Chain.styles "A" ∅ = Done _ _)
    by (vm_compute; reflexivity).
  destruct (tabs_accumulate 2 Chain.styles ∅ "A" _ _ (Consistent_empty Chain.styles) H)
    as (fuel0 & l & Hl & Htabs).
  exists fuel0, l. split; [exact H|]. split; [exact Hl | exact Htabs].
Defined.

(** X9: the merged style names no base and has no style type: neither
    [basedOn] nor a [styleType] read from [w:type] is copied from the
    styles of the chain. *)
Theorem merged_style_has_no_base_and_no_type fuel (styles cache : StyleMap) id
  merged cache' :
  Consistent styles cache ->
  mergeStyleCached fuel styles id cache = Done merged cache' ->
  Style.basedOn merged = "" /\ Style.styleType merged = None.
Proof.
  intros Hcons H.
  destruct (mergeStyleCached_fold _ _ _ _ _ _ Hcons H) as (fuel0 & l & _ & ->).
  clear. induction l as [|cur l [IHb IHt]]; [split; reflexivity|].
  cbn [fold_right]. split; cbn.
  - exact IHb.
  - rewrite IHt. destruct (Style.styleType cur); reflexivity.
Qed.

Lemma no_base_witness :
  exists merged cache',
    mergeStyleCached 2 Chain.styles "A" ∅ = Done merged cache' /\
    Style.basedOn merged = "" /\ Style.styleType merged = None.
Proof.
  eexists _, _. split; [vm_compute; reflexivity|].
  eapply (merged_style_has_no_base_and_no_type 2 Chain.styles ∅ "A" _ _
            (Consistent_empty Chain.styles)).
  vm_compute. reflexivity.
Defined.

Lemma lineSpacing_fold_positive (l : list Style.t) :
  positive (Style.lineSpacing (fold_right overlay Style.default l)) = true.
Proof.
  induction l as [|cur l IH]; [reflexivity|].
  cbn [fold_right overlay Style.lineSpacing].
  fold (positive (Style.lineSpacing cur)).
  destruct (positive (Style.lineSpacing cur)) eqn:Hcur; assumption.
Qed.

(** X10: the line spacing of the merged style is strictly positive, whatever
    the styles of the chain say: a spacing that is not strictly positive
    never replaces the inherited one, and the default is 1. *)
Theorem merged_line_spacing_is_positive fuel (styles cache : StyleMap) id
  merged cache' :
  Consistent styles cache ->
  mergeStyleCached fuel styles id cache = Done merged cache' ->
  positive (Style.lineSpacing merged) = true.
Proof.
  intros Hcons H.
  destruct (mergeStyleCached_fold _ _ _ _ _ _ Hcons H) as (fuel0 & l & _ & ->).
  apply lineSpacing_fold_positive.
Qed.

Lemma line_spacing_witness :
  exists merged cache',
    mergeStyleCached 2 Chain.styles "A" ∅ = Done merged cache' /\
    positive (Style.lineSpacing merged) = true.
Proof.
  eexists _, _. split; [vm_compute; reflexivity|].
  eapply (merged_line_spacing_is_positive 2 Chain.styles ∅ "A" _ _
            (Consistent_empty Chain.styles)).
  vm_compute. reflexivity.
Defined.

(** ** The cache is an optimisation *)

(** X11: [mergeStyleCached] adds entries to the cache; it never changes or
    removes one. *)
Theorem mergeStyleCached_cache_grows fuel : forall (styles cache : StyleMap) id
  merged cache',
  mergeStyleCached fuel styles id cache = Done merged cache' ->
  cache ⊆ cache'.
Proof.
  induction fuel as [|fuel IH]; intros styles cache id merged cache' H;
    [discriminate|].
  rewrite mergeStyleCached_S in H.
  destruct (empty id); [inversion H; reflexivity|].
  destruct (cache !! id) as [m|] eqn:Hc; [inversion H; reflexivity|].
  destruct (styles !! id) as [cur|].
  2: { inversion H. apply insert_subseteq, Hc. }
  destruct (negb (empty (Style.basedOn cur))).
  - destruct (mergeStyleCached fuel styles (Style.basedOn cur) cache)
      as [base c| |] eqn:Hrec; try discriminate.
    inversion H. apply insert_subseteq_r; [exact Hc|]. eapply IH, Hrec.
  - inversion H. apply insert_subseteq, Hc.
Qed.

Lemma cache_grows_witness :
  exists merged cache',
    mergeStyleCached 2 Chain.styles "A" ∅ = Done merged cache' /\ ∅ ⊆ cache'.
Proof.
  eexists _, _.
  assert (H : mergeStyleCached 2 Chain.styles "A" ∅ = Done _ _)
    by (vm_compute; reflexivity).
  split; [exact H|].
  exact (mergeStyleCached_cache_grows 2 Chain.styles ∅ "A" _ _ H).
Defined.

Lemma mergeStyleCached_mono (styles : StyleMap) id :
  Mono (fun n => mergeStyleCached n styles id).
Proof.
  intros n. revert id.
  induction n as [|n IH]; intros id n' cache a cache' H Hle; [discriminate|].
  destruct n' as [|n']; [lia|].
  rewrite mergeStyleCached_S in *.
  destruct (empty id); [assumption|].
  destruct (cache !! id); [assumption|].
  destruct (styles !! id) as [cur|]; [|assumption].
  destruct (negb (empty (Style.basedOn cur))); [|assumption].
  destruct (mergeStyleCached n styles (Style.basedOn cur) cache)
    as [base c| |] eqn:Hrec; try discriminate.
  rewrite (IH _ n' _ _ _ Hrec) by lia. assumption.
Qed.

(** On a cache of merged styles, [mergeStyleCached] returns the merge of
    the id whenever the merge without a cache exists, with the same
    recursion budget. *)
Lemma resolve_mergeStyleCached fuel : forall (styles cache : StyleMap) id merged,
  Consistent styles cache ->
  resolve fuel styles id = Some merged ->
  exists cache', mergeStyleCached fuel styles id cache = Done merged cache'.
Proof.
  induction fuel as [|fuel IH]; intros styles cache id merged Hcons H;
    [discriminate|].
  rewrite mergeStyleCached_S.
  destruct (cache !! id) as [m|] eqn:Hc.
  { destruct (Hcons _ _ Hc) as [fuel0 Hm].
    rewrite (resolve_unique _ _ _ _ _ _ Hm H).
    destruct (empty id) eqn:Hid; [|eauto].
    cbn [resolve] in H. rewrite Hid in H. inversion H. eauto. }
  cbn [resolve] in H.
  destruct (empty id); [inversion H; eauto|].
  destruct (styles !! id) as [cur|]; [|inversion H; eauto].
  destruct (negb (empty (Style.basedOn cur))); [|inversion H; eauto].
  destruct (resolve fuel styles (Style.basedOn cur)) as [base|] eqn:Hbase;
    [|discriminate].
  destruct (IH _ _ _ _ Hcons Hbase) as [c ->]. inversion H. eauto.
Qed.

(** X12: the style that [mergeStyleCached] returns does not depend on what the
    cache holds, as long as it holds merged styles only: what the call
    returns on one such cache, it returns on every other one, and returns
    nothing else there. *)
Theorem mergeStyleCached_cache_independent fuel (styles cache other : StyleMap)
  id merged cache' :
  Consistent styles cache -> Consistent styles other ->
  mergeStyleCached fuel styles id cache = Done merged cache' ->
  (exists fuel' other',
     mergeStyleCached fuel' styles id other = Done merged other') /\
  (forall fuel' merged' other',
     mergeStyleCached fuel' styles id other = Done merged' other' ->
     merged' = merged).
Proof.
  intros Hcons Hother H.
  destruct (mergeStyleCached_consistent _ _ _ _ _ _ Hcons H) as [[fuel0 Hres] _].
  split.
  - exists fuel0. eapply resolve_mergeStyleCached; eassumption.
  - intros fuel' merged' other' H'.
    destruct (mergeStyleCached_consistent _ _ _ _ _ _ Hother H')
      as [[fuel1 Hres'] _].
    eapply resolve_unique; eassumption.
Qed.

Lemma cache_independent_witness :
  exists merged cache' other,
    mergeStyleCached 2 Chain.styles "A" ∅ = Done merged cache' /\
    other <> ∅ /\
    exists fuel' other',
      mergeStyleCached fuel' Chain.styles "A" other = Done merged other'.
Proof.
  assert (H0 : exists base other,
             mergeStyleCached 1 Chain.styles "B" ∅ = Done base other)
    by (eexists _, _; vm_compute; reflexivity).
  destruct H0 as (base & other & H0).
  assert (Hne : other <> ∅).
  { intros ->. apply mergeStyleCached_stored in H0; [|discriminate].
    rewrite lookup_empty in H0. discriminate. }
  destruct (mergeStyleCached_consistent _ _ _ _ _ _
              (Consistent_empty Chain.styles) H0) as [_ Hother].
  assert (H1 : exists merged cache',
             mergeStyleCached 2 Chain.styles "A" ∅ = Done merged cache')
    by (eexists _, _; vm_compute; reflexivity).
  destruct H1 as (merged & cache' & H1).
  exists merged, cache', other. split; [exact H1|]. split; [exact Hne|].
  exact (proj1 (mergeStyleCached_cache_independent 2 Chain.styles ∅ other "A"
                  merged cache' (Consistent_empty Chain.styles) Hother H1)).
Defined.

(** *** Computations of the reader *)

Section Stable.

Variable styles : StyleMap.

Lemma Stable_ret {A : Type} (a : A) : Stable styles (fun _ => ret a).
Proof.
  split.
  - intros n n' cache b cache' H _. exact H.
  - intros n cache b cache' Hcons H. apply ret_Done in H. destruct H as [-> ->].
    split; [assumption|].
    intros other _. exists n, other. reflexivity.
Qed.

Lemma Stable_liftE {A : Type} (e : exc A) : Stable styles (fun _ => liftE e).
Proof.
  split.
  - intros n n' cache b cache' H _. exact H.
  - intros n cache b cache' Hcons H. apply liftE_Done in H. destruct H as [-> ->].
    split; [assumption|].
    intros other _. exists n, other. reflexivity.
Qed.

Lemma Stable_merge (id : string) :
  Stable styles (fun n => mergeStyleCached n styles id).
Proof.
  split; [apply mergeStyleCached_mono|].
  intros n cache merged cache' Hcons H.
  destruct (mergeStyleCached_consistent _ _ _ _ _ _ Hcons H) as [[fuel0 Hres] Hc].
  split; [assumption|].
  intros other Hother. exists fuel0.
  eapply resolve_mergeStyleCached; eassumption.
Qed.

Lemma Stable_bind {A B : Type} (m : nat -> M A) (k : A -> nat -> M B) :
  Stable styles m -> (forall a, Stable styles (k a)) ->
  Stable styles (fun n => bind (m n) (fun a => k a n)).
Proof.
  intros [Hmono Hm] Hk. split.
  - intros n n' cache b cache' H Hle.
    apply bind_Done in H. destruct H as (a & cache1 & H1 & H2).
    unfold bind. rewrite (Hmono _ _ _ _ _ H1 Hle).
    exact (proj1 (Hk a) _ _ _ _ _ H2 Hle).
  - intros n cache b cache' Hcons H.
    apply bind_Done in H. destruct H as (a & cache1 & H1 & H2).
    destruct (Hm _ _ _ _ Hcons H1) as [Hcons1 Hm'].
    destruct (proj2 (Hk a) _ _ _ _ Hcons1 H2) as [Hcons' Hk'].
    split; [assumption|].
    intros other Hother.
    destruct (Hm' _ Hother) as (n1 & other1 & Ho1).
    destruct (Hm _ _ _ _ Hother Ho1) as [Hother1 _].
    destruct (Hk' _ Hother1) as (n2 & other2 & Ho2).
    exists (Nat.max n1 n2), other2. unfold bind.
    rewrite (Hmono _ (Nat.max n1 n2) _ _ _ Ho1) by lia.
    apply (proj1 (Hk a) _ (Nat.max n1 n2) _ _ _ Ho2). lia.
Qed.

Lemma Stable_readRun (r : XMLNode) (pStyleId : string) :
  Stable styles (fun n => readRun n r styles pStyleId).
Proof.
  unfold readRun.
  destruct (footnoteReference r) as [[fr idAttr]|]; [apply Stable_ret|].
  destruct (XML.FirstChildElement r "w:rPr") as [rPr|]; [|apply Stable_ret].
  apply (Stable_bind (fun n => mergeStyleCached n styles _)
                     (fun rStyle _ => liftE _)).
  - apply Stable_merge.
  - intros rStyle. apply Stable_liftE.
Qed.

Lemma Stable_readRuns (pStyleId : string) (elems : list XMLNode) :
  Stable styles (fun n => readRuns n elems styles pStyleId).
Proof.
  induction elems as [|r elems IH]; cbn [readRuns]; [apply Stable_ret|].
  apply (Stable_bind (fun n => readRun n r styles pStyleId)
           (fun run n => bind (readRuns n elems styles pStyleId)
                              (fun runs => ret (run :: runs)))).
  - apply Stable_readRun.
  - intros run.
    apply (Stable_bind (fun n => readRuns n elems styles pStyleId)
                       (fun runs _ => ret (run :: runs))).
    + exact IH.
    + intros runs. apply Stable_ret.
Qed.

Lemma Stable_paragraphProps (p : XMLNode) :
  Stable styles (fun n => paragraphProps n p styles).
Proof.
  unfold paragraphProps.
  destruct (XML.FirstChildElement p "w:pPr") as [pPr|]; [|apply Stable_ret].
  apply (Stable_bind (fun n => mergeStyleCached n styles _)
                     (fun paraStyle _ => liftE _)).
  - apply Stable_merge.
  - intros paraStyle. apply Stable_liftE.
Qed.

Lemma Stable_readParagraph (p : XMLNode) :
  Stable styles (fun n => readParagraph n p styles).
Proof.
  unfold readParagraph.
  apply (Stable_bind (fun n => paragraphProps n p styles)
           (fun para n =>
              bind (mergeStyleCached n styles _)
                (fun paraStyle =>
                   bind (readRuns n (XML.ChildElements p "w:r") styles _)
                     (fun runs =>
                        ret (Paragraph.set_runs (mergeAdjacentRuns runs) para))))).
  - apply Stable_paragraphProps.
  - intros para.
    apply (Stable_bind (fun n => mergeStyleCached n styles _)
             (fun paraStyle n =>
                bind (readRuns n (XML.ChildElements p "w:r") styles _)
                  (fun runs =>
                     ret (Paragraph.set_runs (mergeAdjacentRuns runs) para)))).
    + apply Stable_merge.
    + intros paraStyle.
      apply (Stable_bind (fun n => readRuns n _ styles _)
               (fun runs _ =>
                  ret (Paragraph.set_runs (mergeAdjacentRuns runs) para))).
      * apply Stable_readRuns.
      * intros runs. apply Stable_ret.
Qed.

(** Each paragraph of the list is the one that [readParagraph] returns for
    its element on the empty cache. *)
Lemma readParagraphs_each fuel :
  forall (elems : list XMLNode) (cache : StyleMap) paras cache',
  Consistent styles cache ->
  readParagraphs fuel elems styles cache = Done paras cache' ->
  Consistent styles cache' /\
  Forall2 (fun p para => exists fuel' cache1,
             readParagraph fuel' p styles ∅ = Done para cache1)
          elems paras.
Proof.
  induction elems as [|p elems IH]; intros cache paras cache' Hcons H;
    cbn in H; inv_done.
  - split; [assumption | constructor].
  - destruct (proj2 (Stable_readParagraph p) _ _ _ _ Hcons Hm) as [Hcons0 Hp].
    destruct (IH _ _ _ Hcons0 Hm0) as [Hcons1 Hrest].
    split; [assumption|].
    constructor; [|assumption].
    apply Hp, Consistent_empty.
Qed.

Lemma parseNotes_loop_Consistent fuel :
  forall (elems : list XMLNode) (map : gmap Z Note.t) (cache : StyleMap) map' cache',
  Consistent styles cache ->
  parseNotes_loop fuel elems styles map cache = Done map' cache' ->
  Consistent styles cache'.
Proof.
  induction elems as [|fn elems IH]; intros map cache map' cache' Hcons H;
    cbn in H.
  - inv_done. assumption.
  - destruct (XML.Attribute fn "w:id") as [idAttr|]; [|eapply IH; eassumption].
    destruct (isSeparator (XML.Attribute fn "w:type")); [eapply IH; eassumption|].
    inv_done. eapply IH; [|eassumption].
    eapply readParagraphs_each; eassumption.
Qed.

Lemma parseNotes_Consistent rootName noteName fuel (xml : XMLDocument)
  (cache : StyleMap) map cache' :
  Consistent styles cache ->
  parseNotes rootName noteName fuel xml styles cache = Done map cache' ->
  Consistent styles cache'.
Proof.
  unfold parseNotes. intros Hcons.
  destruct (find (XML.named rootName) xml) as [root|]; intros H.
  - eapply parseNotes_loop_Consistent; eassumption.
  - inv_done. assumption.
Qed.

Lemma parseMainDocument_each fuel (xml : XMLDocument) (cache : StyleMap)
  paras cache' :
  Consistent styles cache ->
  parseMainDocument fuel xml styles cache = Done paras cache' ->
  Forall2 (fun p para => exists fuel' cache1,
             readParagraph fuel' p styles ∅ = Done para cache1)
          (bodyParagraphs xml) paras.
Proof.
  unfold parseMainDocument, bodyParagraphs. intros Hcons.
  destruct (find (XML.named "w:document") xml) as [root|]; intros H.
  - destruct (XML.FirstChildElement root "w:body") as [body|].
    + eapply readParagraphs_each; eassumption.
    + inv_done. constructor.
  - inv_done. constructor.
Qed.

End Stable.

Lemma parseAll_each fuel (fileData : FileData) doc cache' :
  parseAll fuel fileData ∅ = Done doc cache' ->
  Forall2 (fun p para => exists fuel' cache1,
             readParagraph fuel' p (Document.styles doc) ∅ = Done para cache1)
          (bodyParagraphs (entry fileData "word/document.xml"))
          (Document.paragraphs doc).
Proof.
  intros H. unfold parseAll, parseFootnotes, parseEndnotes in H.
  inv_done. cbn [Document.styles Document.paragraphs].
  eapply parseMainDocument_each; [|eassumption].
  eapply parseNotes_Consistent; [|eassumption].
  eapply parseNotes_Consistent; [|eassumption].
  apply Consistent_empty.
Qed.

(** X13: the paragraphs of the document that an entry point returns are, in
    order, the [w:p] children of [w:body], each read as [readParagraph]
    reads it on an empty cache with the styles of the document: what the
    cache holds from the notes and from the paragraphs before it does not
    change a paragraph. *)
Theorem paragraphs_are_read_independently fuel (fileData : FileData)
  (cache : StyleMap) doc cache' :
  readDocument fuel fileData cache = Done doc cache' \/
  readDocumentFromMemory fuel fileData cache = Done doc cache' ->
  Forall2 (fun p para => exists fuel' cache1,
             readParagraph fuel' p (Document.styles doc) ∅ = Done para cache1)
          (bodyParagraphs (entry fileData "word/document.xml"))
          (Document.paragraphs doc).
Proof.
  unfold readDocument, readDocumentFromMemory, cache_clear.
  intros [H|H]; inv_done.
  - destruct (size fileData) eqn:Hsize.
    + inv_done. apply map_size_empty_iff in Hsize. subst fileData.
      constructor.
    + eapply parseAll_each; eassumption.
  - eapply parseAll_each; eassumption.
Qed.

Lemma independently_witness :
  exists doc cache',
    readDocumentFromMemory 2 Scenario.inheritedBold ∅ = Done doc cache' /\
    Forall2 (fun p para => exists fuel' cache1,
               readParagraph fuel' p (Document.styles doc) ∅ = Done para cache1)
            (bodyParagraphs (entry Scenario.inheritedBold "word/document.xml"))
            (Document.paragraphs doc).
Proof.
  eexists _, _. split.
  - vm_compute. reflexivity.
  - eapply (paragraphs_are_read_independently 2 Scenario.inheritedBold ∅).
    right. vm_compute. reflexivity.
Defined.

(** ** The styles that a document needs *)

Lemma resolve_ChainEnds fuel (styles : StyleMap) id merged :
  resolve fuel styles id = Some merged -> ChainEnds styles ∅ id.
Proof.
  intros H.
  destruct (resolve_mergeStyleCached _ _ ∅ _ _ (Consistent_empty styles) H)
    as [cache' Hmerge].
  eapply mergeStyleCached_chain, Hmerge.
Qed.

(** A chain that ends at an entry of a cache of merged styles ends without
    the cache. *)
Lemma ChainEnds_Consistent (styles cache : StyleMap) id :
  Consistent styles cache -> ChainEnds styles cache id -> ChainEnds styles ∅ id.
Proof.
  intros Hcons. induction 1 as [|id merged Hc|id Hs|id cur Hs _ IH].
  - constructor.
  - destruct (Hcons _ _ Hc) as [fuel Hres]. eapply resolve_ChainEnds, Hres.
  - apply chain_unknown, Hs.
  - eapply chain_link; eassumption.
Qed.

Lemma merge_needs_chain fuel (styles cache : StyleMap) id merged cache' :
  Consistent styles cache ->
  mergeStyleCached fuel styles id cache = Done merged cache' ->
  ChainEnds styles ∅ id.
Proof.
  intros Hcons H. eapply ChainEnds_Consistent; [eassumption|].
  eapply mergeStyleCached_chain, H.
Qed.

Lemma readRuns_needs_chains fuel (styles : StyleMap) pStyleId :
  forall (elems : list XMLNode) (cache : StyleMap) runs cache',
  Consistent styles cache ->
  readRuns fuel elems styles pStyleId cache = Done runs cache' ->
  Forall (ChainEnds styles ∅) (omap (mergedRunStyleId pStyleId) elems).
Proof.
  induction elems as [|r elems IH]; intros cache runs cache' Hcons H;
    cbn [readRuns] in H; inv_done; [apply Forall_nil_2|].
  destruct (proj2 (Stable_readRun styles r pStyleId) _ _ _ _ Hcons Hm)
    as [Hcons0 _].
  specialize (IH _ _ _ Hcons0 Hm0).
  cbn [omap list_omap]. unfold mergedRunStyleId at 1.
  unfold readRun in Hm.
  destruct (footnoteReference r) as [[fr idAttr]|]; [exact IH|].
  destruct (XML.FirstChildElement r "w:rPr") as [rPr|]; [|exact IH].
  inv_done. constructor; [|exact IH].
  unfold runStyleId. eapply merge_needs_chain; [|eassumption]; eassumption.
Qed.

Lemma readParagraph_needs_chains fuel (p : XMLNode) (styles cache : StyleMap)
  para cache' :
  Consistent styles cache ->
  readParagraph fuel p styles cache = Done para cache' ->
  Forall (ChainEnds styles ∅) (mergedStyleIds p).
Proof.
  unfold readParagraph, mergedStyleIds, mergedParagraphStyleId.
  intros Hcons H. inv_done.
  destruct (proj2 (Stable_paragraphProps styles p) _ _ _ _ Hcons Hm)
    as [Hcons0 _].
  destruct (mergeStyleCached_consistent _ _ _ _ _ _ Hcons0 Hm0) as [_ Hcons1].
  constructor.
  - eapply merge_needs_chain; [|eassumption]; eassumption.
  - eapply readRuns_needs_chains; [|eassumption]; eassumption.
Qed.

Lemma readParagraphs_need_chains fuel (styles : StyleMap) :
  forall (elems : list XMLNode) (cache : StyleMap) paras cache',
  Consistent styles cache ->
  readParagraphs fuel elems styles cache = Done paras cache' ->
  Forall (fun p => Forall (ChainEnds styles ∅) (mergedStyleIds p)) elems.
Proof.
  induction elems as [|p elems IH]; intros cache paras cache' Hcons H;
    cbn [readParagraphs] in H; inv_done; constructor.
  - eapply readParagraph_needs_chains; [|eassumption]; eassumption.
  - destruct (proj2 (Stable_readParagraph styles p) _ _ _ _ Hcons Hm)
      as [Hcons0 _].
    eapply IH; [|eassumption]; eassumption.
Qed.

Lemma parseAll_needs_chains fuel (fileData : FileData) doc cache' :
  parseAll fuel fileData ∅ = Done doc cache' ->
  Forall (fun p => Forall (ChainEnds (Document.styles doc) ∅) (mergedStyleIds p))
         (bodyParagraphs (entry fileData "word/document.xml")).
Proof.
  intros H. unfold parseAll, parseFootnotes, parseEndnotes in H.
  inv_done. cbn [Document.styles].
  assert (Hcons : Consistent a cache1).
  { eapply parseNotes_Consistent; [|eassumption].
    eapply parseNotes_Consistent; [|eassumption].
    apply Consistent_empty. }
  unfold parseMainDocument, bodyParagraphs in *.
  destruct (find (XML.named "w:document") (entry fileData "word/document.xml"))
    as [root|]; [|constructor].
  destruct (XML.FirstChildElement root "w:body") as [body|]; [|constructor].
  eapply readParagraphs_need_chains; [|eassumption]; eassumption.
Qed.

(** X23: an entry point returns a document only if, for each paragraph of the
    body, the [basedOn] chain of every style it merges ends: the style of
    the paragraph, [Normal] when it names none, and the style of each run
    that has a [w:rPr]. A document in which one of these styles lies on a
    cycle is never returned. *)
Theorem document_needs_ending_chains fuel (fileData : FileData)
  (cache : StyleMap) doc cache' :
  readDocument fuel fileData cache = Done doc cache' \/
  readDocumentFromMemory fuel fileData cache = Done doc cache' ->
  Forall (fun p => Forall (ChainEnds (Document.styles doc) ∅) (mergedStyleIds p))
         (bodyParagraphs (entry fileData "word/document.xml")).
Proof.
  unfold readDocument, readDocumentFromMemory, cache_clear.
  intros [H|H]; inv_done.
  - destruct (size fileData) eqn:Hsize.
    + inv_done. apply map_size_empty_iff in Hsize. subst fileData.
      constructor.
    + eapply parseAll_needs_chains; eassumption.
  - eapply parseAll_needs_chains; eassumption.
Qed.

Lemma ending_chains_witness :
  exists doc cache',
    readDocumentFromMemory 2 Scenario.inheritedBold ∅ = Done doc cache' /\
    Forall (fun p => Forall (ChainEnds (Document.styles doc) ∅) (mergedStyleIds p))
           (bodyParagraphs (entry Scenario.inheritedBold "word/document.xml")).
Proof.
  eexists _, _. split.
  - vm_compute. reflexivity.
  - eapply (document_needs_ending_chains 2 Scenario.inheritedBold ∅).
    right. vm_compute. reflexivity.
Defined.

(** ** The style map *)

Lemma emplace_lookup (id id' : string) (st : Style.t) (map : StyleMap) :
  emplace id' st map !! id =
  match map !! id with
  | Some old => Some old
  | None => if String.eqb id' id then Some st else None
  end.
Proof.
  unfold emplace.
  destruct (String.eqb_spec id' id) as [->|Hne].
  - destruct (map !! id) eqn:Hm; [exact Hm | apply lookup_insert_eq].
  - destruct (map !! id') eqn:Hm'; [destruct (map !! id); reflexivity|].
    rewrite lookup_insert_ne by assumption.
    destruct (map !! id); reflexivity.
Qed.

Lemma parseStyles_loop_lookup (id : string) :
  forall (elems : list XMLNode) (map map' : StyleMap),
  parseStyles_loop elems map = Ok map' ->
  map' !! id =
  match map !! id with
  | Some old => Some old
  | None =>
      match List.find (hasStyleId id) elems with
      | Some s => match parseStyle s with Ok st => Some st | Throw _ => None end
      | None => None
      end
  end.
Proof.
  induction elems as [|s elems IH]; intros map map' H; cbn [parseStyles_loop] in H.
  - inversion H. destruct (map' !! id); reflexivity.
  - cbn [find]. unfold hasStyleId at 1.
    destruct (XML.Attribute s "w:styleId") as [id'|]; [|apply IH, H].
    apply exc_bind_Ok in H. destruct H as (st & Hst & H).
    rewrite (IH _ _ H), emplace_lookup.
    destruct (map !! id); [reflexivity|].
    destruct (String.eqb id' id); [rewrite Hst|]; reflexivity.
Qed.

(** X14: the style map holds, under each id, the first [w:style] element that
    carries the id as its [w:styleId]: a later element with the same id is
    parsed and ignored, and an id that no element carries is not a key. *)
Theorem parseStyles_first_definition_wins (xml : XMLDocument) (styles : StyleMap)
  (id : string) :
  parseStyles xml = Ok styles ->
  styles !! id =
  match List.find (hasStyleId id) (styleElements xml) with
  | Some s => match parseStyle s with Ok st => Some st | Throw _ => None end
  | None => None
  end.
Proof.
  unfold parseStyles, styleElements.
  destruct (find (XML.named "w:styles") xml) as [root|]; intros H.
  - rewrite (parseStyles_loop_lookup id _ _ _ H), lookup_empty. reflexivity.
  - inversion H. apply lookup_empty.
Qed.

Lemma first_definition_witness :
  exists styles st,
    parseStyles Inputs.spacingStyles = Ok styles /\
    styles !! "A" = Some st /\ Style.basedOn st = "B".
Proof.
  assert (H : exists styles, parseStyles Inputs.spacingStyles = Ok styles)
    by (eexists; vm_compute; reflexivity).
  destruct H as [styles H]. exists styles.
  rewrite (parseStyles_first_definition_wins _ _ "A" H).
  eexists. split; [exact H|]. split; vm_compute; reflexivity.
Defined.

Lemma parseStyles_loop_returns :
  forall (elems : list XMLNode) (map : StyleMap),
  (exists map', parseStyles_loop elems map = Ok map') <->
  Forall (fun s => XML.Attribute s "w:styleId" <> None ->
                   exists st, parseStyle s = Ok st) elems.
Proof.
  induction elems as [|s elems IH]; intros map; cbn [parseStyles_loop].
  - split; [constructor | eauto].
  - destruct (XML.Attribute s "w:styleId") as [id|] eqn:Hid.
    + destruct (parseStyle s) as [st|e] eqn:Hst; cbn [exc_bind].
      * rewrite IH. split.
        -- intros H. constructor; [eauto | assumption].
        -- intros H. inversion H; assumption.
      * split.
        -- intros [map' H]. discriminate.
        -- intros H. inversion H as [|? ? Hs _]; subst.
           destruct Hs as [st Hst']; congruence.
    + rewrite IH. split.
      * intros H. constructor; [congruence | assumption].
      * intros H. inversion H; assumption.
Qed.

(** X15: [parseStyles] returns a map exactly when every [w:style] element that
    has a [w:styleId] is parsed without an exception; an element without
    the attribute is skipped unread. *)
Theorem parseStyles_returns_iff_every_style_parses (xml : XMLDocument) :
  (exists styles, parseStyles xml = Ok styles) <->
  Forall (fun s => XML.Attribute s "w:styleId" <> None ->
                   exists st, parseStyle s = Ok st)
         (styleElements xml).
Proof.
  unfold parseStyles, styleElements.
  destruct (find (XML.named "w:styles") xml) as [root|].
  - apply parseStyles_loop_returns.
  - split; [constructor | eauto].
Qed.

(** ** The notes *)

Lemma find_snoc {A : Type} (f : A -> bool) (l : list A) (x : A) :
  List.find f (l ++ [x]) =
  match List.find f l with
  | Some y => Some y
  | None => if f x then Some x else None
  end.
Proof.
  induction l as [|y l IH]; cbn; [reflexivity|].
  destruct (f y); [reflexivity | exact IH].
Qed.

Lemma parseNotes_loop_lookup fuel (styles : StyleMap) (k : Z) :
  forall (elems : list XMLNode) (map : gmap Z Note.t) (cache : StyleMap) map' cache',
  Consistent styles cache ->
  parseNotes_loop fuel elems styles map cache = Done map' cache' ->
  match List.find (isNote k) (rev elems) with
  | Some fn =>
      exists paragraphs,
        Forall2 (fun p para => exists fuel' cache1,
                   readParagraph fuel' p styles ∅ = Done para cache1)
                (XML.ChildElements fn "w:p") paragraphs /\
        map' !! k = Some {| Note.id := k; Note.paragraphs := paragraphs |}
  | None => map' !! k = map !! k
  end.
Proof.
  induction elems as [|fn elems IH]; intros map cache map' cache' Hcons H;
    cbn [parseNotes_loop] in H.
  - inv_done. reflexivity.
  - cbn [rev]. rewrite find_snoc. unfold isNote at 2.
    destruct (XML.Attribute fn "w:id") as [idAttr|].
    2: { specialize (IH _ _ _ _ Hcons H).
         destruct (find (isNote k) (rev elems)); exact IH. }
    destruct (isSeparator (XML.Attribute fn "w:type")).
    { specialize (IH _ _ _ _ Hcons H). rewrite andb_false_r.
      destruct (find (isNote k) (rev elems)); exact IH. }
    inv_done.
    destruct (readParagraphs_each _ _ _ _ _ _ Hcons Hm) as [Hcons0 Heach].
    specialize (IH _ _ _ _ Hcons0 Hk).
    destruct (find (isNote k) (rev elems)); [exact IH|].
    rewrite andb_true_r.
    destruct (Z.eqb_spec (CLib.atoi idAttr) k) as [<-|Hne].
    + rewrite IH, lookup_insert_eq. eauto.
    + rewrite IH, lookup_insert_ne by assumption. reflexivity.
Qed.

(** X16: the map of notes holds, under each key, the last note element that is
    not a separator and whose [w:id] reads as the key: the [id] of the note
    is the key and its paragraphs are, in order, the [w:p] children of the
    element, each as [readParagraph] reads it on an empty cache; a key that
    no such element carries is absent. Separators are never stored. *)
Theorem notes_last_definition_wins rootName noteName fuel (xml : XMLDocument)
  (styles cache : StyleMap) notes cache' (k : Z) :
  Consistent styles cache ->
  parseNotes rootName noteName fuel xml styles cache = Done notes cache' ->
  match List.find (isNote k) (rev (noteElements rootName noteName xml)) with
  | Some fn =>
      exists paragraphs,
        Forall2 (fun p para => exists fuel' cache1,
                   readParagraph fuel' p styles ∅ = Done para cache1)
                (XML.ChildElements fn "w:p") paragraphs /\
        notes !! k = Some {| Note.id := k; Note.paragraphs := paragraphs |}
  | None => notes !! k = None
  end.
Proof.
  unfold parseNotes, noteElements. intros Hcons.
  destruct (find (XML.named rootName) xml) as [root|]; intros H.
  - apply (parseNotes_loop_lookup _ _ k) in H; [|exact Hcons].
    destruct (find (isNote k) (rev (XML.ChildElements root noteName)));
      [exact H|].
    rewrite H. apply lookup_empty.
  - inv_done. apply lookup_empty.
Qed.

Lemma notes_witness :
  exists notes cache' paragraphs,
    parseFootnotes 1 (entry Scenario.footnotes "word/footnotes.xml") ∅ ∅ =
      Done notes cache' /\
    notes !! 1 = Some {| Note.id := 1; Note.paragraphs := paragraphs |} /\
    notes !! 0 = None /\ notes !! (-1) = None.
Proof.
  assert (H : exists notes cache',
            parseFootnotes 1 (entry Scenario.footnotes "word/footnotes.xml") ∅ ∅ =
              Done notes cache')
    by (eexists _, _; vm_compute; reflexivity).
  destruct H as (notes & cache' & H).
  pose proof (notes_last_definition_wins _ _ _ _ _ _ _ _ 1
                (Consistent_empty ∅) H) as H1.
  pose proof (notes_last_definition_wins _ _ _ _ _ _ _ _ 0
                (Consistent_empty ∅) H) as H0.
  pose proof (notes_last_definition_wins _ _ _ _ _ _ _ _ (-1)
                (Consistent_empty ∅) H) as Hm.
  vm_compute find in H1, H0, Hm.
  destruct H1 as (paragraphs & _ & H1).
  exists notes, cache', paragraphs. auto.
Defined.

(** ** The entry points *)

(** X5: the two entry points return the same document, and leave the same
    cache, on the same entries of the archive, whatever the cache holds
    when they are called. *)
Theorem entry_points_agree fuel (fileData : FileData) (cache1 cache2 : StyleMap) :
  readDocument fuel fileData cache1 = readDocumentFromMemory fuel fileData cache2.
Proof.
  unfold readDocument, readDocumentFromMemory, bind, cache_clear.
  destruct (size fileData) eqn:Hsize; [|reflexivity].
  apply map_size_empty_iff in Hsize. subst fileData. reflexivity.
Qed.

(** ** The runs and the text of a paragraph *)

Lemma coalesce_length (rest : list Run.t) :
  forall cur,
    (1 <= length (coalesce cur rest) <= S (length rest))%nat.
Proof.
  induction rest as [|run rest IH]; intros cur; cbn [coalesce length]; [lia|].
  destruct (sameRunStyle cur run).
  - specialize (IH (Run.append_text (Run.text run) cur)). lia.
  - specialize (IH run). cbn [length]. lia.
Qed.

Lemma mergeAdjacentRuns_length (runs : list Run.t) :
  (length (mergeAdjacentRuns runs) <= length runs)%nat /\
  (mergeAdjacentRuns runs = [] <-> runs = []).
Proof.
  rewrite mergeAdjacentRuns_coalesce.
  destruct runs as [|first rest]; [split; [lia | tauto]|].
  pose proof (coalesce_length rest first) as H. cbn [length].
  split; [lia|].
  split; [|discriminate].
  intros Heq. rewrite Heq in H. cbn in H. lia.
Qed.

Lemma coalesce_text (rest : list Run.t) :
  forall cur, textOf (coalesce cur rest) = textOf (cur :: rest).
Proof.
  induction rest as [|run rest IH]; intros cur; cbn [coalesce]; [reflexivity|].
  destruct (sameRunStyle cur run).
  - rewrite IH. cbn. apply append_assoc.
  - cbn [textOf]. rewrite IH. reflexivity.
Qed.

Lemma readRun_text fuel (r : XMLNode) (styles : StyleMap) pStyleId
  (cache : StyleMap) run cache' :
  readRun fuel r styles pStyleId cache = Done run cache' ->
  Run.text run = runElementText r.
Proof.
  unfold readRun, runElementText.
  destruct (footnoteReference r) as [[fr idAttr]|].
  - intros H. inv_done. reflexivity.
  - destruct (XML.FirstChildElement r "w:rPr") as [rPr|]; intros H; inv_done.
    + apply directRunProps_frame in He. cbn in He. tauto.
    + reflexivity.
Qed.

Lemma readRuns_text fuel (styles : StyleMap) pStyleId :
  forall (elems : list XMLNode) (cache : StyleMap) runs cache',
  readRuns fuel elems styles pStyleId cache = Done runs cache' ->
  length runs = length elems /\
  textOf runs = concatText (map runElementText elems).
Proof.
  induction elems as [|r elems IH]; intros cache runs cache' H; cbn in H;
    inv_done.
  - split; reflexivity.
  - destruct (IH _ _ _ Hm0) as [Hlen Htext].
    apply readRun_text in Hm. cbn. rewrite Hlen, Htext, Hm. split; reflexivity.
Qed.

(** X17: a paragraph has at most one run for each [w:r] child of its element,
    and none only when the element has no [w:r] child; the texts of its
    runs, concatenated in order, are the texts of the [w:r] children,
    whatever their properties and styles. *)
Theorem paragraph_runs_and_text fuel (p : XMLNode) (styles cache : StyleMap)
  para cache' :
  readParagraph fuel p styles cache = Done para cache' ->
  (length (Paragraph.runs para) <= length (XML.ChildElements p "w:r"))%nat /\
  (Paragraph.runs para = [] <-> XML.ChildElements p "w:r" = []) /\
  textOf (Paragraph.runs para) =
    concatText (map runElementText (XML.ChildElements p "w:r")).
Proof.
  unfold readParagraph. intros H. inv_done.
  apply readRuns_text in Hm1. destruct Hm1 as [Hlen Htext].
  cbn [Paragraph.set_runs Paragraph.runs].
  destruct (mergeAdjacentRuns_length a1) as [Hle Hnil].
  rewrite <- Htext, <- Hlen. split; [exact Hle|]. split.
  2: { rewrite mergeAdjacentRuns_coalesce.
       destruct a1 as [|first rest]; [reflexivity | apply coalesce_text]. }
  rewrite Hnil. split; intros Heq.
  - subst a1. destruct (XML.ChildElements p "w:r"); [reflexivity | discriminate].
  - rewrite Heq in Hlen. destruct a1; [reflexivity | discriminate].
Qed.

Lemma paragraph_text_witness :
  exists para cache',
    readParagraph 1 Inputs.referenceThenBold ∅ ∅ = Done para cache' /\
    length (Paragraph.runs para) = 2%nat /\
    textOf (Paragraph.runs para) = "x".
Proof.
  assert (H : exists para cache',
            readParagraph 1 Inputs.referenceThenBold ∅ ∅ = Done para cache')
    by (eexists _, _; vm_compute; reflexivity).
  destruct H as (para & cache' & H).
  destruct (paragraph_runs_and_text _ _ _ _ _ _ H) as (_ & _ & Htext).
  exists para, cache'. split; [exact H|]. split; [|exact Htext].
  vm_compute in H. inversion H. reflexivity.
Defined.

(** ** Trimming the text of a run *)

Lemma substring_all (s : string) : substring 0 (String.length s) s = s.
Proof. induction s as [|c s IH]; cbn; [reflexivity | now rewrite IH]. Qed.

Lemma find_first_None (s : string) :
  find_first_not_of " " s = None -> s = spaces (String.length s).
Proof.
  induction s as [|c s IH]; cbn; [reflexivity|].
  destruct (Ascii.eqb_spec c " ") as [->|]; [|discriminate].
  destruct (find_first_not_of " " s); [discriminate|].
  intros _. now rewrite <- IH.
Qed.

Lemma find_last_None (s : string) :
  find_last_not_of " " s = None -> s = spaces (String.length s).
Proof.
  induction s as [|c s IH]; cbn; [reflexivity|].
  destruct (find_last_not_of " " s); [discriminate|].
  destruct (Ascii.eqb_spec c " ") as [->|]; [|discriminate].
  intros _. now rewrite <- IH.
Qed.

(** The first character that is not a space is where the string without
    its leading spaces starts. *)
Lemma find_first_Some (s : string) : forall first,
  find_first_not_of " " s = Some first ->
  s = String.append (spaces first) (dropSpaces s) /\
  startsWithSpace (dropSpaces s) = false /\
  forall len, substring first len s = substring 0 len (dropSpaces s).
Proof.
  induction s as [|c s IH]; intros first; cbn [find_first_not_of dropSpaces];
    [discriminate|].
  destruct (Ascii.eqb_spec c " ") as [->|Hne].
  - destruct (find_first_not_of " " s) as [i|]; [|discriminate].
    intros H. inversion H. destruct (IH i eq_refl) as (Hs & Hstart & Hsub).
    split; [cbn [spaces]; rewrite append_String; f_equal; exact Hs|].
    split; [exact Hstart|].
    intros len. cbn [substring]. apply Hsub.
  - intros H. inversion H. split; [reflexivity|]. split; [|reflexivity].
    cbn. apply Ascii.eqb_neq, Hne.
Qed.

Lemma find_last_dropSpaces (s : string) : forall first last,
  find_first_not_of " " s = Some first ->
  find_last_not_of " " s = Some last ->
  find_last_not_of " " (dropSpaces s) = Some (last - first)%nat.
Proof.
  induction s as [|c s IH]; intros first last;
    cbn [find_first_not_of find_last_not_of dropSpaces]; [discriminate|].
  destruct (Ascii.eqb_spec c " ") as [->|Hne].
  - destruct (find_first_not_of " " s) as [i|]; [|discriminate].
    destruct (find_last_not_of " " s) as [j|]; [|discriminate].
    intros H1 H2. inversion H1. inversion H2. apply (IH i j); reflexivity.
  - intros H1 H2. inversion H1. rewrite Nat.sub_0_r.
    cbn [find_last_not_of]. apply Ascii.eqb_neq in Hne. rewrite Hne. exact H2.
Qed.

(** The last character that is not a space is where the string without
    its trailing spaces ends. *)
Lemma find_last_Some (s : string) : forall last,
  find_last_not_of " " s = Some last ->
  exists m,
    s = String.append (substring 0 (S last) s) (spaces m) /\
    endsWithSpace (substring 0 (S last) s) = false /\
    startsWithSpace (substring 0 (S last) s) = startsWithSpace s.
Proof.
  induction s as [|c s IH]; intros last; cbn [find_last_not_of];
    [discriminate|].
  destruct (find_last_not_of " " s) as [j|] eqn:Hj.
  - intros H. inversion H. destruct (IH j eq_refl) as (m & Hs & Hend & _).
    exists m. cbn [substring] in *.
    split; [rewrite append_String; f_equal; exact Hs|].
    split; [|reflexivity].
    destruct s as [|c' s']; [discriminate|].
    cbn [substring] in *. exact Hend.
  - destruct (Ascii.eqb_spec c " ") as [->|Hne]; [discriminate|].
    intros H. inversion H. exists (String.length s).
    cbn [substring]. destruct s as [|c' s']; cbn [substring].
    + split; [reflexivity|]. split; [|reflexivity].
      cbn. apply Ascii.eqb_neq, Hne.
    + split; [rewrite append_String; f_equal; apply find_last_None, Hj|].
      split; [|reflexivity].
      cbn. apply Ascii.eqb_neq, Hne.
Qed.

(** X18: the text of a run without [xml:space="preserve"] is the text of [w:t]
    with all the spaces at its two ends removed, and nothing else: the
    result neither starts nor ends with a space, and the text is the result
    between two runs of spaces. Only the space character is trimmed. *)
Theorem trim_spaces_removes_the_outer_spaces (text : string) :
  exists n m,
    text = String.append (spaces n) (String.append (trim_spaces text) (spaces m)) /\
    startsWithSpace (trim_spaces text) = false /\
    endsWithSpace (trim_spaces text) = false.
Proof.
  unfold trim_spaces, CLib.substr.
  destruct (find_first_not_of " " text) as [first|] eqn:Hfirst.
  2: { exists (String.length text), O. cbn [spaces].
       change (String.append "" "") with "". rewrite append_empty_r.
       split; [apply find_first_None, Hfirst | split; reflexivity]. }
  destruct (find_last_not_of " " text) as [last|] eqn:Hlast.
  2: { exists (String.length text), O. cbn [spaces].
       change (String.append "" "") with "". rewrite append_empty_r.
       split; [apply find_last_None, Hlast | split; reflexivity]. }
  destruct (find_first_Some _ _ Hfirst) as (Htext & Hstart & Hsub).
  pose proof (find_last_dropSpaces _ _ _ Hfirst Hlast) as Hlast'.
  destruct (find_last_Some _ _ Hlast') as (m & Hrest & Hend & Hstart').
  rewrite Hsub, Nat.add_1_r.
  exists first, m. split; [|split].
  - rewrite <- Hrest. exact Htext.
  - rewrite Hstart'. exact Hstart.
  - exact Hend.
Qed.

(** ** Colours *)

Lemma stoi_hex_pair (c d : ascii) (v : Z) :
  hexPair c d = Some v ->
  CLib.stoi 16 (String c (String d "")) = Ok v /\ CLib.to_uint8 v = v.
Proof.
  unfold hexPair.
  destruct (CLib.digit 16 c) as [x|] eqn:Hc; [|discriminate].
  destruct (CLib.digit 16 d) as [y|] eqn:Hd; [|discriminate].
  intros H. inversion H. clear H. subst v.
  destruct c as [[] [] [] [] [] [] [] []]; vm_compute in Hc; try discriminate;
    inversion Hc; clear Hc; subst x;
    destruct d as [[] [] [] [] [] [] [] []]; vm_compute in Hd; try discriminate;
    inversion Hd; clear Hd; subst y;
    split; vm_compute; reflexivity.
Qed.

(** X19: [Color(hex)] on six or eight hexadecimal digits does not throw: the
    components are the values of the pairs of digits, and the alpha is 255
    when there are six digits. *)
Theorem of_hex_on_hexadecimal_digits (c1 c2 c3 c4 c5 c6 c7 c8 : ascii) (r g b a : Z) :
  hexPair c1 c2 = Some r -> hexPair c3 c4 = Some g ->
  hexPair c5 c6 = Some b -> hexPair c7 c8 = Some a ->
  Color.of_hex (String c1 (String c2 (String c3 (String c4 (String c5 (String c6 "")))))) =
    Ok {| Color.r := r; Color.g := g; Color.b := b; Color.a := 255 |} /\
  Color.of_hex (String c1 (String c2 (String c3 (String c4 (String c5 (String c6
                 (String c7 (String c8 "")))))))) =
    Ok {| Color.r := r; Color.g := g; Color.b := b; Color.a := a |}.
Proof.
  intros Hr Hg Hb Ha.
  apply stoi_hex_pair in Hr, Hg, Hb, Ha.
  destruct Hr as [Hr Hr'], Hg as [Hg Hg'], Hb as [Hb Hb'], Ha as [Ha Ha'].
  unfold Color.of_hex, Color.hex2, CLib.substr.
  cbn [String.length Nat.eqb substring].
  rewrite Hr, Hg, Hb, Ha. cbn [exc_bind].
  rewrite Hr', Hg', Hb', Ha'. split; reflexivity.
Qed.

Lemma of_hex_witness :
  Color.of_hex "FF8000" =
    Ok {| Color.r := 255; Color.g := 128; Color.b := 0; Color.a := 255 |} /\
  Color.of_hex "FF80007f" =
    Ok {| Color.r := 255; Color.g := 128; Color.b := 0; Color.a := 127 |}.
Proof.
  apply (of_hex_on_hexadecimal_digits "F" "F" "8" "0" "0" "0" "7" "f");
    reflexivity.
Defined.

(** ** The archive reader *)

Lemma find_eqb_Some (name : string) (files : list string) (found : string) :
  List.find (String.eqb name) files = Some found -> found = name /\ In name files.
Proof.
  intros H. apply find_some in H. destruct H as [Hin Heq].
  apply String.eqb_eq in Heq. subst. auto.
Qed.

Lemma find_eqb_None (name : string) (files : list string) :
  List.find (String.eqb name) files = None -> ~ In name files.
Proof.
  intros H Hin. apply (find_none _ _ H) in Hin.
  rewrite String.eqb_refl in Hin. discriminate.
Qed.

Lemma existsb_eqb (name : string) (files : list string) :
  existsb (String.eqb name) files = true <-> In name files.
Proof.
  rewrite existsb_exists. split.
  - intros (x & Hin & Heq). apply String.eqb_eq in Heq. subst. assumption.
  - intros Hin. exists name. split; [assumption | apply String.eqb_refl].
Qed.

Lemma readEntries_lookup (zip : Zip.archive) (files : list string) (name : string) :
  forall (stats : list (option Zip.file_stat)) (out : gmap string string),
  fold_left (readEntry zip files) stats out !! name =
  match List.find (isEntry name) (rev stats) with
  | Some (Some st) =>
      if existsb (String.eqb name) files
      then Some (match Zip.extract_file_to_mem zip name (Zip.m_uncomp_size st) with
                 | Some data => data
                 | None => ""
                 end)
      else out !! name
  | _ => out !! name
  end.
Proof.
  induction stats as [|st stats IH]; intros out; cbn [fold_left rev];
    [reflexivity|].
  rewrite find_snoc, IH.
  destruct (find (isEntry name) (rev stats)) as [[st'|]|] eqn:Hfind.
  - destruct (existsb (String.eqb name) files) eqn:Hin; [reflexivity|].
    destruct st as [st|]; cbn [readEntry]; [|reflexivity].
    destruct (find (String.eqb (Zip.m_filename st)) files) as [found|] eqn:Hf;
      [|reflexivity].
    apply find_eqb_Some in Hf. destruct Hf as [-> Hf].
    apply lookup_insert_ne. intros <-.
    apply existsb_eqb in Hf. congruence.
  - apply find_some in Hfind. destruct Hfind as [_ Hfind]. discriminate.
  - destruct st as [st|]; cbn [readEntry isEntry]; [|reflexivity].
    destruct (String.eqb_spec (Zip.m_filename st) name) as [<-|Hne].
    + destruct (find (String.eqb (Zip.m_filename st)) files) as [found|] eqn:Hf.
      * apply find_eqb_Some in Hf. destruct Hf as [-> Hf].
        rewrite (proj2 (existsb_eqb _ _) Hf). apply lookup_insert_eq.
      * apply find_eqb_None in Hf.
        destruct (existsb (String.eqb (Zip.m_filename st)) files) eqn:Hin;
          [|reflexivity].
        apply existsb_eqb in Hin. contradiction.
    + destruct (find (String.eqb (Zip.m_filename st)) files) as [found|] eqn:Hf;
        [|reflexivity].
      apply find_eqb_Some in Hf. destruct Hf as [-> Hf].
      apply lookup_insert_ne. assumption.
Qed.

(** X20: what the archive reader returns under a name: nothing when the archive
    cannot be opened, when the name is not requested or when no entry of
    the archive has the name; otherwise the data extracted for the name
    with the size of the last entry that has it, and the empty string, not
    a missing key, when the extraction fails. *)
Theorem archive_reader_lookup (opened : option Zip.archive) (files : list string)
  (name : string) :
  readMultipleFilesFromZIP opened files !! name =
  match opened with
  | None => None
  | Some zip =>
      match List.find (isEntry name) (rev (Zip.stats zip)) with
      | Some (Some st) =>
          if existsb (String.eqb name) files
          then Some (match Zip.extract_file_to_mem zip name (Zip.m_uncomp_size st) with
                     | Some data => data
                     | None => ""
                     end)
          else None
      | _ => None
      end
  end.
Proof.
  unfold readMultipleFilesFromZIP. destruct opened as [zip|]; [|apply lookup_empty].
  rewrite readEntries_lookup, lookup_empty. reflexivity.
Qed.

(** Two entries of the same name, the second of which cannot be
    extracted, and an entry that was not requested. *)
Example archive_reader_sample :
  readMultipleFilesFromZIP
    (Some (Zip.mk [Some (Zip.mk_stat "a" 1); None; Some (Zip.mk_stat "b" 2);
                   Some (Zip.mk_stat "a" 3)]
                  (fun name size => if (size =? 3)%N then None else Some name)))
    ["a"; "c"] = <["a" := ""]> ∅.
Proof. vm_compute. reflexivity. Qed.

(** ** Escaping for HTML *)

Lemma escape_loop_output (input : string) : forall output,
  Html.escape_loop input output =
  String.append output (Html.escape_loop input "").
Proof.
  induction input as [|c rest IH]; intros output; cbn [Html.escape_loop].
  - symmetry. apply append_empty_r.
  - rewrite (IH (String.append output _)), (IH (String.append "" _)).
    change (String.append "" (Html.escapeChar c)) with (Html.escapeChar c).
    apply append_assoc.
Qed.

Lemma escape_String (c : ascii) (rest : string) :
  Html.escapeHtmlSpecialChars (String c rest) =
  String.append (Html.escapeChar c) (Html.escapeHtmlSpecialChars rest).
Proof.
  unfold Html.escapeHtmlSpecialChars. cbn [Html.escape_loop].
  apply escape_loop_output.
Qed.

(** [escapeHtmlSpecialChars] distributes over concatenation: escaping
    pieces of text and joining them is escaping the joined text. *)
Lemma escape_distributes_over_append (s t : string) :
  Html.escapeHtmlSpecialChars (String.append s t) =
  String.append (Html.escapeHtmlSpecialChars s) (Html.escapeHtmlSpecialChars t).
Proof.
  induction s as [|c s IH]; [reflexivity|].
  rewrite append_String, !escape_String, IH. symmetry. apply append_assoc.
Qed.

Lemma stringExists_append (f : ascii -> bool) (s t : string) :
  stringExists f (String.append s t) = stringExists f s || stringExists f t.
Proof.
  induction s as [|c s IH]; [reflexivity|].
  rewrite append_String. cbn. rewrite IH. apply orb_assoc.
Qed.

Lemma escapeChar_cases (c : ascii) :
  (Html.escapeChar c = String c "" /\ isMarkup c = false /\ c <> "&"%char) \/
  (c = "&"%char /\ Html.escapeChar c = "&amp;") \/
  (c = "<"%char /\ Html.escapeChar c = "&lt;") \/
  (c = ">"%char /\ Html.escapeChar c = "&gt;") \/
  (c = Html.quote /\ Html.escapeChar c = "&quot;") \/
  (c = "'"%char /\ Html.escapeChar c = "&#39;").
Proof.
  unfold Html.escapeChar, isMarkup.
  destruct (Ascii.eqb_spec c "&") as [->|Hamp]; [right; left; auto|].
  destruct (Ascii.eqb_spec c "<") as [->|Hlt]; [right; right; left; auto|].
  destruct (Ascii.eqb_spec c ">") as [->|Hgt]; [right; right; right; left; auto|].
  destruct (Ascii.eqb_spec c Html.quote) as [->|Hq];
    [right; right; right; right; left; auto|].
  destruct (Ascii.eqb_spec c "'") as [->|Hap];
    [right; right; right; right; right; auto|].
  left. auto.
Qed.

Example escape_sample :
  Html.escapeHtmlSpecialChars "a<b>&'c'" = "a&lt;b&gt;&amp;&#39;c&#39;".
Proof. reflexivity. Qed.

(** X21: the output of [escapeHtmlSpecialChars] holds none of the characters
    that open or close a tag or an attribute value. *)
Theorem escaped_text_has_no_markup (input : string) :
  stringExists isMarkup (Html.escapeHtmlSpecialChars input) = false.
Proof.
  induction input as [|c rest IH]; [reflexivity|].
  rewrite escape_String, stringExists_append, IH, orb_false_r.
  destruct (escapeChar_cases c)
    as [(-> & Hm & _)|[[_ ->]|[[_ ->]|[[_ ->]|[[_ ->]|[_ ->]]]]]];
    [cbn; rewrite Hm; reflexivity | reflexivity..].
Qed.

(** X22: [escapeHtmlSpecialChars] loses nothing: two texts with the same
    escaped form are the same text. *)
Theorem escape_is_injective (s t : string) :
  Html.escapeHtmlSpecialChars s = Html.escapeHtmlSpecialChars t -> s = t.
Proof.
  revert t. induction s as [|c s IH]; intros [|d t].
  - reflexivity.
  - rewrite escape_String.
    destruct (escapeChar_cases d)
      as [(-> & _)|[[_ ->]|[[_ ->]|[[_ ->]|[[_ ->]|[_ ->]]]]]]; discriminate.
  - rewrite escape_String.
    destruct (escapeChar_cases c)
      as [(-> & _)|[[_ ->]|[[_ ->]|[[_ ->]|[[_ ->]|[_ ->]]]]]]; discriminate.
  - rewrite !escape_String.
    destruct (escapeChar_cases c)
      as [(-> & _ & Hc)|[[-> ->]|[[-> ->]|[[-> ->]|[[-> ->]|[-> ->]]]]]];
      destruct (escapeChar_cases d)
        as [(-> & _ & Hd)|[[-> ->]|[[-> ->]|[[-> ->]|[[-> ->]|[-> ->]]]]]];
      rewrite ?append_String; cbn [String.append]; intros H;
      try discriminate H;
      try (inversion H; subst; try contradiction; f_equal; apply IH; assumption).
Qed.

Lemma escape_witness :
  Html.escapeHtmlSpecialChars "a<b" = "a&lt;b" /\ "a<b" = "a<b".
Proof.
  split; [reflexivity|].
  apply (escape_is_injective "a<b" "a<b"). reflexivity.
Defined.

(** ** Precedence of direct properties over the style *)

Lemma Color_empty_default (c : Color.t) :
  Color.empty c = true -> c = Color.default.
Proof.
  destruct c as [r g b a]. unfold Color.empty. cbn.
  rewrite !andb_true_iff, !Z.eqb_eq. intros [[[-> ->] ->] ->]. reflexivity.
Qed.

Lemma applyRunStyle_default (rStyle : Style.t) (text : string) :
  applyRunStyle rStyle (Run.set_text text Run.default) = {|
    Run.text := text;
    Run.lang := "";
    Run.style := "";
    Run.bold := Style.bold rStyle;
    Run.italic := Style.italic rStyle;
    Run.underline := Style.underline rStyle;
    Run.strike := Style.strikeThrough rStyle;
    Run.subscript := Style.Subscript rStyle;
    Run.superscript := Style.Superscript rStyle;
    Run.color := Style.color rStyle;
    Run.backColor := Style.backColor rStyle;
    Run.fontFamily := Style.fontFamily rStyle;
    Run.fontSize :=
      if positive (Style.fontSize rStyle) then Style.fontSize rStyle else F32.zero;
    Run.noteId := 0
  |}.
Proof.
  unfold applyRunStyle, positive. cbn. f_equal.
  - destruct (Style.bold rStyle); reflexivity.
  - destruct (Style.italic rStyle); reflexivity.
  - destruct (Style.underline rStyle); reflexivity.
  - destruct (Style.strikeThrough rStyle); reflexivity.
  - destruct (Style.Subscript rStyle); reflexivity.
  - destruct (Style.Superscript rStyle); reflexivity.
  - destruct (Color.empty (Style.color rStyle)) eqn:He; cbn; [|reflexivity].
    symmetry. apply Color_empty_default, He.
  - destruct (Color.empty (Style.backColor rStyle)) eqn:He; cbn; [|reflexivity].
    symmetry. apply Color_empty_default, He.
  - destruct (empty (Style.fontFamily rStyle)) eqn:He; cbn; [|reflexivity].
    symmetry. apply empty_true, He.
Qed.

(** X24: the properties of a run that has a [w:rPr]: the style merged is the one
    of [w:rStyle], and the paragraph's when the run names none; a flag is
    set when [w:rPr] or the style sets it; a colour, font or size given in
    [w:rPr] wins over the style's, and the style's is used when [w:rPr]
    gives none. *)
Theorem direct_run_properties_win fuel (r rPr : XMLNode) (styles : StyleMap)
  pStyleId (cache : StyleMap) run cache' :
  readRun fuel r styles pStyleId cache = Done run cache' ->
  footnoteReference r = None ->
  XML.FirstChildElement r "w:rPr" = Some rPr ->
  exists rStyle,
    mergeStyleCached fuel styles (runStyleId rPr pStyleId) cache =
      Done rStyle cache' /\
    Run.bold run = XML.hasChild rPr "w:b" || Style.bold rStyle /\
    Run.italic run = XML.hasChild rPr "w:i" || Style.italic rStyle /\
    Run.underline run = XML.hasChild rPr "w:u" || Style.underline rStyle /\
    Run.strike run = XML.hasChild rPr "w:strike" || Style.strikeThrough rStyle /\
    Run.subscript run = XML.hasChild rPr "w:subscript" || Style.Subscript rStyle /\
    Run.superscript run =
      XML.hasChild rPr "w:superscript" || Style.Superscript rStyle /\
    Run.lang run = or_default (XML.ChildAttribute rPr "w:lang" "w:val") "" /\
    Run.fontFamily run =
      or_default (XML.ChildAttribute rPr "w:rFonts" "w:ascii")
                 (Style.fontFamily rStyle) /\
    color_of (XML.ChildAttribute rPr "w:color" "w:val") (Style.color rStyle) =
      Ok (Run.color run) /\
    color_of (XML.ChildAttribute rPr "w:shd" "w:fill") (Style.backColor rStyle) =
      Ok (Run.backColor run) /\
    stof_over 2 (XML.ChildAttribute rPr "w:sz" "w:val")
      (if positive (Style.fontSize rStyle) then Style.fontSize rStyle
       else F32.zero) = Ok (Run.fontSize run).
Proof.
  unfold readRun. intros H Hfr HrPr. rewrite Hfr, HrPr in H. inv_done.
  exists a. split; [exact Hm|].
  rewrite applyRunStyle_default in He. unfold directRunProps in He.
  cbn [Run.color Run.backColor Run.fontSize] in He. inv_done.
  cbn [Run.bold Run.italic Run.underline Run.strike Run.subscript
       Run.superscript Run.lang Run.fontFamily Run.color Run.backColor
       Run.fontSize].
  repeat split; try assumption;
    match goal with
    | |- (if ?b then true else _) = _ => destruct b; reflexivity
    end.
Qed.

Lemma direct_run_witness :
  exists run cache' rStyle,
    readRun 1 (Sample.el "w:r" [Sample.el "w:rPr" [Sample.el "w:i" []]])
      Chain.styles "B" ∅ = Done run cache' /\
    mergeStyleCached 1 Chain.styles "B" ∅ = Done rStyle cache' /\
    Run.bold run = true /\ Run.italic run = true.
Proof.
  assert (H : exists run cache',
            readRun 1 (Sample.el "w:r" [Sample.el "w:rPr" [Sample.el "w:i" []]])
              Chain.styles "B" ∅ = Done run cache')
    by (eexists _, _; vm_compute; reflexivity).
  destruct H as (run & cache' & H).
  destruct (direct_run_properties_win _ _ (Sample.el "w:rPr" [Sample.el "w:i" []])
              _ _ _ _ _ H eq_refl eq_refl)
    as (rStyle & Hstyle & Hbold & Hitalic & _).
  exists run, cache', rStyle. split; [exact H|]. split; [exact Hstyle|].
  vm_compute in Hstyle. inversion Hstyle. subst rStyle.
  split; [exact Hbold | exact Hitalic].
Defined.

Lemma seedParagraph_default (paraStyle : Style.t) (pStyleId : string) :
  seedParagraph paraStyle pStyleId Paragraph.default = {|
    Paragraph.style := pStyleId;
    Paragraph.level := Style.level paraStyle;
    Paragraph.numbered := Style.numbered paraStyle;
    Paragraph.numberFormat := Style.numberFormat paraStyle;
    Paragraph.numberStyle := Style.numberStyle paraStyle;
    Paragraph.justification := Style.justification paraStyle;
    Paragraph.rightDirection := Style.rightDirection paraStyle;
    Paragraph.lineSpacing :=
      if positive (Style.lineSpacing paraStyle) then Style.lineSpacing paraStyle
      else F32.one;
    Paragraph.spaceBefore := Style.spaceBefore paraStyle;
    Paragraph.spaceAfter := Style.spaceAfter paraStyle;
    Paragraph.spaceBetweenSameStyle := Style.spaceBetweenSameStyle paraStyle;
    Paragraph.indentLeft := Style.indentLeft paraStyle;
    Paragraph.indentRight := Style.indentRight paraStyle;
    Paragraph.indentFirstLine := Style.indentFirstLine paraStyle;
    Paragraph.tabs := Style.tabs paraStyle;
    Paragraph.runs := []
  |}.
Proof. reflexivity. Qed.

(** X25: the properties of a paragraph that has a [w:pPr]: the style merged is
    the one of [w:pStyle], and [Normal] when there is none, while the
    paragraph keeps the id it names; an indent, a spacing, a numbering
    level, a justification or the tab stops given in [w:pPr] win over the
    style's, and the style's are used when [w:pPr] gives none. A [w:jc]
    other than center, right and both, left included, leaves the
    justification of the style. *)
Theorem direct_paragraph_properties_win fuel (p pPr : XMLNode)
  (styles cache : StyleMap) para cache' :
  readParagraph fuel p styles cache = Done para cache' ->
  XML.FirstChildElement p "w:pPr" = Some pPr ->
  exists paraStyle cache0,
    mergeStyleCached fuel styles (mergedParagraphStyleId p) cache =
      Done paraStyle cache0 /\
    Paragraph.style para = paragraphStyleId p /\
    Paragraph.justification para =
      justification_of (XML.ChildAttribute pPr "w:jc" "w:val")
                       (Style.justification paraStyle) /\
    Paragraph.rightDirection para =
      XML.hasChild pPr "w:bidi" || Style.rightDirection paraStyle /\
    Paragraph.numbered para =
      XML.hasChild pPr "w:numPr" || Style.numbered paraStyle /\
    stof_over 240 (XML.ChildAttribute pPr "w:spacing" "w:line")
      (if positive (Style.lineSpacing paraStyle)
       then Style.lineSpacing paraStyle else F32.one) =
      Ok (Paragraph.lineSpacing para) /\
    stof_over 20 (XML.ChildAttribute pPr "w:spacing" "w:before")
      (Style.spaceBefore paraStyle) = Ok (Paragraph.spaceBefore para) /\
    stof_over 20 (XML.ChildAttribute pPr "w:spacing" "w:after")
      (Style.spaceAfter paraStyle) = Ok (Paragraph.spaceAfter para) /\
    stof_over 20 (XML.ChildAttribute pPr "w:ind" "w:left")
      (Style.indentLeft paraStyle) = Ok (Paragraph.indentLeft para) /\
    stof_over 20 (XML.ChildAttribute pPr "w:ind" "w:right")
      (Style.indentRight paraStyle) = Ok (Paragraph.indentRight para) /\
    stof_over 20 (XML.ChildAttribute pPr "w:ind" "w:firstLine")
      (Style.indentFirstLine paraStyle) = Ok (Paragraph.indentFirstLine para) /\
    match XML.FirstChildElement pPr "w:tabs" with
    | Some tabs =>
        readTabs (XML.ChildElements tabs "w:tab") [] = Ok (Paragraph.tabs para)
    | None => Paragraph.tabs para = Style.tabs paraStyle
    end.
Proof.
  unfold readParagraph, paragraphProps, mergedParagraphStyleId.
  intros H Hp. rewrite Hp in H. inv_done.
  exists a2, cache3. split; [exact Hm2|].
  rewrite seedParagraph_default in He. unfold directParagraphProps in He.
  unfold XML.ChildAttribute, XML.hasChild.
  cbn [Paragraph.indentLeft Paragraph.indentRight Paragraph.indentFirstLine
       Paragraph.lineSpacing Paragraph.spaceBefore Paragraph.spaceAfter
       Paragraph.tabs] in He.
  inv_done.
  cbn [Paragraph.set_runs Paragraph.style Paragraph.justification
       Paragraph.rightDirection Paragraph.numbered Paragraph.lineSpacing
       Paragraph.spaceBefore Paragraph.spaceAfter Paragraph.indentLeft
       Paragraph.indentRight Paragraph.indentFirstLine Paragraph.tabs].
  repeat split; try assumption.
  - destruct (XML.FirstChildElement pPr "w:numPr"); reflexivity.
  - destruct (XML.FirstChildElement pPr "w:tabs"); [assumption | congruence].
Qed.

Lemma direct_paragraph_witness :
  exists para cache',
    readParagraph 1
      (Sample.el "w:p" [Sample.el "w:pPr" [Sample.val "w:jc" "left"]])
      (<["Normal" := Sample.style "" true false]> ∅) ∅ = Done para cache' /\
    Paragraph.style para = "" /\
    Paragraph.justification para = Justification.Left.
Proof.
  assert (H : exists para cache',
            readParagraph 1
              (Sample.el "w:p" [Sample.el "w:pPr" [Sample.val "w:jc" "left"]])
              (<["Normal" := Sample.style "" true false]> ∅) ∅ = Done para cache')
    by (eexists _, _; vm_compute; reflexivity).
  destruct H as (para & cache' & H).
  destruct (direct_paragraph_properties_win _ _
              (Sample.el "w:pPr" [Sample.val "w:jc" "left"]) _ _ _ _ H eq_refl)
    as (paraStyle & cache0 & Hstyle & Hid & Hjc & _).
  exists para, cache'. split; [exact H|]. split; [exact Hid|].
  vm_compute in Hstyle. inversion Hstyle. subst paraStyle.
  exact Hjc.
Defined.

(** ** The older reader *)

(** Induction on the element tree. *)
Lemma XMLNode_induction (P : XMLNode -> Prop) :
  (forall s, P (XMLText s)) -> P XMLComment -> P XMLOther ->
  (forall name attrs children,
     Forall P children -> P (XMLElement name attrs children)) ->
  forall x, P x.
Proof.
  intros Htext Hcomment Hother Helement. fix IH 1.
  intros [s| | |name attrs children]; [apply Htext | assumption | assumption |].
  apply Helement.
  induction children as [|c children IHchildren]; constructor;
    [apply IH | exact IHchildren].
Qed.

Lemma collect_children (children : list XMLNode) :
  Forall (fun c => forall out,
            Legacy.collectTextRecursive c out =
            String.append out (Legacy.collectTextRecursive c "")) children ->
  forall out,
    fold_left (fun out c => Legacy.collectTextRecursive c out) children out =
    String.append out
      (concatText (map (fun c => Legacy.collectTextRecursive c "") children)).
Proof.
  induction 1 as [|c children Hc _ IH]; intros out; cbn [fold_left map concatText fold_right].
  - symmetry. apply append_empty_r.
  - rewrite IH, Hc. apply append_assoc.
Qed.

Lemma collect_element name attrs (children : list XMLNode) (out : string) :
  Legacy.collectTextRecursive (XMLElement name attrs children) out =
  fold_left (fun out c => Legacy.collectTextRecursive c out) children
    (String.append out (ownText (XMLElement name attrs children))).
Proof.
  cbn [Legacy.collectTextRecursive]. unfold ownText. cbn [XML.named].
  destruct (String.eqb name "w:t"); [|now rewrite append_empty_r].
  destruct (XML.GetText (XMLElement name attrs children)); cbn [or_default];
    [reflexivity | now rewrite append_empty_r].
Qed.

Lemma collect_accumulates (e : XMLNode) : forall out,
  Legacy.collectTextRecursive e out =
  String.append out (Legacy.collectTextRecursive e "").
Proof.
  induction e as [s| | |name attrs children IH] using XMLNode_induction;
    intros out; try (symmetry; apply append_empty_r).
  rewrite !collect_element, !(collect_children _ IH).
  change (String.append "" ?x) with x. apply append_assoc.
Qed.

(** X26: [collectTextRecursive] appends to [out] the text of the element when
    it is a [w:t], then the text collected from each child in document
    order: the texts of all the [w:t] below the element, depth first. *)
Theorem collectTextRecursive_in_document_order (e : XMLNode) (out : string) :
  Legacy.collectTextRecursive e out =
  String.append out
    (String.append (ownText e)
       (concatText (map (fun c => Legacy.collectTextRecursive c "")
                        (XML.children e)))).
Proof.
  destruct e as [s| | |name attrs children];
    try (symmetry; apply append_empty_r).
  rewrite collect_element, collect_children.
  - cbn [XML.children]. apply append_assoc.
  - apply Forall_forall. intros c _. apply collect_accumulates.
Qed.

Lemma legacy_footnotes_loop_lookup (k : Z) :
  forall (elems : list XMLNode) (map : gmap Z string),
  Legacy.parseFootnotes_loop elems map !! k =
  match List.find (isNote k) (rev elems) with
  | Some fn => Some (Legacy.collectTextRecursive fn "")
  | None => map !! k
  end.
Proof.
  induction elems as [|fn elems IH]; intros map;
    cbn [Legacy.parseFootnotes_loop rev]; [reflexivity|].
  rewrite find_snoc. unfold isNote at 2.
  destruct (XML.Attribute fn "w:id") as [idAttr|].
  2: { rewrite IH. destruct (find (isNote k) (rev elems)); reflexivity. }
  destruct (isSeparator (XML.Attribute fn "w:type")).
  { rewrite IH, andb_false_r. destruct (find (isNote k) (rev elems)); reflexivity. }
  rewrite IH, andb_true_r.
  destruct (find (isNote k) (rev elems)); [reflexivity|].
  destruct (Z.eqb_spec (CLib.atoi idAttr) k) as [<-|Hne].
  - apply lookup_insert_eq.
  - apply lookup_insert_ne, Hne.
Qed.

(** X27: the older [parseFootnotes] holds, under each key, the text collected
    from the last [w:footnote] element that is not a separator and whose
    [w:id] reads as the key; a key that no such element carries is
    absent. *)
Theorem legacy_footnotes_last_definition_wins (xml : XMLDocument) (k : Z) :
  Legacy.parseFootnotes xml !! k =
  match List.find (isNote k) (rev (noteElements "w:footnotes" "w:footnote" xml)) with
  | Some fn => Some (Legacy.collectTextRecursive fn "")
  | None => None
  end.
Proof.
  unfold Legacy.parseFootnotes, noteElements.
  destruct (find (XML.named "w:footnotes") xml) as [root|]; [|apply lookup_empty].
  rewrite legacy_footnotes_loop_lookup, lookup_empty. reflexivity.
Qed.

Lemma directSpacing_frame (pPr : XMLNode) (para : Legacy.Paragraph.t) :
  Legacy.directSpacing pPr Legacy.Paragraph.default = Ok para ->
  para = {|
    Legacy.Paragraph.style := "";
    Legacy.Paragraph.level := 0;
    Legacy.Paragraph.numbered := false;
    Legacy.Paragraph.numberFormat := "";
    Legacy.Paragraph.numberStyle := "";
    Legacy.Paragraph.justification := Justification.Left;
    Legacy.Paragraph.rightDirection := false;
    Legacy.Paragraph.lineSpacing := Legacy.Paragraph.lineSpacing para;
    Legacy.Paragraph.spaceBefore := Legacy.Paragraph.spaceBefore para;
    Legacy.Paragraph.spaceAfter := Legacy.Paragraph.spaceAfter para;
    Legacy.Paragraph.spaceBetweenSameStyle := false;
    Legacy.Paragraph.indentLeft := F32.zero;
    Legacy.Paragraph.indentRight := F32.zero;
    Legacy.Paragraph.indentFirstLine := F32.zero;
    Legacy.Paragraph.tabs := [];
    Legacy.Paragraph.runs := []
  |}.
Proof.
  unfold Legacy.directSpacing.
  destruct (XML.FirstChildElement pPr "w:spacing"); intros H; inv_done;
    reflexivity.
Qed.

(** X28: in the older reader every paragraph takes its spacing from the merged
    paragraph style only: a [w:spacing] in [w:pPr] is converted (and may
    throw) but never reaches the paragraph; the style merged is the one of
    [w:pStyle], without a fallback to [Normal]; and no other paragraph
    property is read. *)
Theorem legacy_spacing_comes_from_the_style fuel (p : XMLNode)
  (styles : StyleMap) (footnotes : gmap Z string) (cache : StyleMap) para cache' :
  Consistent styles cache ->
  Legacy.readParagraph fuel p styles footnotes cache = Done para cache' ->
  exists paraStyle cache0,
    mergeStyleCached fuel styles (paragraphStyleId p) cache =
      Done paraStyle cache0 /\
    para = {|
      Legacy.Paragraph.style := paragraphStyleId p;
      Legacy.Paragraph.level := 0;
      Legacy.Paragraph.numbered := false;
      Legacy.Paragraph.numberFormat := "";
      Legacy.Paragraph.numberStyle := "";
      Legacy.Paragraph.justification := Justification.Left;
      Legacy.Paragraph.rightDirection := false;
      Legacy.Paragraph.lineSpacing := Style.lineSpacing paraStyle;
      Legacy.Paragraph.spaceBefore := Style.spaceBefore paraStyle;
      Legacy.Paragraph.spaceAfter := Style.spaceAfter paraStyle;
      Legacy.Paragraph.spaceBetweenSameStyle := false;
      Legacy.Paragraph.indentLeft := F32.zero;
      Legacy.Paragraph.indentRight := F32.zero;
      Legacy.Paragraph.indentFirstLine := F32.zero;
      Legacy.Paragraph.tabs := [];
      Legacy.Paragraph.runs := Legacy.Paragraph.runs para
    |}.
Proof.
  unfold Legacy.readParagraph. intros Hcons H. inv_done.
  exists a0, cache1. split; [exact Hm0|].
  destruct (mergeStyleCached_fold _ _ _ _ _ _ Hcons Hm0) as (fuel0 & l & _ & ->).
  assert (Ha : a = Legacy.Paragraph.default \/
               exists pPr, Legacy.directSpacing pPr Legacy.Paragraph.default = Ok a).
  { destruct (XML.FirstChildElement p "w:pPr") as [pPr|]; [eauto|].
    inversion He. auto. }
  unfold Legacy.applyParagraphStyle.
  fold (positive (Style.lineSpacing (fold_right overlay Style.default l))).
  rewrite lineSpacing_fold_positive.
  destruct Ha as [->|[pPr Ha]]; [reflexivity|].
  rewrite (directSpacing_frame _ _ Ha). reflexivity.
Qed.

Lemma legacy_spacing_witness :
  exists para cache' paraStyle cache0,
    Legacy.readParagraph 1
      (Sample.el "w:p"
         [Sample.el "w:pPr" [XMLElement "w:spacing" [("w:line", "480")] []]])
      ∅ ∅ ∅ = Done para cache' /\
    mergeStyleCached 1 ∅ "" ∅ = Done paraStyle cache0 /\
    Legacy.Paragraph.lineSpacing para = Style.lineSpacing paraStyle.
Proof.
  assert (H : exists para cache',
            Legacy.readParagraph 1
              (Sample.el "w:p"
                 [Sample.el "w:pPr" [XMLElement "w:spacing" [("w:line", "480")] []]])
              ∅ ∅ ∅ = Done para cache')
    by (eexists _, _; vm_compute; reflexivity).
  destruct H as (para & cache' & H).
  destruct (legacy_spacing_comes_from_the_style _ _ _ _ _ _ _
              (Consistent_empty ∅) H)
    as (paraStyle & cache0 & Hstyle & Hpara).
  exists para, cache', paraStyle, cache0.
  split; [exact H|]. split; [exact Hstyle|].
  rewrite Hpara. reflexivity.
Defined.

(** X29: in the older reader the merged run style is applied after the direct
    properties and wins over them: a colour, font or size of the style
    replaces the one given in [w:rPr]. The run carries the id of its
    style, its text is the one of [w:t] untrimmed (or all the text below
    the run when it has no [w:t]), and [strike], [Subscript] and
    [Superscript] are never set. *)
Theorem legacy_style_wins_over_direct_properties fuel (r : XMLNode)
  (styles cache : StyleMap) run cache' :
  Legacy.readRun fuel r styles cache = Done run cache' ->
  exists rStyle,
    mergeStyleCached fuel styles (Legacy.runStyleId r) cache = Done rStyle cache' /\
    Legacy.Run.style run = Legacy.runStyleId r /\
    Legacy.Run.text run = Legacy.runText r /\
    Legacy.Run.strike run = false /\
    Legacy.Run.Subscript run = false /\
    Legacy.Run.Superscript run = false /\
    (Style.bold rStyle = true -> Legacy.Run.bold run = true) /\
    (Style.italic rStyle = true -> Legacy.Run.italic run = true) /\
    (Style.underline rStyle = true -> Legacy.Run.underline run = true) /\
    (Color.empty (Style.color rStyle) = false ->
     Legacy.Run.color run = Style.color rStyle) /\
    (Color.empty (Style.backColor rStyle) = false ->
     Legacy.Run.backColor run = Style.backColor rStyle) /\
    (empty (Style.fontFamily rStyle) = false ->
     Legacy.Run.fontFamily run = Style.fontFamily rStyle) /\
    (positive (Style.fontSize rStyle) = true ->
     Legacy.Run.fontSize run = Style.fontSize rStyle).
Proof.
  unfold Legacy.readRun, positive. intros H. inv_done.
  exists a0. split; [exact Hm0|].
  assert (Ha : Legacy.Run.strike a = false /\ Legacy.Run.Subscript a = false /\
               Legacy.Run.Superscript a = false).
  { destruct (XML.FirstChildElement r "w:rPr") as [rPr|].
    - unfold Legacy.directRunProps in He. inv_done. auto.
    - inversion He. auto. }
  destruct Ha as (Hstrike & Hsub & Hsuper). cbn.
  repeat split; try assumption; intros ->; reflexivity.
Qed.

Lemma legacy_style_witness :
  exists run cache' rStyle,
    Legacy.readRun 1
      (Sample.el "w:r" [Sample.el "w:rPr" [Sample.val "w:rStyle" "B"]])
      Chain.styles ∅ = Done run cache' /\
    mergeStyleCached 1 Chain.styles "B" ∅ = Done rStyle cache' /\
    Legacy.Run.style run = "B" /\ Legacy.Run.bold run = true.
Proof.
  assert (H : exists run cache',
            Legacy.readRun 1
              (Sample.el "w:r" [Sample.el "w:rPr" [Sample.val "w:rStyle" "B"]])
              Chain.styles ∅ = Done run cache')
    by (eexists _, _; vm_compute; reflexivity).
  destruct H as (run & cache' & H).
  destruct (legacy_style_wins_over_direct_properties _ _ _ _ _ _ H)
    as (rStyle & Hstyle & Hid & _ & _ & _ & _ & Hbold & _).
  exists run, cache', rStyle. split; [exact H|]. split; [exact Hstyle|].
  split; [exact Hid|]. apply Hbold.
  vm_compute in Hstyle. inversion Hstyle. reflexivity.
Defined.

Lemma legacyTextOf_app (l1 l2 : list Legacy.Run.t) :
  legacyTextOf (l1 ++ l2) = String.append (legacyTextOf l1) (legacyTextOf l2).
Proof.
  induction l1 as [|run l1 IH]; cbn; [reflexivity|].
  now rewrite IH, append_assoc.
Qed.

Lemma push_text (runs : list Legacy.Run.t) (run : Legacy.Run.t) :
  legacyTextOf (Legacy.push runs run) =
  String.append (legacyTextOf runs) (Legacy.Run.text run) /\
  (length (Legacy.push runs run) <= S (length runs))%nat.
Proof.
  unfold Legacy.push.
  assert (Hsnoc : legacyTextOf (runs ++ [run]) =
                  String.append (legacyTextOf runs) (Legacy.Run.text run) /\
                  (length (runs ++ [run]) <= S (length runs))%nat).
  { rewrite legacyTextOf_app, length_app. cbn.
    rewrite append_empty_r. split; [reflexivity | lia]. }
  destruct (rev runs) as [|back front] eqn:Hrev; [exact Hsnoc|].
  destruct (Legacy.sameRunStyle back run); [|exact Hsnoc].
  assert (Hruns : runs = rev front ++ [back])
    by (rewrite <- (rev_involutive runs), Hrev; reflexivity).
  subst runs. rewrite !legacyTextOf_app, !length_app. cbn.
  rewrite !append_empty_r, append_assoc. split; [reflexivity | lia].
Qed.

Lemma legacy_readRuns_text fuel (styles : StyleMap) (footnotes : gmap Z string) :
  forall (elems : list XMLNode) (runs : list Legacy.Run.t) (cache : StyleMap)
    runs' cache',
  Legacy.readRuns fuel elems styles footnotes runs cache = Done runs' cache' ->
  legacyTextOf runs' =
    String.append (legacyTextOf runs)
                  (concatText (map (legacyRunText footnotes) elems)) /\
  (length runs' <= length runs + length elems)%nat.
Proof.
  induction elems as [|r elems IH]; intros runs cache runs' cache' H;
    cbn [Legacy.readRuns] in H.
  - inv_done. cbn. rewrite append_empty_r. split; [reflexivity | lia].
  - cbn [map concatText fold_right length]. unfold legacyRunText at 1.
    destruct (footnoteReference r) as [[fr idAttr]|].
    + apply IH in H. destruct H as [Htext Hlen].
      rewrite Htext, legacyTextOf_app, length_app in *. cbn in *.
      rewrite append_empty_r, append_assoc. split; [reflexivity | lia].
    + inv_done. apply IH in Hk. destruct Hk as [Htext Hlen].
      destruct (push_text runs a) as [Hpush Hpushlen].
      rewrite Htext, Hpush, append_assoc.
      assert (Ha : Legacy.Run.text a = Legacy.runText r).
      { unfold Legacy.readRun in Hm. inv_done. reflexivity. }
      rewrite Ha. split; [reflexivity | lia].
Qed.

Lemma legacy_readParagraph_text fuel (p : XMLNode) (styles : StyleMap)
  (footnotes : gmap Z string) (cache : StyleMap) para cache' :
  Legacy.readParagraph fuel p styles footnotes cache = Done para cache' ->
  legacyTextOf (Legacy.Paragraph.runs para) =
    concatText (map (legacyRunText footnotes) (XML.ChildElements p "w:r")) /\
  (length (Legacy.Paragraph.runs para) <= length (XML.ChildElements p "w:r"))%nat.
Proof.
  unfold Legacy.readParagraph. intros H. inv_done.
  apply legacy_readRuns_text in Hm1. exact Hm1.
Qed.

Lemma legacy_readParagraphs_text fuel (styles : StyleMap)
  (footnotes : gmap Z string) :
  forall (elems : list XMLNode) (cache : StyleMap) paras cache',
  Legacy.readParagraphs fuel elems styles footnotes cache = Done paras cache' ->
  Forall2 (fun p para =>
             legacyTextOf (Legacy.Paragraph.runs para) =
               concatText (map (legacyRunText footnotes)
                               (XML.ChildElements p "w:r")) /\
             (length (Legacy.Paragraph.runs para) <=
              length (XML.ChildElements p "w:r"))%nat)
          elems paras.
Proof.
  induction elems as [|p elems IH]; intros cache paras cache' H;
    cbn [Legacy.readParagraphs] in H; inv_done; constructor.
  - eapply legacy_readParagraph_text; eassumption.
  - eapply IH; eassumption.
Qed.

Lemma legacy_parseAll_text fuel (fileData : FileData) (cache : StyleMap)
  paras cache' :
  Legacy.parseAll fuel fileData cache = Done paras cache' ->
  Forall2 (fun p para =>
             legacyTextOf (Legacy.Paragraph.runs para) =
               concatText
                 (map (legacyRunText
                         (Legacy.parseFootnotes (entry fileData "word/footnotes.xml")))
                      (XML.ChildElements p "w:r")) /\
             (length (Legacy.Paragraph.runs para) <=
              length (XML.ChildElements p "w:r"))%nat)
          (bodyParagraphs (entry fileData "word/document.xml")) paras.
Proof.
  unfold Legacy.parseAll, Legacy.parseDocumentWithFootnotes, bodyParagraphs.
  intros H. inv_done.
  destruct (find (XML.named "w:document") (entry fileData "word/document.xml"))
    as [root|]; [|inv_done; constructor].
  destruct (XML.FirstChildElement root "w:body") as [body|];
    [|inv_done; constructor].
  eapply legacy_readParagraphs_text; eassumption.
Qed.

(** X30: the older entry points return one paragraph for each [w:p] child of
    [w:body], in order; the texts of the runs of a paragraph, concatenated
    in order, are the texts of its [w:r] children in order, where a
    footnote reference reads [[Footnote id]] followed, when the footnote
    has a text, by a colon, a space and the text; and a paragraph has at
    most one run for each [w:r]. *)
Theorem legacy_document_text fuel (fileData : FileData) (cache : StyleMap)
  paras cache' :
  Legacy.readDocument fuel fileData cache = Done paras cache' \/
  Legacy.readDocumentFromMemory true fuel fileData cache = Done paras cache' ->
  Forall2 (fun p para =>
             legacyTextOf (Legacy.Paragraph.runs para) =
               concatText
                 (map (legacyRunText
                         (Legacy.parseFootnotes (entry fileData "word/footnotes.xml")))
                      (XML.ChildElements p "w:r")) /\
             (length (Legacy.Paragraph.runs para) <=
              length (XML.ChildElements p "w:r"))%nat)
          (bodyParagraphs (entry fileData "word/document.xml")) paras.
Proof.
  unfold Legacy.readDocument, Legacy.readDocumentFromMemory, cache_clear.
  intros [H|H]; inv_done; eapply legacy_parseAll_text; eassumption.
Qed.

Lemma legacy_text_witness :
  exists paras cache',
    Legacy.readDocument 1 Scenario.footnotes ∅ = Done paras cache' /\
    Forall2 (fun p para =>
               legacyTextOf (Legacy.Paragraph.runs para) =
                 concatText
                   (map (legacyRunText
                           (Legacy.parseFootnotes
                              (entry Scenario.footnotes "word/footnotes.xml")))
                        (XML.ChildElements p "w:r")) /\
               (length (Legacy.Paragraph.runs para) <=
                length (XML.ChildElements p "w:r"))%nat)
            (bodyParagraphs (entry Scenario.footnotes "word/document.xml")) paras.
Proof.
  eexists _, _. split.
  - vm_compute. reflexivity.
  - eapply (legacy_document_text 1 Scenario.footnotes ∅).
    left. vm_compute. reflexivity.
Defined.

(** A footnote reference followed by a run of text, in the older reader:
    the text is appended to the run of the reference. *)
Example legacy_reference_then_text :
  exists para cache',
    Legacy.readParagraph 1
      (Sample.el "w:p" [Sample.footnoteRun "7"; Sample.textRun "x"])
      ∅ (<[7 := "note"]> ∅) ∅ = Done para cache' /\
    map Legacy.Run.text (Legacy.Paragraph.runs para) = ["[Footnote 7]: notex"].
Proof. eexists _, _. split; vm_compute; reflexivity. Qed.
